(** * thor: committee election, block repository and packer loop

    A shallow embedding of the consensus core of the node:
    - [consensus]: the committee test of consensus/role.go;
    - [chain]: the block repository of chain/repository.go;
    - [node]: the packer loop and the transaction adoption loop.

    Go integers are [Z] with their wrap-around written out, byte slices are
    lists of 8-bit [Z], a [thor.Bytes32] is the 256-bit big-endian value of
    its 32 bytes, and a Go [(value, error)] pair is a [result] or a pair of
    options where the source can return both halves empty. *)

From stdpp Require Import base numbers list option gmap strings.

Open Scope Z_scope.

(** ** Errors and results *)

(** The error values the modelled code tells apart.  [errNotFound] is the
    sentinel of chain/repository.go, [errDBNotFound] the not-found outcome of
    the key-value store (what [db.IsNotFound] recognises); every other error
    is a message. *)
Inductive Error : Type :=
| errNotFound
| errDBNotFound
| errOther (msg : string).

Inductive result (A : Type) : Type :=
| Ok (a : A)
| Err (e : Error).
Arguments Ok {A} a.
Arguments Err {A} e.

#[global] Instance result_ret : MRet result := fun A a => Ok a.
#[global] Instance result_bind : MBind result := fun A B k r =>
  match r with
  | Ok a => k a
  | Err e => Err e
  end.

(** ** package thor: fixed-width values *)

Module thor.

Definition wrap (w : Z) (x : Z) : Z := x mod 2 ^ w.
Definition uint64 (x : Z) : Z := wrap 64 x.

Definition MaxUint32 : Z := 2 ^ 32 - 1.

(** A [thor.Bytes32]: the big-endian value of the 32 bytes. *)
Definition Bytes32 : Type := Z.

Definition IsBytes32 (h : Bytes32) : Prop := 0 <= h < 2 ^ 256.

(** [Bytes32{}], the all-zero value, and [IsZero]. *)
Definition zero32 : Bytes32 := 0.
Definition IsZero (h : Bytes32) : bool := h =? 0.

(** Byte [i] (0 is the first, most significant) of a 32-byte value. *)
Definition byteAt (h : Bytes32) (i : nat) : Z :=
  Z.land (Z.shiftr h (8 * (31 - Z.of_nat i))) 255.

(** [h.Bytes()]: the 32 bytes, first byte first. *)
Definition Bytes (h : Bytes32) : list Z := map (byteAt h) (seq 0 32).

(** The constants of package thor that the modelled code reads.  Their
    declarations are not part of the sources at hand, so they are taken as
    parameters; Go types them [uint64]. *)
Class Params : Type := {
  MaxBlockProposers : Z;
  CommitteeSize : Z;
  CommitteeThresholdFactor : Z;
  BlockInterval : Z;
  EpochInterval : Z
}.

End thor.

(** ** encoding/binary: big-endian readers *)

Module binary.

(** The value of a byte string read as one big-endian unsigned integer. *)
Definition BigEndian_value (b : list Z) : Z :=
  fold_left (fun acc x => Z.lor (Z.shiftl acc 8) x) b 0.

(** [binary.BigEndian.Uint64(b)]: reads [b[0..7]] only; Go panics when [b]
    is shorter, which is [None] here. *)
Definition BigEndian_Uint64 (b : list Z) : option Z :=
  match b with
  | b0 :: b1 :: b2 :: b3 :: b4 :: b5 :: b6 :: b7 :: _ =>
      Some (Z.lor b7 (Z.lor (Z.shiftl b6 8) (Z.lor (Z.shiftl b5 16)
           (Z.lor (Z.shiftl b4 24) (Z.lor (Z.shiftl b3 32)
           (Z.lor (Z.shiftl b2 40) (Z.lor (Z.shiftl b1 48) (Z.shiftl b0 56))))))))
  | _ => None
  end.

(** [binary.BigEndian.Uint32(b)]: reads [b[0..3]]. *)
Definition BigEndian_Uint32 (b : list Z) : option Z :=
  match b with
  | b0 :: b1 :: b2 :: b3 :: _ =>
      Some (Z.lor b3 (Z.lor (Z.shiftl b2 8) (Z.lor (Z.shiftl b1 16) (Z.shiftl b0 24))))
  | _ => None
  end.

End binary.

(** ** package consensus: committee membership (consensus/role.go) *)

Module consensus.
Import thor.

(** The cryptographic collaborators: [sk.Prove] of package vrf and
    [thor.Blake2b].  Both are opaque services with a fixed contract; the
    hash returns 32 bytes. *)
Class Crypto : Type := {
  PrivateKey : Type;
  Proof : Type;
  ProofBytes : Proof -> list Z;
  Prove : PrivateKey -> list Z -> result Proof;
  Blake2b : list Z -> Bytes32;
  Blake2b_range : forall b, IsBytes32 (Blake2b b)
}.

(** [getCommitteeThreshold]: a left-to-right [uint64] expression. *)
Definition getCommitteeThreshold `{Params} : Z :=
  uint64 (uint64 (uint64 MaxUint32 / MaxBlockProposers * CommitteeSize)
          * CommitteeThresholdFactor).

(** [IsCommittee]: the returned pair is (proof or nil, error or nil). *)
Definition IsCommittee `{Params} `{Crypto} (sk : PrivateKey) (seed : Bytes32)
  : option Proof * option Error :=
  match Prove sk (Bytes seed) with
  | Err err => (None, Some err)
  | Ok proof =>
      let h := Blake2b (ProofBytes proof) in
      let th := getCommitteeThreshold in
      match binary.BigEndian_Uint64 (Bytes h) with
      | Some v => if v <=? th then (Some proof, None) else (None, None)
      | None => (None, Some (errOther "index out of range"))
      end
  end.

End consensus.

(** ** packages block and tx: the data the repository stores *)

Module block.
Import thor.

(** [block.Number(id)], the block number an id carries.  The function is
    not part of the sources at hand, so it is a parameter. *)
Class Numbering : Type := { Number : Bytes32 -> Z }.

(** A transaction as far as the repository and the packer read it: its id,
    its hash and the gas it asks for. *)
Record Transaction : Type := {
  tx_ID : Bytes32;
  tx_Hash : Bytes32;
  tx_Gas : Z
}.

(** A receipt and a backer signature are payload; only their identity
    matters here. *)
Definition Receipt : Type := Z.
Definition ComplexSignature : Type := Z.

(** A signed header.  [ID] is the content hash the header's [ID()] method
    returns; NV, PP, PC and CM are the embedded finality fields. *)
Record Header : Type := {
  ID : Bytes32;
  ParentID : Bytes32;
  Timestamp : Z;
  NV : Bytes32;
  PP : Bytes32;
  PC : Bytes32;
  CM : Bytes32
}.

Record Block : Type := {
  header : Header;
  Transactions : list Transaction;
  BackerSignatures : list ComplexSignature;
  Size : Z
}.

(** [block.Compose(header, txs, bss)]. *)
Definition Compose (h : Header) (txs : list Transaction)
    (bss : list ComplexSignature) (size : Z) : Block :=
  {| header := h; Transactions := txs; BackerSignatures := bss; Size := size |}.

End block.

(** ** package chain: the block repository (chain/repository.go) *)

Module chain.
Import thor block.

(** *** Records and keys *)

(** [BlockSummary].  The index root is a trie root hash in the source; it is
    modelled by the index it commits to: the block id found at each block
    number on the chain that ends at this block. *)
Record BlockSummary : Type := {
  Header : block.Header;
  IndexRoot : gmap Z Z;
  Txs : list Bytes32;
  Size : Z
}.

Inductive Infix : Type := txInfix | receiptInfix.

(** [txKey]: block id, role tag and index ([makeTxKey], [SetIndex]). *)
Record txKey : Type := {
  key_id : Bytes32;
  key_infix : Infix;
  key_index : Z
}.

Definition makeTxKey (id : Bytes32) (infix : Infix) : txKey :=
  {| key_id := id; key_infix := infix; key_index := 0 |}.

Definition SetIndex (key : txKey) (i : Z) : txKey :=
  {| key_id := key_id key; key_infix := key_infix key; key_index := uint64 i |}.

#[global] Instance Infix_eq_dec : EqDecision Infix.
Proof. solve_decision. Defined.

#[global] Instance Infix_countable : Countable Infix.
Proof.
  refine (inj_countable' (fun i => match i with txInfix => false | receiptInfix => true end)
                         (fun b => if b then receiptInfix else txInfix) _).
  intros []; reflexivity.
Defined.

#[global] Instance txKey_eq_dec : EqDecision txKey.
Proof. solve_decision. Defined.

#[global] Instance txKey_countable : Countable txKey.
Proof.
  refine (inj_countable' (fun k => (key_id k, key_infix k, key_index k))
                         (fun t => {| key_id := t.1.1; key_infix := t.1.2; key_index := t.2 |}) _).
  intros []; reflexivity.
Defined.

(** The keys and the records of the two stores ("chain.data" and
    "chain.props"). *)
Inductive Key : Type :=
| summaryKey (id : Bytes32)
| recordKey (key : txKey)
| bssKey (id : Bytes32)
| branchHeadKey (id : Bytes32)
| bestBlockIDKey.

Inductive Value : Type :=
| VSummary (s : BlockSummary)
| VTransaction (t : Transaction)
| VReceipt (r : Receipt)
| VBackerSignatures (bss : list ComplexSignature)
| VBytes32 (id : Bytes32).

#[global] Instance Key_eq_dec : EqDecision Key.
Proof. solve_decision. Defined.

(** *** The key-value store (package kv) *)

(** A store is the sequence of its commits, newest first; a commit is the
    list of the puts it applies at once, newest first.  A reader sees the
    store between two commits, never inside one.  [unreadable] lists the
    keys whose read fails with a storage error other than not-found. *)
Record Store : Type := {
  commits : list (list (Key * Value));
  unreadable : list Key
}.

Fixpoint lookupKV (k : Key) (l : list (Key * Value)) : option Value :=
  match l with
  | [] => None
  | (k', v) :: l' => if decide (k' = k) then Some v else lookupKV k l'
  end.

Definition errRead : Error := errOther "storage read failed".

Definition Get (st : Store) (k : Key) : result Value :=
  if decide (k ∈ unreadable st) then Err errRead
  else match lookupKV k (concat (commits st)) with
       | Some v => Ok v
       | None => Err errDBNotFound
       end.

(** A commit of several puts ([Batch]) and of one put ([Put]). *)
Definition commit (st : Store) (puts : list (Key * Value)) : Store :=
  {| commits := puts :: commits st; unreadable := unreadable st |}.

Definition Put (st : Store) (k : Key) (v : Value) : Store :=
  commit st [(k, v)].

(** *** Persistence helpers *)

(** The save and load helpers and the store's [Put] are not part of the
    sources at hand.  A save encodes a record and hands it to the putter;
    [saveErr] is the error, if any, that saving under a key returns.
    [putErr] is the error, if any, that [Put] of a key and a value returns on
    a store; a put that returns an error writes nothing. *)
Class Persist : Type := {
  saveErr : Key -> option Error;
  putErr : Store -> Key -> Value -> option Error
}.

Definition errDecode : Error := errOther "decode failed".

Definition save `{Persist} (putter : list (Key * Value)) (k : Key) (v : Value)
  : result (list (Key * Value)) :=
  match saveErr k with
  | Some err => Err err
  | None => Ok ((k, v) :: putter)
  end.

Definition loadBlockSummary (data : Store) (id : Bytes32) : result BlockSummary :=
  v ← Get data (summaryKey id);
  match v with VSummary s => Ok s | _ => Err errDecode end.

Definition loadTransaction (data : Store) (key : txKey) : result Transaction :=
  v ← Get data (recordKey key);
  match v with VTransaction t => Ok t | _ => Err errDecode end.

Definition loadReceipt (data : Store) (key : txKey) : result Receipt :=
  v ← Get data (recordKey key);
  match v with VReceipt r => Ok r | _ => Err errDecode end.

Definition loadBackerSignatures (data : Store) (id : Bytes32)
  : result (list ComplexSignature) :=
  v ← Get data (bssKey id);
  match v with VBackerSignatures bss => Ok bss | _ => Err errDecode end.

(** Modelled from the spec: [isBranchHead] and [saveBranchHead] are not part
    of the sources at hand.  A branch-head record maps a chain tip's id to
    its previous head id (or zero); [saveBranchHead] writes it straight to
    the store it is given. *)
Definition isBranchHead (data : Store) (id : Bytes32) : bool :=
  match Get data (branchHeadKey id) with Ok _ => true | Err _ => false end.

Definition saveBranchHead (data : Store) (head prev : Bytes32) : Store :=
  Put data (branchHeadKey head) (VBytes32 prev).

(** *** The repository *)

Record Caches : Type := {
  summaries : gmap Z BlockSummary;
  txs : gmap txKey Transaction;
  receipts : gmap txKey Receipt;
  bss : gmap Z (list ComplexSignature)
}.

Definition newCaches : Caches :=
  {| summaries := ∅; txs := ∅; receipts := ∅; bss := ∅ |}.

(** [best] is the atomic best-block reference (empty before the first
    store), [tick] counts the broadcasts of the best-block signal.  The
    caches are unbounded here: eviction only turns a hit into a load. *)
Record Repository : Type := {
  data : Store;
  props : Store;
  genesis : Block;
  best : option Block;
  tag : Z;
  tick : nat;
  caches : Caches
}.

Definition set_data (r : Repository) (d : Store) : Repository :=
  {| data := d; props := props r; genesis := genesis r; best := best r;
     tag := tag r; tick := tick r; caches := caches r |}.

Definition set_caches (r : Repository) (c : Caches) : Repository :=
  {| data := data r; props := props r; genesis := genesis r; best := best r;
     tag := tag r; tick := tick r; caches := c |}.

(** [IsNotFound]. *)
Definition db_IsNotFound (err : Error) : bool :=
  match err with errDBNotFound => true | _ => false end.

Definition IsNotFound (err : Error) : bool :=
  match err with errNotFound => true | _ => db_IsNotFound err end.

(** [GetOrLoad] is a read-through: a hit returns the cached value, a miss
    loads from the store. *)
Definition GetBlockSummary (r : Repository) (id : Bytes32) : result BlockSummary :=
  match summaries (caches r) !! id with
  | Some cached => Ok cached
  | None => loadBlockSummary (data r) id
  end.

Definition getTransaction (r : Repository) (key : txKey) : result Transaction :=
  match txs (caches r) !! key with
  | Some cached => Ok cached
  | None => loadTransaction (data r) key
  end.

Definition getReceipt (r : Repository) (key : txKey) : result Receipt :=
  match receipts (caches r) !! key with
  | Some cached => Ok cached
  | None => loadReceipt (data r) key
  end.

(** The loop [for i := range summary.Txs] of the two getters. *)
Fixpoint getEach {A : Type} (get : txKey -> result A) (key : txKey) (i : Z)
    (ids : list Bytes32) : result (list A) :=
  match ids with
  | [] => Ok []
  | _ :: ids' =>
      x ← get (SetIndex key i);
      xs ← getEach get key (i + 1) ids';
      Ok (x :: xs)
  end.

Definition GetBlockTransactions (r : Repository) (id : Bytes32)
  : result (list Transaction) :=
  summary ← GetBlockSummary r id;
  if (0 <? Z.of_nat (length (Txs summary)))
  then getEach (getTransaction r) (makeTxKey id txInfix) 0 (Txs summary)
  else Ok [].

Definition GetBlockReceipts (r : Repository) (id : Bytes32)
  : result (list Receipt) :=
  summary ← GetBlockSummary r id;
  if (0 <? Z.of_nat (length (Txs summary)))
  then getEach (getReceipt r) (makeTxKey id receiptInfix) 0 (Txs summary)
  else Ok [].

Definition GetBlockBackerSignatures (r : Repository) (id : Bytes32)
  : result (list ComplexSignature) :=
  match bss (caches r) !! id with
  | Some cached => Ok cached
  | None =>
      match loadBackerSignatures (data r) id with
      | Err err => if IsNotFound err then Ok [] else Err err
      | Ok l => Ok l
      end
  end.

Definition GetBlock (r : Repository) (id : Bytes32) : result Block :=
  summary ← GetBlockSummary r id;
  txs ← GetBlockTransactions r id;
  bss ← GetBlockBackerSignatures r id;
  Ok (Compose (Header summary) txs bss (Size summary)).

(** *** Writing a block *)

(** The state the body of [saveBlock]'s batch works on: the batch putter,
    the caches it fills as it goes, and [summary.Txs]. *)
Record saving : Type := {
  putter : list (Key * Value);
  cached : Caches;
  summary_txs : list Bytes32
}.

Definition add_tx (c : Caches) (key : txKey) (t : Transaction) : Caches :=
  {| summaries := summaries c; txs := <[key := t]> (txs c);
     receipts := receipts c; bss := bss c |}.

Definition add_receipt (c : Caches) (key : txKey) (rc : Receipt) : Caches :=
  {| summaries := summaries c; txs := txs c;
     receipts := <[key := rc]> (receipts c); bss := bss c |}.

Definition add_bss (c : Caches) (id : Bytes32) (l : list ComplexSignature) : Caches :=
  {| summaries := summaries c; txs := txs c;
     receipts := receipts c; bss := <[id := l]> (bss c) |}.

Definition add_summary (c : Caches) (id : Bytes32) (s : BlockSummary) : Caches :=
  {| summaries := <[id := s]> (summaries c); txs := txs c;
     receipts := receipts c; bss := bss c |}.

(** [for i, tx := range txs]. *)
Fixpoint saveTransactions `{Persist} (key : txKey) (i : Z) (l : list Transaction)
    (st : saving) : saving * option Error :=
  match l with
  | [] => (st, None)
  | t :: l' =>
      let key := SetIndex key i in
      match save (putter st) (recordKey key) (VTransaction t) with
      | Err err => (st, Some err)
      | Ok p =>
          saveTransactions key (i + 1) l'
            {| putter := p;
               cached := add_tx (cached st) key t;
               summary_txs := summary_txs st ++ [tx_ID t] |}
      end
  end.

(** [for i, receipt := range receipts]. *)
Fixpoint saveReceipts `{Persist} (key : txKey) (i : Z) (l : list Receipt)
    (st : saving) : saving * option Error :=
  match l with
  | [] => (st, None)
  | rc :: l' =>
      let key := SetIndex key i in
      match save (putter st) (recordKey key) (VReceipt rc) with
      | Err err => (st, Some err)
      | Ok p =>
          saveReceipts key (i + 1) l'
            {| putter := p;
               cached := add_receipt (cached st) key rc;
               summary_txs := summary_txs st |}
      end
  end.

(** The function [saveBlock] passes to [Batch]: it returns the caches as
    it left them and either the puts of the batch or the error that
    aborted it. *)
Definition saveBlockBatch `{Persist} (c : Caches) (blk : Block)
    (rcs : list Receipt) (indexRoot : gmap Z Z)
  : Caches * result (list (Key * Value)) :=
  let header := block.header blk in
  let id := ID header in
  let txs := Transactions blk in
  let bss := BackerSignatures blk in
  let st0 := {| putter := []; cached := c; summary_txs := [] |} in
  let '(st1, err1) :=
    if 0 <? Z.of_nat (length txs) then
      match saveTransactions (makeTxKey id txInfix) 0 txs st0 with
      | (st, Some err) => (st, Some err)
      | (st, None) => saveReceipts (makeTxKey id receiptInfix) 0 rcs st
      end
    else (st0, None) in
  match err1 with
  | Some err => (cached st1, Err err)
  | None =>
      match save (putter st1) (bssKey id) (VBackerSignatures bss) with
      | Err err => (cached st1, Err err)
      | Ok p2 =>
          let c2 := add_bss (cached st1) id bss in
          let summary := {| Header := header; IndexRoot := indexRoot;
                            Txs := summary_txs st1;
                            Size := uint64 (block.Size blk) |} in
          match save p2 (summaryKey id) (VSummary summary) with
          | Err err => (c2, Err err)
          | Ok p3 => (add_summary c2 id summary, Ok p3)
          end
      end
  end.

(** [saveBlock]: [r.data.Batch] commits the puts only when the body
    returned no error. *)
Definition saveBlock `{Persist} (r : Repository) (blk : Block)
    (rcs : list Receipt) (indexRoot : gmap Z Z) : Repository * option Error :=
  match saveBlockBatch (caches r) blk rcs indexRoot with
  | (c, Err err) => (set_caches r c, Some err)
  | (c, Ok puts) => (set_data (set_caches r c) (commit (data r) puts), None)
  end.

(** Modelled from the spec: [indexBlock] is not part of the sources at hand.
    It computes a new index root layered on the parent's, which enables the
    ancestor queries: the new index is the parent's with the new block's id
    at the new block's number. *)
Definition indexBlock `{Numbering} (parentIndexRoot : gmap Z Z) (blk : Block)
    (rcs : list Receipt) : result (gmap Z Z) :=
  Ok (<[Number (ID (header blk)) := ID (header blk)]> parentIndexRoot).

Definition errParentMissing : Error := errOther "parent missing".

(** [AddBlock]. *)
Definition AddBlock `{Numbering} `{Persist} (r : Repository) (newBlock : Block)
    (rcs : list Receipt) : Repository * option Error :=
  match GetBlockSummary r (ParentID (header newBlock)) with
  | Err err =>
      if IsNotFound err then (r, Some errParentMissing) else (r, Some err)
  | Ok parentSummary =>
      match indexBlock (IndexRoot parentSummary) newBlock rcs with
      | Err err => (r, Some err)
      | Ok indexRoot =>
          match saveBlock r newBlock rcs indexRoot with
          | (r1, Some err) => (r1, Some err)
          | (r1, None) =>
              (* Write the persistent branch head info *)
              if isBranchHead (data r1) (ParentID (header newBlock))
              then (set_data r1 (saveBranchHead (data r1) (ID (header newBlock))
                                                (ParentID (header newBlock))), None)
              else (set_data r1 (saveBranchHead (data r1) (ID (header newBlock))
                                                zero32), None)
          end
      end
  end.

(** [setBestBlock]: the put into the property store comes first; when it
    fails its error is returned and the best block is not stored. *)
Definition setBestBlock `{Persist} (r : Repository) (b : Block)
  : Repository * option Error :=
  let val := VBytes32 (ID (header b)) in
  match putErr (props r) bestBlockIDKey val with
  | Some err => (r, Some err)
  | None =>
      ({| data := data r;
          props := Put (props r) bestBlockIDKey val;
          genesis := genesis r; best := Some b; tag := tag r; tick := tick r;
          caches := caches r |}, None)
  end.

(** [r.tick.Broadcast()]. *)
Definition Broadcast (r : Repository) : Repository :=
  {| data := data r; props := props r; genesis := genesis r; best := best r;
     tag := tag r; tick := S (tick r); caches := caches r |}.

(** [SetBestBlockID]: the deferred function broadcasts only when the
    returned error is nil. *)
Definition SetBestBlockID `{Persist} (r : Repository) (id : Bytes32)
  : Repository * option Error :=
  match GetBlock r id with
  | Err err => (r, Some err)
  | Ok b =>
      match setBestBlock r b with
      | (r1, Some err) => (r1, Some err)
      | (r1, None) => (Broadcast r1, None)
      end
  end.

(** *** Chains *)

(** [NewChain]: a chain is the repository and the id of its head. *)
Record Chain : Type := {
  repo : Repository;
  head : Bytes32
}.

Definition NewChain (r : Repository) (headID : Bytes32) : Chain :=
  {| repo := r; head := headID |}.

(** Modelled from the spec: [GetBlockID] and [HasBlock] of [Chain] are not
    part of the sources at hand.  They answer through the index root of the
    chain's head, not by replaying the chain: the id at a number is what the
    head's index holds there, and the chain has a block when its index
    holds that block's id at that block's number. *)
Definition GetBlockID (c : Chain) (num : Z) : result Bytes32 :=
  summary ← GetBlockSummary (repo c) (head c);
  match IndexRoot summary !! num with
  | Some id => Ok id
  | None => Err errNotFound
  end.

Definition HasBlock `{Numbering} (c : Chain) (id : Bytes32) : bool * option Error :=
  match GetBlockID c (Number id) with
  | Err err => if IsNotFound err then (false, None) else (false, Some err)
  | Ok foundID => (bool_decide (id = foundID), None)
  end.

(** [NewRepository] over the two stores of a database. *)
Definition NewRepository `{Numbering} `{Persist} (dataStore propStore : Store)
    (genesis : Block) : result Repository :=
  if negb (Number (ID (header genesis)) =? 0)
  then Err (errOther "genesis number != 0")
  else if negb (Z.of_nat (length (Transactions genesis)) =? 0)
  then Err (errOther "genesis block should not have transactions")
  else
    let genesisID := ID (header genesis) in
    let repo := {| data := dataStore; props := propStore; genesis := genesis;
                   best := None; tag := byteAt genesisID 31; tick := O;
                   caches := newCaches |} in
    match Get (props repo) bestBlockIDKey with
    | Err err =>
        if negb (db_IsNotFound err) then Err err
        else
          indexRoot ← indexBlock ∅ genesis [];
          match saveBlock repo genesis [] indexRoot with
          | (_, Some err) => Err err
          | (repo1, None) =>
              match setBestBlock repo1 genesis with
              | (_, Some err) => Err err
              | (repo2, None) => Ok repo2
              end
          end
    | Ok val =>
        let bestID := match val with VBytes32 id => id | _ => zero32 end in
        match GetBlockID (NewChain repo bestID) 0 with
        | Err err => Err (errOther "get existing genesis id")
        | Ok existingGenesisID =>
            if negb (bool_decide (existingGenesisID = genesisID))
            then Err (errOther "genesis mismatch")
            else
              match GetBlock repo bestID with
              | Err err => Err (errOther "get best block")
              | Ok b =>
                  Ok {| data := data repo; props := props repo;
                        genesis := genesis; best := Some b; tag := tag repo;
                        tick := tick repo; caches := caches repo |}
              end
        end
    end.

(** [IfConflict]: the returned pair is (conflict, error or nil). *)
Definition IfConflict `{Numbering} (r : Repository) (b1 b2 : Bytes32)
  : bool * option Error :=
  match GetBlockSummary r b1 with
  | Err err => if IsNotFound err then (false, None) else (false, Some err)
  | Ok _ =>
      match GetBlockSummary r b2 with
      | Err err => if IsNotFound err then (false, None) else (false, Some err)
      | Ok _ =>
          if bool_decide (b1 = b2) then (false, None)
          else if Number b1 =? Number b2 then (true, None)
          else
            let '(low, high) :=
              if Number b1 >? Number b2 then (b2, b1) else (b1, b2) in
            let c := NewChain r high in
            match HasBlock c low with
            | (ok, Some err) => (true, Some err)
            | (ok, None) => (negb ok, None)
            end
      end
  end.

(** *** What a block's batch holds, and which repositories exist *)

(** The records of a block's transactions and receipts, in the order the
    loops of [saveBlock] put them. *)
Fixpoint txRecords (key : txKey) (i : Z) (l : list Transaction)
  : list (Key * Value) :=
  match l with
  | [] => []
  | t :: l' =>
      (recordKey (SetIndex key i), VTransaction t)
        :: txRecords (SetIndex key i) (i + 1) l'
  end.

Fixpoint receiptRecords (key : txKey) (i : Z) (l : list Receipt)
  : list (Key * Value) :=
  match l with
  | [] => []
  | rc :: l' =>
      (recordKey (SetIndex key i), VReceipt rc)
        :: receiptRecords (SetIndex key i) (i + 1) l'
  end.

(** The summary [saveBlock] builds. *)
Definition summaryOf (blk : Block) (indexRoot : gmap Z Z) : BlockSummary :=
  {| Header := header blk; IndexRoot := indexRoot;
     Txs := map tx_ID (Transactions blk);
     Size := uint64 (block.Size blk) |}.

(** All the records of one block, oldest put first: transactions and
    receipts (only when the block has transactions), backer signatures, and
    the summary, which holds the header. *)
Definition blockRecords (blk : Block) (rcs : list Receipt) (indexRoot : gmap Z Z)
  : list (Key * Value) :=
  let id := ID (header blk) in
  (if 0 <? Z.of_nat (length (Transactions blk))
   then txRecords (makeTxKey id txInfix) 0 (Transactions blk)
        ++ receiptRecords (makeTxKey id receiptInfix) 0 rcs
   else [])
  ++ [(bssKey id, VBackerSignatures (BackerSignatures blk));
      (summaryKey id, VSummary (summaryOf blk indexRoot))].

(** The block a key of the data store belongs to. *)
Definition keyBlock (k : Key) : option Bytes32 :=
  match k with
  | summaryKey id | bssKey id | branchHeadKey id => Some id
  | recordKey key => Some (key_id key)
  | bestBlockIDKey => None
  end.

(** A key under which [saveBlock] writes a record of block [id]: it
    belongs to that block and is no branch-head key. *)
Definition blockRecordKey (id : Bytes32) (k : Key) : Prop :=
  keyBlock k = Some id /\ forall x, k <> branchHeadKey x.

Definition emptyStore : Store := {| commits := []; unreadable := [] |}.

(** The store as a reader saw it [n] commits ago. *)
Definition rewind (n : nat) (st : Store) : Store :=
  {| commits := drop n (commits st); unreadable := unreadable st |}.

(** The repositories the modelled operations produce from an empty
    database.  A block handed to [AddBlock] carries its number in its id,
    one more than its parent's, and its id, a content hash, is not the id
    of a block already stored. *)
Inductive reachable `{Numbering} `{Persist} : Repository -> Prop :=
| reach_new genesis r :
    NewRepository emptyStore emptyStore genesis = Ok r ->
    reachable r
| reach_add r newBlock rcs r' res :
    reachable r ->
    Number (ID (header newBlock)) = Number (ParentID (header newBlock)) + 1 ->
    (forall s, GetBlockSummary r (ID (header newBlock)) <> Ok s) ->
    AddBlock r newBlock rcs = (r', res) ->
    reachable r'
| reach_best r id r' res :
    reachable r ->
    SetBestBlockID r id = (r', res) ->
    reachable r'.

(** [ancestor r a b]: block [a] is [b] or lies on the chain of parents from
    [b] down to genesis. *)
Inductive ancestor (r : Repository) : Bytes32 -> Bytes32 -> Prop :=
| anc_refl b s :
    GetBlockSummary r b = Ok s -> ancestor r b b
| anc_step a b s :
    GetBlockSummary r b = Ok s ->
    b <> ID (header (genesis r)) ->
    ancestor r a (ParentID (Header s)) ->
    ancestor r a b.

(** The invariant of the stored summaries: the genesis block is stored,
    has number 0 and indexes itself; every stored summary is stored under
    its header's id; and every other block's parent is stored, one number
    below, with the block's index layered on the parent's. *)
Definition RepoInv `{Numbering} (r : Repository) : Prop :=
  let gid := ID (header (genesis r)) in
  Number gid = 0 /\
  (exists gs, GetBlockSummary r gid = Ok gs /\ IndexRoot gs = <[0 := gid]> ∅) /\
  forall id s, GetBlockSummary r id = Ok s ->
    ID (Header s) = id /\ 0 <= Number id /\
    (id <> gid ->
     exists ps, GetBlockSummary r (ParentID (Header s)) = Ok ps /\
       IndexRoot s = <[Number id := id]> (IndexRoot ps) /\
       Number id = Number (ParentID (Header s)) + 1).

(** *** Reading from the store alone *)

(** The repository with its caches emptied: what a reader gets once nothing
    is cached any more, as on the first read after the database is opened
    again. *)
Definition cold (r : Repository) : Repository := set_caches r newCaches.

(** The caches agree with the store on block [id]: its summary is read the
    same with the caches and from the store alone, and when it is stored its
    backer signatures and each of its transactions can be read, with the
    same result either way. *)
Definition coherentAt (r : Repository) (id : Bytes32) : Prop :=
  GetBlockSummary (cold r) id = GetBlockSummary r id /\
  forall s, GetBlockSummary r id = Ok s ->
    (exists l, GetBlockBackerSignatures r id = Ok l /\
               GetBlockBackerSignatures (cold r) id = Ok l) /\
    forall j : nat, (j < length (Txs s))%nat ->
      exists t,
        getTransaction r (SetIndex (makeTxKey id txInfix) (Z.of_nat j)) = Ok t /\
        getTransaction (cold r) (SetIndex (makeTxKey id txInfix) (Z.of_nat j)) = Ok t.

(** No key of the two stores is unreadable, and the caches agree with the
    store on every block. *)
Definition Coherent (r : Repository) : Prop :=
  unreadable (data r) = [] /\ unreadable (props r) = [] /\
  forall id, coherentAt r id.

(** Two blocks with the same header, transactions and backer signatures:
    what [block.Compose] is given. *)
Definition sameContent (b1 b2 : Block) : Prop :=
  header b1 = header b2 /\ Transactions b1 = Transactions b2 /\
  BackerSignatures b1 = BackerSignatures b2.

(** *** Accessors and branches *)

(** [ChainTag], [GenesisBlock] and [BestBlock].  [BestBlock] reads the atomic
    reference; before the first store the type assertion of the source
    panics, which is [None] here. *)
Definition ChainTag (r : Repository) : Z := tag r.
Definition GenesisBlock (r : Repository) : Block := genesis r.
Definition BestBlock (r : Repository) : option Block := best r.

(** [loadBranchHeads(r.data, minNum)], the ids of the branch heads recorded
    in the store from a block number on.  The function is not among the
    sources at hand, so it is a parameter. *)
Class BranchHeads : Type := { loadBranchHeads : Store -> Z -> list Bytes32 }.

(** The loop of [GetBranchesByID] over the heads; an error drops the
    branches collected so far. *)
Fixpoint branchesByID `{Numbering} (r : Repository) (id : Bytes32)
    (heads : list Bytes32) (branches : list Chain) : list Chain * option Error :=
  match heads with
  | [] => (branches, None)
  | head :: rest =>
      let c := NewChain r head in
      match HasBlock c id with
      | (_, Some err) => ([], Some err)
      | (true, None) => branchesByID r id rest (branches ++ [c])
      | (false, None) => branchesByID r id rest branches
      end
  end.

(** [GetBranchesByID]. *)
Definition GetBranchesByID `{Numbering} `{BranchHeads} (r : Repository)
    (id : Bytes32) : list Chain * option Error :=
  branchesByID r id (loadBranchHeads (data r) (Number id)) [].

(** The loop of [GetBranchesByTimestamp] over the heads. *)
Fixpoint branchesByTimestamp (r : Repository) (ts : Z)
    (heads : list Bytes32) (branches : list Chain) : list Chain * option Error :=
  match heads with
  | [] => (branches, None)
  | head :: rest =>
      match GetBlockSummary r head with
      | Err err => ([], Some err)
      | Ok summary =>
          if Timestamp (Header summary) <=? ts
          then branchesByTimestamp r ts rest branches
          else branchesByTimestamp r ts rest (branches ++ [NewChain r head])
      end
  end.

(** [GetBranchesByTimestamp]: the minimal block number is a [uint64]
    difference and quotient, cut to a [uint32]. *)
Definition minBlockNumber `{Params} (r : Repository) (ts : Z) : Z :=
  wrap 32 (uint64 (ts - Timestamp (header (genesis r))) / BlockInterval).

Definition GetBranchesByTimestamp `{Params} `{BranchHeads} (r : Repository)
    (ts : Z) : list Chain * option Error :=
  branchesByTimestamp r ts (loadBranchHeads (data r) (minBlockNumber r ts)) [].

End chain.

(** ** package node: the packer loop *)

Module node.
Import thor block.

(** The packer collaborator as the loop uses it: [flow.Adopt] and the two
    error tests of package packer.  Their bodies are not part of the
    sources at hand. *)
Class Packer : Type := {
  Flow : Type;
  Adopt : Flow -> Transaction -> Flow * option Error;
  IsGasLimitReached : option Error -> bool;
  IsTxNotAdoptableNow : option Error -> bool
}.

(** The loop variables of [packTxSetAndBlockSummary], with two observations
    added: [doneReceived] tells whether the loop has received from the
    [done] channel, [adoptCalls] lists the calls of [flow.Adopt] so far with
    the error each returned. *)
Record adopting `{Packer} : Type := {
  flow : Flow;
  txsToRemove : list Transaction;
  doneReceived : bool;
  adoptCalls : list (Transaction * option Error)
}.

(** [for _, tx := range n.txPool.Executables()].

    [elapsed i] tells whether the timer goroutine is blocked on its send to
    [done] when iteration [i] reaches the [select]: the budget of
    [maxTxPackingDur] seconds is over by then.  The channel is unbuffered
    and gets one value, so the receive succeeds at most once.  The [break]
    of the receive case leaves the [select]; the [break] of the
    gas-limit case leaves the [switch]; both go on with the loop. *)
Fixpoint adoptLoop `{Packer} (elapsed : nat -> bool) (i : nat)
    (executables : list Transaction) (st : adopting) : adopting :=
  match executables with
  | [] => st
  | t :: rest =>
      (* select { case <-done: break; default: } *)
      let received := elapsed i && negb (doneReceived st) in
      let done' := doneReceived st || received in
      (* err := flow.Adopt(tx) *)
      let '(flow', err) := Adopt (flow st) t in
      let calls' := adoptCalls st ++ [(t, err)] in
      (* switch *)
      if IsGasLimitReached err then
        (* break *)
        adoptLoop elapsed (S i) rest
          {| flow := flow'; txsToRemove := txsToRemove st;
             doneReceived := done'; adoptCalls := calls' |}
      else if IsTxNotAdoptableNow err then
        (* continue *)
        adoptLoop elapsed (S i) rest
          {| flow := flow'; txsToRemove := txsToRemove st;
             doneReceived := done'; adoptCalls := calls' |}
      else
        adoptLoop elapsed (S i) rest
          {| flow := flow'; txsToRemove := txsToRemove st ++ [t];
             doneReceived := done'; adoptCalls := calls' |}
  end.

(** The transactions a run of the loop adopted: the calls of [flow.Adopt]
    that returned no error. *)
Definition adopted `{Packer} (st : adopting) : list Transaction :=
  map fst (filter (fun c => snd c = None) (adoptCalls st)).

(** Whether the loop marks a candidate for removal from the pool, given the
    error [flow.Adopt] returned for it: the [default] branch of the switch
    appends to [txsToRemove], and so does an adoption without error. *)
Definition marked `{Packer} (c : Transaction * option Error) : bool :=
  negb (IsGasLimitReached (snd c)) && negb (IsTxNotAdoptableNow (snd c)).

(** What [packTxSetAndBlockSummary] leaves behind: the flow after the loop
    and the result of [flow.PackTxSetAndBlockSummary], the transactions the
    deferred function removes from the pool, and the calls of
    [flow.Adopt]. *)
Record packed `{Packer} (A : Type) : Type := {
  packedFlow : Flow;
  removedFromPool : list (Bytes32 * Bytes32);
  packedCalls : list (Transaction * option Error);
  packedResult : result A
}.
Arguments packedFlow {_ _} _.
Arguments removedFromPool {_ _} _.
Arguments packedCalls {_ _} _.
Arguments packedResult {_ _} _.

(** [packTxSetAndBlockSummary].  [seal] is
    [flow.PackTxSetAndBlockSummary(n.master.PrivateKey)]. *)
Definition packTxSetAndBlockSummary `{Packer} {A : Type}
    (seal : Flow -> result A) (elapsed : nat -> bool)
    (executables : list Transaction) (f : Flow) : packed A :=
  let st := adoptLoop elapsed 0 executables
              {| flow := f; txsToRemove := []; doneReceived := false;
                 adoptCalls := [] |} in
  {| packedFlow := flow st;
     removedFromPool := map (fun t => (tx_Hash t, tx_ID t)) (txsToRemove st);
     packedCalls := adoptCalls st;
     packedResult := seal (flow st) |}.

(** *** The endorsement case of [packerLoop] *)

(** What the loop reads of its flow. *)
Record FlowInfo : Type := {
  ParentHeaderID : Bytes32;
  When : Z
}.

(** The loop variables the case reads and writes. *)
Record LoopState : Type := {
  loopFlow : option FlowInfo;
  activated : bool
}.

(** What the collaborators answer while one endorsement is handled, each
    consulted at most once and in this order. *)
Record EndorsementEnv : Type := {
  bestID : Bytes32;                         (* n.chain.BestBlock().Header().ID() *)
  now : Z;                                  (* time.Now().Unix() *)
  validateErr : option Error;               (* n.cons.ValidateEndorsement *)
  addOk : bool;                             (* flow.AddEndoresement *)
  numOfEndorsements : Z;                    (* flow.NumOfEndorsements() *)
  packResult : result Bytes32;              (* flow.Pack: the new block's id *)
  stageCommitErr : option Error;            (* stage.Commit() *)
  commitBlockResult : result (Bytes32 * Bytes32)
                                            (* n.commitBlock: the head ids of
                                               prevTrunk and curTrunk *)
}.

(** What the case does to the outside. *)
Inductive Effect : Type :=
| debugLog (msg : string)
| errLog (msg : string) (err : Error)
| CommitBlock (id : Bytes32)
| ProcessFork (prev cur : Bytes32)
| display (id : Bytes32)
| BroadcastBlockHeader (id : Bytes32)
| BandwidthUpdate (id : Bytes32).

(** How the case ends: the loop goes on with the next event, or the
    process stops in a panic. *)
Inductive Outcome : Type :=
| Continue (st : LoopState) (effects : list Effect)
| Panic (msg : string) (err : Error) (effects : list Effect).

Definition reset : LoopState := {| loopFlow := None; activated := false |}.

(** [case ev := <-newEndorsementCh]. *)
Definition onEndorsement `{Params} (st : LoopState) (env : EndorsementEnv)
  : Outcome :=
  match loopFlow st with
  | None => Continue st []
  | Some fl =>
      if negb (activated st) then Continue st []
      else if negb (bool_decide (ParentHeaderID fl = bestID env)) then
        Continue reset [debugLog "re-schedule packer due to new best block"]
      else if now env <? When fl then Continue st []
      else if now env >? uint64 (When fl + BlockInterval) then Continue reset []
      else
        let e0 := [debugLog "<== ed"] in
        match validateErr env with
        | Some _ => Continue st (e0 ++ [debugLog "invalid ed"])
        | None =>
            let e1 := e0 ++ [debugLog (if addOk env then "Added ed"
                                       else "Failed to add ed")] in
            if uint64 (numOfEndorsements env) <? CommitteeSize
            then Continue st e1
            else
              let e2 := e1 ++ [debugLog "Packing new header"] in
              match packResult env with
              | Err err =>
                  Continue {| loopFlow := None; activated := activated st |}
                           (e2 ++ [errLog "PackBlockHeader" err])
              | Ok newBlock =>
                  (* reset flow *)
                  let e3 := e2 ++ [debugLog "Committing new block"] in
                  let e4 := match stageCommitErr env with
                            | Some err => e3 ++ [errLog "commit state" err]
                            | None => e3
                            end in
                  match commitBlockResult env with
                  | Err err => Panic "commit block" err e4
                  | Ok (prevTrunk, curTrunk) =>
                      let e5 := e4 ++ [CommitBlock newBlock;
                                       ProcessFork prevTrunk curTrunk] in
                      let e6 := if negb (bool_decide (prevTrunk = curTrunk))
                                then e5 ++ [display newBlock; debugLog "hd ==>";
                                            BroadcastBlockHeader newBlock]
                                else e5 in
                      Continue reset (e6 ++ [BandwidthUpdate newBlock])
                  end
              end
        end
  end.

(** *** The ticker case and the block-summary case of [packerLoop] *)

(** The loop variables the two cases read and write: those of the
    endorsement case and [lbs], the local copy of the latest block summary
    (a summary is named by its id). *)
Record PackerState : Type := {
  loop : LoopState;
  lbs : option Bytes32
}.

(** What the two cases do to the outside. *)
Inductive Sent : Type :=
| sentDebug (msg : string)
| sentErr (msg : string) (err : Error)
| BroadcastBlockSummary (bs : Bytes32)
| BroadcastTxSet (ts : Bytes32)
| BroadcastEndorsement (bs : Bytes32).

(** What the collaborators answer during one tick, each consulted at most
    once and in this order. *)
Record TickEnv : Type := {
  tickBestID : Bytes32;                     (* n.repo.BestBlock().Header().ID() *)
  tickNow : Z;                              (* time.Now().Unix() *)
  scheduleResult : result FlowInfo;         (* n.packer.Schedule; an error
                                               comes with a nil flow *)
  packSummaryResult : result (Bytes32 * option Bytes32);
                                            (* n.packTxSetAndBlockSummary: the
                                               summary and, unless it is
                                               empty, the tx set *)
  tickIsCommittee : bool * option Error;    (* n.cons.IsCommittee *)
  tickSignErr : option Error;               (* crypto.Sign *)
  tickAddOk : bool                          (* flow.AddEndoresement *)
}.

Definition withLoop (st : PackerState) (fl : option FlowInfo) (act : bool)
  : PackerState :=
  {| loop := {| loopFlow := fl; activated := act |}; lbs := lbs st |}.

(** [case <-ticker.C]. *)
Definition onTick `{Params} (st : PackerState) (env : TickEnv)
  : PackerState * list Sent :=
  let act := activated (loop st) in
  match loopFlow (loop st), act with
  | Some _, true => (st, [])
  | fl0, _ =>
      (* Schedule a round to be the leader *)
      let scheduled :=
        match fl0 with
        | Some fl => Ok fl
        | None => scheduleResult env
        end in
      match scheduled with
      | Err err => (withLoop st None act, [sentErr "Schedule" err])
      | Ok fl =>
          if negb (bool_decide (ParentHeaderID fl = tickBestID env)) then
            (withLoop st None act,
             [sentDebug "re-schedule packer due to new best block"])
          else if tickNow env <? When fl then (withLoop st (Some fl) act, [])
          else if tickNow env >? uint64 (When fl + BlockInterval)
          then (withLoop st None false, [])
          else
            match packSummaryResult env with
            | Err err =>
                (withLoop st None false, [sentErr "packTxSetAndBlockSummary" err])
            | Ok (bs, ts) =>
                let st1 := {| loop := {| loopFlow := Some fl; activated := true |};
                              lbs := Some bs |} in
                let e1 := [sentDebug "bs ==>"; BroadcastBlockSummary bs]
                          ++ match ts with
                             | Some t => [sentDebug "ts ==>"; BroadcastTxSet t]
                             | None => []
                             end in
                match tickIsCommittee env with
                | (_, Some err) => (st1, e1 ++ [sentErr "IsCommittee" err])
                | (false, None) => (st1, e1)
                | (true, None) =>
                    match tickSignErr env with
                    | Some err => (st1, e1 ++ [sentErr "Signing endorsement" err])
                    | None =>
                        if tickAddOk env
                        then (st1, e1 ++ [sentDebug "Added ed"; sentDebug "ed ==>";
                                          BroadcastEndorsement bs])
                        else (st1, e1 ++ [sentDebug "Failed to add ed"])
                    end
                end
            end
      end
  end.

(** What the collaborators answer while one incoming block summary is
    handled.  [validateSummary] is [n.cons.ValidateBlockSummary] for the best
    block and the time of this event. *)
Record SummaryEnv : Type := {
  incoming : Bytes32;                         (* ev.Summary *)
  validateSummary : Bytes32 -> option Error;
  sumIsCommittee : bool * option Error;       (* n.cons.IsCommittee *)
  sumSignErr : option Error                   (* crypto.Sign *)
}.

(** [case ev := <-newBlockSummaryCh]. *)
Definition onBlockSummary (st : PackerState) (env : SummaryEnv)
  : PackerState * list Sent :=
  (* Only receive one block summary from the same leader once in the same round *)
  let stillValid :=
    match lbs st with
    | Some l => match validateSummary env l with None => true | Some _ => false end
    | None => false
    end in
  if stillValid then (st, [])
  else
    let bs := incoming env in
    let e0 := [sentDebug "<== bs"] in
    match validateSummary env bs with
    | Some err =>
        ({| loop := loop st; lbs := None |}, e0 ++ [sentErr "ValidateBlockSummary" err])
    | None =>
        let st1 := {| loop := loop st; lbs := Some bs |} in
        match sumIsCommittee env with
        | (_, Some err) => (st1, e0 ++ [sentErr "IsCommittee" err])
        | (false, None) => (st1, e0)
        | (true, None) =>
            match sumSignErr env with
            | Some err => (st1, e0 ++ [sentErr "Signing endorsement" err])
            | None => (st1, e0 ++ [sentDebug "ed ==>"; BroadcastEndorsement bs])
            end
        end
    end.

End node.

(** ** Concrete collaborators and data for the examples *)

Module examples.
Import thor block.

(** Constants in the range of the tests: 101 proposers, a committee of
    two, block interval 10, ten rounds per epoch. *)
Definition params : Params :=
  {| MaxBlockProposers := 101; CommitteeSize := 2;
     CommitteeThresholdFactor := 2; BlockInterval := 10;
     EpochInterval := 10 |}.

(** The same constants with a committee of three. *)
Definition widerParams : Params :=
  {| MaxBlockProposers := 101; CommitteeSize := 3;
     CommitteeThresholdFactor := 2; BlockInterval := 10;
     EpochInterval := 10 |}.

(** Block numbers as ids carry them: the big-endian [uint32] of the first
    four bytes. *)
Definition numbering : Numbering :=
  {| Number := fun id => default 0 (binary.BigEndian_Uint32 (Bytes id)) |}.

(** An id from a block number and the low bytes of a hash. *)
Definition mkID (number tail : Z) : Bytes32 := number * 2 ^ 224 + tail.

(** A stand-in for the two cryptographic services: key 0 cannot prove, the
    proof of a seed under any other key is the seed's bytes, and every
    input hashes to the 32-byte value [h]. *)
Definition crypto (h : Z) : consensus.Crypto :=
  {| consensus.PrivateKey := Z;
     consensus.Proof := list Z;
     consensus.ProofBytes := fun p => p;
     consensus.Prove := fun sk seed =>
       if sk =? 0 then Err (errOther "vrf: invalid key") else Ok seed;
     consensus.Blake2b := fun _ => h mod 2 ^ 256;
     consensus.Blake2b_range := fun _ => Z.mod_pos_bound h (2 ^ 256) eq_refl |}.

(** A store on which no save fails. *)
Definition persist : chain.Persist :=
  {| chain.saveErr := fun _ => None; chain.putErr := fun _ _ _ => None |}.

(** A store on which saving a block summary fails and every other save
    succeeds. *)
Definition summarySaveFails : chain.Persist :=
  {| chain.saveErr := fun k =>
       match k with
       | chain.summaryKey _ => Some (errOther "encode failed")
       | _ => None
       end;
     chain.putErr := fun _ _ _ => None |}.

(** A genesis block and a small fork:
<<
    g -- b1 -- b2
     \
      c1
>>
    [b1] carries one transaction and its receipt. *)
Definition mkHeader (id parent : Bytes32) (ts : Z) : Header :=
  {| ID := id; ParentID := parent; Timestamp := ts;
     NV := zero32; PP := zero32; PC := zero32; CM := zero32 |}.

Definition gID : Bytes32 := mkID 0 1.
Definition b1ID : Bytes32 := mkID 1 2.
Definition b2ID : Bytes32 := mkID 2 3.
Definition c1ID : Bytes32 := mkID 1 4.

Definition g : Block :=
  {| header := mkHeader gID (mkID (2 ^ 32 - 1) 0) 1000;
     Transactions := []; BackerSignatures := []; Size := 100 |}.

Definition t1 : Transaction := {| tx_ID := 11; tx_Hash := 12; tx_Gas := 21000 |}.

Definition b1 : Block :=
  {| header := mkHeader b1ID gID 1010;
     Transactions := [t1]; BackerSignatures := [1; 2]; Size := 200 |}.

Definition b2 : Block :=
  {| header := mkHeader b2ID b1ID 1020;
     Transactions := []; BackerSignatures := [2; 3]; Size := 100 |}.

Definition c1 : Block :=
  {| header := mkHeader c1ID gID 1011;
     Transactions := []; BackerSignatures := [4]; Size := 100 |}.

Definition emptyRepository : chain.Repository :=
  {| chain.data := chain.emptyStore; chain.props := chain.emptyStore;
     chain.genesis := g; chain.best := None; chain.tag := 0;
     chain.tick := O; chain.caches := chain.newCaches |}.

(** The repository of the genesis block alone. *)
Definition repo0 : chain.Repository :=
  match @chain.NewRepository numbering persist chain.emptyStore chain.emptyStore g with
  | Ok r => r
  | Err _ => emptyRepository
  end.

Definition addBlock (r : chain.Repository) (b : Block) (rcs : list Receipt)
  : chain.Repository :=
  fst (@chain.AddBlock numbering persist r b rcs).

Definition repo1 : chain.Repository := addBlock repo0 b1 [77].
Definition repo2 : chain.Repository := addBlock repo1 b2 [].
Definition repo3 : chain.Repository := addBlock repo2 c1 [].

(** [repo3] with [b2] made the best block. *)
Definition repo4 : chain.Repository :=
  fst (@chain.SetBestBlockID persist repo3 b2ID).

(** Another genesis block. *)
Definition otherGenesis : Block :=
  {| header := mkHeader (mkID 0 9) (mkID (2 ^ 32 - 1) 0) 1000;
     Transactions := []; BackerSignatures := []; Size := 100 |}.

(** The database of [repo1] after a restart, with the record of [b1]'s
    summary unreadable: the caches are empty again, and reading that record
    fails with a storage error. *)
Definition damaged (st : chain.Store) (k : chain.Key) : chain.Store :=
  {| chain.commits := chain.commits st;
     chain.unreadable := k :: chain.unreadable st |}.

Definition reopened : chain.Repository :=
  match @chain.NewRepository numbering persist
          (damaged (chain.data repo1) (chain.summaryKey b1ID))
          (chain.props repo1) g with
  | Ok r => r
  | Err _ => emptyRepository
  end.

(** Modelled from the spec: [flow.Adopt] is not part of the sources at hand.
    It attempts to add the transaction to the block within the remaining
    gas budget: a transaction that asks for more gas than is left reports
    the gas-limit-reached condition, one that is not adoptable now (here:
    one that asks for no gas) reports that, and any other transaction is
    adopted and its gas taken from the budget.  A flow is the gas left and
    the transactions adopted so far. *)
Definition errGasLimitReached : Error := errOther "gas limit reached".
Definition errTxNotAdoptableNow : Error := errOther "tx not adoptable now".

Definition isError (e : Error) (err : option Error) : bool :=
  match err, e with
  | Some (errOther m), errOther m' => bool_decide (m = m')
  | _, _ => false
  end.

Definition packer : node.Packer :=
  {| node.Flow := Z * list Transaction;
     node.Adopt := fun f t =>
       if tx_Gas t =? 0 then (f, Some errTxNotAdoptableNow)
       else if f.1 <? tx_Gas t then (f, Some errGasLimitReached)
       else ((f.1 - tx_Gas t, f.2 ++ [t]), None);
     node.IsGasLimitReached := isError errGasLimitReached;
     node.IsTxNotAdoptableNow := isError errTxNotAdoptableNow |}.

(** Two candidates for a block with 50000 gas left: the first asks for
    more than that, the second fits. *)
Definition bigTx : Transaction := {| tx_ID := 21; tx_Hash := 22; tx_Gas := 60000 |}.
Definition smallTx : Transaction := {| tx_ID := 31; tx_Hash := 32; tx_Gas := 21000 |}.

(** The loop variables at the start, with 50000 gas left. *)
Definition start : @node.adopting packer :=
  @node.Build_adopting packer (50000, []) [] false [].

(** The timer that has fired before the loop starts, and the one that
    never fires. *)
Definition elapsedAtOnce : nat -> bool := fun _ => true.
Definition neverElapsed : nat -> bool := fun _ => false.

(** A leader's loop state in its round, with quorum reached and a block
    packed; committing the staged state fails, committing the block
    succeeds. *)
Definition activeState : node.LoopState :=
  {| node.loopFlow := Some {| node.ParentHeaderID := gID; node.When := 1010 |};
     node.activated := true |}.

Definition commitStateFails : node.EndorsementEnv :=
  {| node.bestID := gID; node.now := 1012; node.validateErr := None;
     node.addOk := true; node.numOfEndorsements := 2;
     node.packResult := Ok b1ID;
     node.stageCommitErr := Some (errOther "disk full");
     node.commitBlockResult := Ok (gID, b1ID) |}.

(** A branch-head table for the fork g -- b1 -- b2, g -- c1: the two tips,
    and an id that is not stored. *)
Definition branchHeads : chain.BranchHeads :=
  {| chain.loadBranchHeads := fun _ _ => [b2ID; c1ID; mkID 7 7] |}.

(** A tick in the leader's round: the flow is scheduled on the best block,
    the summary [b1ID] is packed with an empty tx set, and the node is a
    committee member whose endorsement is accepted. *)
Definition idleState : node.PackerState :=
  {| node.loop := {| node.loopFlow := None; node.activated := false |};
     node.lbs := None |}.

Definition leaderTick : node.TickEnv :=
  {| node.tickBestID := gID; node.tickNow := 1012;
     node.scheduleResult := Ok {| node.ParentHeaderID := gID; node.When := 1010 |};
     node.packSummaryResult := Ok (b1ID, None);
     node.tickIsCommittee := (true, None);
     node.tickSignErr := None;
     node.tickAddOk := true |}.

(** The quorum is reached and packing the block fails. *)
Definition packFails : node.EndorsementEnv :=
  {| node.bestID := gID; node.now := 1012; node.validateErr := None;
     node.addOk := true; node.numOfEndorsements := 2;
     node.packResult := Err (errOther "sign failed");
     node.stageCommitErr := None;
     node.commitBlockResult := Ok (gID, gID) |}.

(** A tick ahead of the next scheduled round. *)
Definition earlyTick : node.TickEnv :=
  {| node.tickBestID := gID; node.tickNow := 1013;
     node.scheduleResult := Ok {| node.ParentHeaderID := gID; node.When := 1030 |};
     node.packSummaryResult := Ok (b1ID, None);
     node.tickIsCommittee := (true, None);
     node.tickSignErr := None;
     node.tickAddOk := true |}.

(** An incoming summary that validates, for a committee member. *)
Definition validSummary : node.SummaryEnv :=
  {| node.incoming := b1ID;
     node.validateSummary := fun bs =>
       if bool_decide (bs = b1ID) then None else Some (errOther "invalid parent");
     node.sumIsCommittee := (true, None);
     node.sumSignErr := None |}.

End examples.

(** * Properties *)

(** ** Committee election *)

Section BigEndian.
Import thor binary.

Lemma testbit_255 (m : Z) : Z.testbit 255 m = (0 <=? m) && (m <? 8).
Proof.
  change 255 with (Z.ones 8).
  destruct (Z.leb_spec 0 m) as [Hm | Hm].
  - rewrite Z.testbit_ones by lia.
    rewrite (proj2 (Z.leb_le 0 m)) by lia. reflexivity.
  - rewrite Z.testbit_neg_r by lia. reflexivity.
Qed.

Lemma testbit_above (h k m : Z) :
  0 <= h < 2 ^ k -> 0 <= k <= m -> Z.testbit h m = false.
Proof.
  intros [H0 Hk] Hm.
  destruct (Z.eq_dec h 0) as [-> | Hne]; [apply Z.bits_0 |].
  apply Z.bits_above_log2; [lia |].
  assert (Z.log2 h < k) by (apply Z.log2_lt_pow2; lia). lia.
Qed.

Lemma byteAt_testbit (h : Bytes32) (i : nat) (m : Z) :
  Z.testbit (byteAt h i) m
  = Z.testbit h (m + 8 * (31 - Z.of_nat i)) && ((0 <=? m) && (m <? 8)).
Proof.
  unfold byteAt. rewrite Z.land_spec, testbit_255.
  destruct (Z.leb_spec 0 m) as [Hm | Hm].
  - rewrite Z.shiftr_spec by lia. reflexivity.
  - rewrite (Z.testbit_neg_r _ m) by lia. simpl. rewrite andb_false_r. reflexivity.
Qed.

Lemma Bytes_length (h : Bytes32) : length (Bytes h) = 32%nat.
Proof. reflexivity. Qed.

(** Of the 32 bytes of a hash, [BigEndian.Uint64] reads the first eight:
    the leading 64 bits of the 256-bit value. *)
Lemma BigEndian_Uint64_Bytes (h : Bytes32) :
  IsBytes32 h -> BigEndian_Uint64 (Bytes h) = Some (h / 2 ^ 192).
Proof.
  intros Hh. unfold Bytes.
  change (seq 0 32) with
    (0 :: 1 :: 2 :: 3 :: 4 :: 5 :: 6 :: 7 :: seq 8 24)%nat.
  cbn [map BigEndian_Uint64]. f_equal.
  rewrite <- Z.shiftr_div_pow2 by lia.
  apply Z.bits_inj'. intros n Hn.
  rewrite !Z.lor_spec, !Z.shiftl_spec by lia.
  rewrite !byteAt_testbit, Z.shiftr_spec by lia.
  change (Z.of_nat 0) with 0; change (Z.of_nat 1) with 1;
    change (Z.of_nat 2) with 2; change (Z.of_nat 3) with 3;
    change (Z.of_nat 4) with 4; change (Z.of_nat 5) with 5;
    change (Z.of_nat 6) with 6; change (Z.of_nat 7) with 7.
  assert (Hcase : n < 8 \/ 8 <= n < 16 \/ 16 <= n < 24 \/ 24 <= n < 32 \/
                  32 <= n < 40 \/ 40 <= n < 48 \/ 48 <= n < 56 \/
                  56 <= n < 64 \/ 64 <= n) by lia.
  assert (Hhi : 64 <= n -> Z.testbit h (n + 192) = false).
  { intros Hge. apply (testbit_above h 256); [exact Hh | lia]. }
  repeat match goal with
         | |- context [Z.testbit h ?e] =>
             progress replace e with (n + 192) by lia
         end.
  destruct Hcase as [H|[H|[H|[H|[H|[H|[H|[H|H]]]]]]]];
    repeat match goal with
           | |- context [?a <=? ?b] =>
               first [ rewrite (proj2 (Z.leb_le a b)) by lia
                     | rewrite (proj2 (Z.leb_gt a b)) by lia ]
           | |- context [?a <? ?b] =>
               first [ rewrite (proj2 (Z.ltb_lt a b)) by lia
                     | rewrite (proj2 (Z.ltb_ge a b)) by lia ]
           end;
    try rewrite (Hhi H);
    destruct (Z.testbit h (n + 192)); reflexivity.
Qed.

End BigEndian.

Section Committee.
Import thor binary consensus.
Context {P : Params} {C : Crypto}.

(** The threshold is the plain product as long as it fits 64 bits. *)
Lemma getCommitteeThreshold_exact :
  0 < MaxBlockProposers -> 0 <= CommitteeSize -> 0 <= CommitteeThresholdFactor ->
  MaxUint32 / MaxBlockProposers * CommitteeSize * CommitteeThresholdFactor < 2 ^ 64 ->
  getCommitteeThreshold
  = MaxUint32 / MaxBlockProposers * CommitteeSize * CommitteeThresholdFactor.
Proof.
  intros Hn Hc Hf Hfit. unfold getCommitteeThreshold, uint64, wrap.
  assert (Hq : 0 <= MaxUint32 / MaxBlockProposers)
    by (apply Z.div_pos; [unfold MaxUint32 |]; lia).
  rewrite (Z.mod_small MaxUint32) by (unfold MaxUint32; lia).
  set (q := MaxUint32 / MaxBlockProposers) in *.
  destruct (Z.eq_dec CommitteeThresholdFactor 0) as [Hz | Hnz].
  - rewrite Hz, !Z.mul_0_r. reflexivity.
  - assert (Hqc : 0 <= q * CommitteeSize) by nia.
    assert (q * CommitteeSize < 2 ^ 64) by nia.
    rewrite (Z.mod_small (q * CommitteeSize)) by lia.
    apply Z.mod_small. nia.
Qed.

(** The error of the VRF is passed on, with no proof. *)
Lemma IsCommittee_prove_error (sk : PrivateKey) (seed : Bytes32) (err : Error) :
  Prove sk (Bytes seed) = Err err -> IsCommittee sk seed = (None, Some err).
Proof. intros Hp. unfold IsCommittee. rewrite Hp. reflexivity. Qed.

(** C3, as amended: when the VRF returns a proof, [IsCommittee] returns that
    proof exactly when the first eight bytes of Blake2b(proof), read as a
    big-endian uint64 (the leading 64 bits of the hash), are at most
    T = floor(MaxUint32 / MaxBlockProposers) * CommitteeSize *
    CommitteeThresholdFactor; when they exceed T it returns no proof and no
    error. *)
Theorem IsCommittee_threshold (sk : PrivateKey) (seed : Bytes32) (proof : Proof) :
  0 < MaxBlockProposers -> 0 <= CommitteeSize -> 0 <= CommitteeThresholdFactor ->
  MaxUint32 / MaxBlockProposers * CommitteeSize * CommitteeThresholdFactor < 2 ^ 64 ->
  Prove sk (Bytes seed) = Ok proof ->
  let T := MaxUint32 / MaxBlockProposers * CommitteeSize * CommitteeThresholdFactor in
  let h := Blake2b (ProofBytes proof) in
  BigEndian_Uint64 (Bytes h) = Some (h / 2 ^ 192) /\
  (IsCommittee sk seed = (Some proof, None) <-> h / 2 ^ 192 <= T) /\
  (T < h / 2 ^ 192 -> IsCommittee sk seed = (None, None)).
Proof.
  intros Hn Hc Hf Hfit Hp T h.
  assert (Hread : BigEndian_Uint64 (Bytes h) = Some (h / 2 ^ 192))
    by (apply BigEndian_Uint64_Bytes, Blake2b_range).
  split; [exact Hread |].
  unfold IsCommittee. rewrite Hp. fold h. rewrite Hread.
  rewrite getCommitteeThreshold_exact by assumption. fold T.
  destruct (Z.leb_spec (h / 2 ^ 192) T) as [Hle | Hgt].
  - split; [tauto | lia].
  - split; [| reflexivity]. split; [discriminate | lia].
Qed.

End Committee.

(** The witness of [IsCommittee_threshold]: under the stand-in hash 2^255 + 1
    the leading 64 bits exceed the threshold and no proof is returned. *)
Lemma IsCommittee_threshold_witness :
  @consensus.IsCommittee examples.params (examples.crypto (2 ^ 255 + 1)) 7 5
  = (None, None).
Proof.
  refine (proj2 (proj2 (@IsCommittee_threshold examples.params
            (examples.crypto (2 ^ 255 + 1)) 7 5 (thor.Bytes 5) _ _ _ _ _)) _);
    vm_compute; congruence.
Defined.

(** C3 as stated fails: with a hash whose first eight bytes are zero and whose
    later bytes are not, [IsCommittee] returns the proof although the hash,
    read as one big-endian integer, exceeds the threshold. *)
Lemma IsCommittee_whole_hash_counterexample :
  let P := examples.params in
  let C := examples.crypto (2 ^ 100) in
  let T := thor.MaxUint32 / 101 * 2 * 2 in
  @consensus.getCommitteeThreshold P = T /\
  @consensus.IsCommittee P C 7 5 = (Some (thor.Bytes 5), None) /\
  T < binary.BigEndian_value
        (thor.Bytes (@consensus.Blake2b C (@consensus.ProofBytes C (thor.Bytes 5)))).
Proof. vm_compute. repeat split; congruence. Qed.

(** ** The repository: what a block's batch writes *)

Section SaveBlock.
Import thor block chain.
Context {N : Numbering} {S : Persist}.

Lemma lookupKV_app (k : Key) (l1 l2 : list (Key * Value)) :
  lookupKV k (l1 ++ l2)
  = match lookupKV k l1 with Some v => Some v | None => lookupKV k l2 end.
Proof.
  induction l1 as [| [k' v] l1 IH]; simpl; [reflexivity |].
  destruct (decide (k' = k)); [reflexivity | exact IH].
Qed.

Lemma lookupKV_absent (k : Key) (l : list (Key * Value)) :
  Forall (fun kv => kv.1 <> k) l -> lookupKV k l = None.
Proof.
  induction 1 as [| [k' v] l Hne _ IH]; simpl; [reflexivity |].
  destruct (decide (k' = k)); [contradiction | exact IH].
Qed.

Lemma txRecords_keys (l : list Transaction) (key : txKey) (i : Z) :
  Forall (fun kv => blockRecordKey (key_id key) kv.1) (txRecords key i l).
Proof.
  revert key i. induction l as [| t l IH]; intros key i; simpl; constructor.
  - split; [reflexivity | discriminate].
  - exact (IH (SetIndex key i) (i + 1)).
Qed.

Lemma receiptRecords_keys (l : list Receipt) (key : txKey) (i : Z) :
  Forall (fun kv => blockRecordKey (key_id key) kv.1) (receiptRecords key i l).
Proof.
  revert key i. induction l as [| t l IH]; intros key i; simpl; constructor.
  - split; [reflexivity | discriminate].
  - exact (IH (SetIndex key i) (i + 1)).
Qed.

Lemma blockRecords_keys (blk : Block) (rcs : list Receipt) (root : gmap Z Z) :
  Forall (fun kv => blockRecordKey (ID (header blk)) kv.1)
         (blockRecords blk rcs root).
Proof.
  unfold blockRecords. apply Forall_app. split.
  - destruct (0 <? Z.of_nat (length (Transactions blk))); [| constructor].
    apply Forall_app. split.
    + apply (txRecords_keys _ (makeTxKey (ID (header blk)) txInfix)).
    + apply (receiptRecords_keys _ (makeTxKey (ID (header blk)) receiptInfix)).
  - repeat constructor; discriminate.
Qed.

(** The loop over the transactions: it never touches the summary cache,
    and when it ends without error it has put one record per transaction
    and collected the transaction ids. *)
Lemma saveTransactions_spec (l : list Transaction) :
  forall key i st st' e,
    saveTransactions key i l st = (st', e) ->
    summaries (cached st') = summaries (cached st) /\
    (e = None ->
     putter st' = rev (txRecords key i l) ++ putter st /\
     summary_txs st' = summary_txs st ++ map tx_ID l).
Proof.
  induction l as [| t l IH]; intros key i st st' e Hrun; simpl in Hrun.
  - inversion Hrun; subst. split; [reflexivity |]. intros _.
    split; [reflexivity | symmetry; apply app_nil_r].
  - unfold save in Hrun.
    destruct (saveErr (recordKey (SetIndex key i))) as [err |].
    + inversion Hrun; subst. split; [reflexivity | discriminate].
    + apply IH in Hrun. destruct Hrun as [Hc Hok]. simpl in Hc.
      split; [exact Hc |]. intros He. destruct (Hok He) as [Hp Ht].
      simpl in Hp, Ht. split.
      * rewrite Hp. simpl. rewrite <- app_assoc. reflexivity.
      * rewrite Ht. simpl. rewrite <- app_assoc. reflexivity.
Qed.

Lemma saveReceipts_spec (l : list Receipt) :
  forall key i st st' e,
    saveReceipts key i l st = (st', e) ->
    summaries (cached st') = summaries (cached st) /\
    summary_txs st' = summary_txs st /\
    (e = None -> putter st' = rev (receiptRecords key i l) ++ putter st).
Proof.
  induction l as [| rc l IH]; intros key i st st' e Hrun; simpl in Hrun.
  - inversion Hrun; subst. repeat split; reflexivity.
  - unfold save in Hrun.
    destruct (saveErr (recordKey (SetIndex key i))) as [err |].
    + inversion Hrun; subst. repeat split; try reflexivity. discriminate.
    + apply IH in Hrun. destruct Hrun as (Hc & Ht & Hok). simpl in Hc, Ht.
      repeat split; [exact Hc | exact Ht |]. intros He.
      rewrite (Hok He). simpl. rewrite <- app_assoc. reflexivity.
Qed.

(** The body of the batch: on success the puts are exactly the block's
    records and the summary cache has gained the block's summary; on an
    error the summary cache is as before. *)
Lemma saveBlockBatch_spec (c c' : Caches) (blk : Block) (rcs : list Receipt)
    (root : gmap Z Z) (res : result (list (Key * Value))) :
  saveBlockBatch c blk rcs root = (c', res) ->
  match res with
  | Ok puts =>
      puts = rev (blockRecords blk rcs root) /\
      summaries c' = <[ID (header blk) := summaryOf blk root]> (summaries c)
  | Err _ => summaries c' = summaries c
  end.
Proof.
  unfold saveBlockBatch, blockRecords.
  set (id := ID (header blk)).
  set (st0 := {| putter := []; cached := c; summary_txs := [] |}).
  destruct (0 <? Z.of_nat (length (Transactions blk))) eqn:Hn.
  - destruct (saveTransactions (makeTxKey id txInfix) 0 (Transactions blk) st0)
      as [st1 e1] eqn:Htx.
    apply saveTransactions_spec in Htx. destruct Htx as [Hc1 Hok1].
    destruct e1 as [err |].
    { intros Hrun. inversion Hrun; subst. exact Hc1. }
    destruct (Hok1 eq_refl) as [Hp1 Ht1]. simpl in Hp1, Ht1.
    destruct (saveReceipts (makeTxKey id receiptInfix) 0 rcs st1)
      as [st2 e2] eqn:Hrc.
    apply saveReceipts_spec in Hrc. destruct Hrc as (Hc2 & Ht2 & Hok2).
    destruct e2 as [err |].
    { intros Hrun. inversion Hrun; subst. rewrite Hc2. exact Hc1. }
    specialize (Hok2 eq_refl). unfold save.
    destruct (saveErr (bssKey id)) as [err |].
    { intros Hrun. inversion Hrun; subst. rewrite Hc2. exact Hc1. }
    destruct (saveErr (summaryKey id)) as [err |].
    { intros Hrun. inversion Hrun; subst. simpl. rewrite Hc2. exact Hc1. }
    intros Hrun. inversion Hrun; subst. simpl. split.
    + rewrite Hok2, Hp1, Ht2, Ht1. unfold summaryOf. simpl.
      rewrite !rev_app_distr. simpl. rewrite app_nil_r. reflexivity.
    + rewrite Hc2, Hc1, Ht2, Ht1. reflexivity.
  - unfold save.
    destruct (saveErr (bssKey id)) as [err |].
    { intros Hrun. inversion Hrun; subst. reflexivity. }
    destruct (saveErr (summaryKey id)) as [err |].
    { intros Hrun. inversion Hrun; subst. reflexivity. }
    intros Hrun. inversion Hrun; subst. simpl.
    assert (Hnil : Transactions blk = []).
    { destruct (Transactions blk); [reflexivity |].
      simpl in Hn. apply Z.ltb_ge in Hn. lia. }
    unfold summaryOf. rewrite Hnil. split; reflexivity.
Qed.

(** When no save of a record of the block fails, the body succeeds. *)
Lemma saveTransactions_ok (l : list Transaction) :
  forall key i st,
    Forall (fun kv => saveErr kv.1 = None) (txRecords key i l) ->
    exists st', saveTransactions key i l st = (st', None).
Proof.
  induction l as [| t l IH]; intros key i st Hall; simpl.
  - eexists; reflexivity.
  - inversion Hall as [| ? ? Hk Hrest]; subst. simpl in Hk.
    unfold save. rewrite Hk. apply IH. exact Hrest.
Qed.

Lemma saveReceipts_ok (l : list Receipt) :
  forall key i st,
    Forall (fun kv => saveErr kv.1 = None) (receiptRecords key i l) ->
    exists st', saveReceipts key i l st = (st', None).
Proof.
  induction l as [| t l IH]; intros key i st Hall; simpl.
  - eexists; reflexivity.
  - inversion Hall as [| ? ? Hk Hrest]; subst. simpl in Hk.
    unfold save. rewrite Hk. apply IH. exact Hrest.
Qed.

Lemma saveBlockBatch_ok (c : Caches) (blk : Block) (rcs : list Receipt)
    (root : gmap Z Z) :
  Forall (fun kv => saveErr kv.1 = None) (blockRecords blk rcs root) ->
  exists c', saveBlockBatch c blk rcs root = (c', Ok (rev (blockRecords blk rcs root))).
Proof.
  intros Hall.
  destruct (saveBlockBatch c blk rcs root) as [c' res] eqn:Hrun.
  pose proof (saveBlockBatch_spec _ _ _ _ _ _ Hrun) as Hspec.
  destruct res as [puts | err].
  - destruct Hspec as [-> _]. eexists; reflexivity.
  - exfalso. revert Hrun Hall. unfold saveBlockBatch, blockRecords.
    set (id := ID (header blk)).
    set (st0 := {| putter := []; cached := c; summary_txs := [] |}).
    intros Hrun Hall. apply Forall_app in Hall. destruct Hall as [Hloops Htail].
    inversion Htail as [| ? ? Hbss Htail']; subst.
    inversion Htail' as [| ? ? Hsum _]; subst. simpl in Hbss, Hsum.
    unfold save in Hrun. rewrite Hbss, Hsum in Hrun.
    destruct (0 <? Z.of_nat (length (Transactions blk))).
    + apply Forall_app in Hloops. destruct Hloops as [Htx Hrc].
      destruct (saveTransactions_ok _ _ _ st0 Htx) as [st1 H1].
      rewrite H1 in Hrun.
      destruct (saveReceipts_ok _ _ _ st1 Hrc) as [st2 H2].
      rewrite H2 in Hrun. discriminate Hrun.
    + discriminate Hrun.
Qed.

End SaveBlock.

Section AddBlockProofs.
Import thor block chain.
Context {N : Numbering} {S : Persist}.

Lemma Get_commit_other (st : Store) (puts : list (Key * Value)) (k : Key) :
  Forall (fun kv => kv.1 <> k) puts -> Get (commit st puts) k = Get st k.
Proof.
  intros Hk. unfold Get, commit. simpl.
  rewrite lookupKV_app, (lookupKV_absent _ _ Hk). reflexivity.
Qed.

Lemma Get_commit_here (st : Store) (puts : list (Key * Value)) (k : Key) (v : Value) :
  k ∉ unreadable st -> lookupKV k puts = Some v -> Get (commit st puts) k = Ok v.
Proof.
  intros Hr Hk. unfold Get, commit. simpl.
  destruct (decide (k ∈ unreadable st)); [contradiction |].
  rewrite lookupKV_app, Hk. reflexivity.
Qed.

Lemma keys_of_other_block (id : Bytes32) (k : Key) (l : list (Key * Value)) :
  Forall (fun kv => blockRecordKey id kv.1) l ->
  keyBlock k <> Some id ->
  Forall (fun kv => kv.1 <> k) l.
Proof.
  intros Hl Hk. eapply Forall_impl; [exact Hl |].
  intros [k' v] [Hk' _] Heq. simpl in Hk', Heq. subst k'. contradiction.
Qed.

Lemma keys_no_branch_head (id x : Bytes32) (l : list (Key * Value)) :
  Forall (fun kv => blockRecordKey id kv.1) l ->
  Forall (fun kv => kv.1 <> branchHeadKey x) l.
Proof.
  intros Hl. eapply Forall_impl; [exact Hl |].
  intros [k' v] [_ Hk']. exact (Hk' x).
Qed.

(** What [AddBlock] does to the repository: on success the summary cache
    gains the block's summary and the data store gains the block's batch
    and then the branch-head record; on an error the summary cache and the
    data store are as before. *)
Lemma AddBlock_cases (r r' : Repository) (newBlock : Block) (rcs : list Receipt)
    (res : option Error) :
  AddBlock r newBlock rcs = (r', res) ->
  let id := ID (header newBlock) in
  let parent := ParentID (header newBlock) in
  genesis r' = genesis r /\
  match res with
  | None =>
      exists ps, GetBlockSummary r parent = Ok ps /\
        let root := <[Number id := id]> (IndexRoot ps) in
        summaries (caches r') = <[id := summaryOf newBlock root]> (summaries (caches r)) /\
        data r' = Put (commit (data r) (rev (blockRecords newBlock rcs root)))
                      (branchHeadKey id)
                      (VBytes32 (if isBranchHead (data r) parent then parent else zero32))
  | Some _ =>
      summaries (caches r') = summaries (caches r) /\ data r' = data r
  end.
Proof.
  intros Hrun id parent. unfold AddBlock in Hrun. fold id parent in Hrun.
  destruct (GetBlockSummary r parent) as [ps | err] eqn:Hps.
  2:{ destruct (IsNotFound err); inversion Hrun; subst; repeat split. }
  unfold indexBlock, saveBlock in Hrun. fold id in Hrun.
  set (root := <[Number id := id]> (IndexRoot ps)) in *.
  destruct (saveBlockBatch (caches r) newBlock rcs root) as [c [puts | err]] eqn:Hb;
    apply saveBlockBatch_spec in Hb.
  2:{ inversion Hrun; subst. repeat split. exact Hb. }
  destruct Hb as [-> Hc]. simpl data in Hrun.
  assert (Hhead : isBranchHead (commit (data r) (rev (blockRecords newBlock rcs root))) parent
                  = isBranchHead (data r) parent).
  { unfold isBranchHead. rewrite Get_commit_other; [reflexivity |].
    apply Forall_rev. eapply keys_no_branch_head. apply blockRecords_keys. }
  rewrite Hhead in Hrun.
  destruct (isBranchHead (data r) parent); inversion Hrun; subst;
    (split; [reflexivity |]); exists ps; (split; [reflexivity |]);
    split; first [exact Hc | reflexivity].
Qed.

(** C4, as amended: when the parent's summary is not found, [AddBlock] fails
    with the parent-missing error and leaves the repository as it was, so no
    record of the block becomes observable.  When the parent is indexed and
    no save fails, [AddBlock] succeeds with two commits to the data store:
    first one batch with the block's transactions, receipts, backer
    signatures and summary (which holds the header), then, by a write of its
    own, the branch-head record.  Whenever [AddBlock] returns an error the
    data store is as before. *)
Theorem AddBlock_batch_then_branch_head (r : Repository) (newBlock : Block)
    (rcs : list Receipt) :
  let id := ID (header newBlock) in
  let parent := ParentID (header newBlock) in
  (forall err, GetBlockSummary r parent = Err err -> IsNotFound err = true ->
     AddBlock r newBlock rcs = (r, Some errParentMissing)) /\
  (forall ps, GetBlockSummary r parent = Ok ps ->
     let root := <[Number id := id]> (IndexRoot ps) in
     Forall (fun kv => saveErr kv.1 = None) (blockRecords newBlock rcs root) ->
     exists r', AddBlock r newBlock rcs = (r', None) /\
       GetBlockSummary r' id = Ok (summaryOf newBlock root) /\
       commits (data r')
       = [(branchHeadKey id,
           VBytes32 (if isBranchHead (data r) parent then parent else zero32))]
           :: rev (blockRecords newBlock rcs root)
           :: commits (data r)) /\
  (forall r' err, AddBlock r newBlock rcs = (r', Some err) -> data r' = data r).
Proof.
  intros id parent. split; [| split].
  - intros err Hps Hnf. unfold AddBlock. fold parent. rewrite Hps, Hnf. reflexivity.
  - intros ps Hps root Hall.
    destruct (AddBlock r newBlock rcs) as [r' res] eqn:Hrun.
    assert (Hres : res = None).
    { revert Hrun. unfold AddBlock. fold parent id. rewrite Hps.
      unfold indexBlock, saveBlock. fold id root.
      destruct (saveBlockBatch_ok (caches r) newBlock rcs root Hall) as [c' ->].
      destruct (isBranchHead _ parent); intros Hrun; inversion Hrun; reflexivity. }
    subst res. exists r'. split; [reflexivity |].
    apply AddBlock_cases in Hrun. destruct Hrun as (_ & ps' & Hps' & Hc & Hd).
    fold parent in Hps'. rewrite Hps in Hps'. inversion Hps'; subst ps'.
    fold id root in Hc, Hd. split.
    + unfold GetBlockSummary. rewrite Hc, lookup_insert_eq. reflexivity.
    + rewrite Hd. reflexivity.
  - intros r' err Hrun. apply AddBlock_cases in Hrun. tauto.
Qed.

End AddBlockProofs.

(** The witness of [AddBlock_batch_then_branch_head]: adding [b1], whose
    parent is the genesis block, to the repository of the genesis block. *)
Lemma AddBlock_batch_then_branch_head_witness :
  exists r', @chain.AddBlock examples.numbering examples.persist
               examples.repo0 examples.b1 [77] = (r', None).
Proof.
  destruct (proj1 (proj2 (@AddBlock_batch_then_branch_head
              examples.numbering examples.persist examples.repo0 examples.b1 [77]))
              (chain.summaryOf examples.g (<[0 := examples.gID]> ∅)))
    as [r' [Hadd _]].
  - vm_compute. reflexivity.
  - vm_compute. repeat constructor.
  - exists r'. exact Hadd.
Defined.

(** C4 as stated fails for the branch head: after [AddBlock] has added [b1],
    the data store has two new commits, and the store as it stood between
    them already holds the block's summary but no branch-head record. *)
Lemma AddBlock_branch_head_counterexample :
  let res := @chain.AddBlock examples.numbering examples.persist
               examples.repo0 examples.b1 [77] in
  let between := chain.rewind 1 (chain.data (fst res)) in
  snd res = None /\
  length (chain.commits (chain.data (fst res)))
  = S (S (length (chain.commits (chain.data examples.repo0)))) /\
  (exists s, chain.loadBlockSummary between examples.b1ID = Ok s) /\
  chain.isBranchHead between examples.b1ID = false /\
  chain.isBranchHead (chain.data (fst res)) examples.b1ID = true.
Proof.
  vm_compute. repeat split; try reflexivity. eexists. reflexivity.
Qed.

(** When a save fails inside the batch, nothing of the batch reaches the data
    store, but the caches keep what the body added before the failure: here
    saving the summary of [b1] fails, [AddBlock] returns the error, the block
    has no summary, and its backer signatures are served from the cache. *)
Remark AddBlock_failed_batch_leaves_cache :
  let res := @chain.AddBlock examples.numbering examples.summarySaveFails
               examples.repo0 examples.b1 [77] in
  snd res = Some (errOther "encode failed") /\
  chain.data (fst res) = chain.data examples.repo0 /\
  chain.GetBlockSummary (fst res) examples.b1ID = Err errDBNotFound /\
  chain.GetBlockBackerSignatures (fst res) examples.b1ID = Ok [1; 2] /\
  chain.GetBlockBackerSignatures examples.repo0 examples.b1ID = Ok [].
Proof. vm_compute. repeat split; reflexivity. Qed.

(** ** The repository: stored summaries and their index *)

Section Summaries.
Import thor block chain.
Context {N : Numbering} {S : Persist}.

(** The invariant only depends on what [GetBlockSummary] answers. *)
Lemma RepoInv_ext (r r' : Repository) :
  genesis r' = genesis r ->
  (forall id, GetBlockSummary r' id = GetBlockSummary r id) ->
  RepoInv r -> RepoInv r'.
Proof.
  intros Hg Hget (Hn & (gs & Hgs & Hroot) & Hall). unfold RepoInv.
  rewrite Hg. split; [exact Hn |]. split.
  - exists gs. rewrite Hget. split; assumption.
  - intros id s Hs. rewrite Hget in Hs.
    destruct (Hall id s Hs) as (Hid & Hpos & Hparent).
    repeat split; try assumption.
    intros Hne. destruct (Hparent Hne) as (ps & Hps & Hrest).
    exists ps. rewrite Hget. split; assumption.
Qed.

Lemma GetBlockSummary_same (r r' : Repository) :
  summaries (caches r') = summaries (caches r) -> data r' = data r ->
  forall id, GetBlockSummary r' id = GetBlockSummary r id.
Proof. intros Hc Hd id. unfold GetBlockSummary. rewrite Hc, Hd. reflexivity. Qed.

(** After a successful [AddBlock] the new block's summary is stored and
    every other answer is as before. *)
Lemma GetBlockSummary_AddBlock (r r' : Repository) (newBlock : Block)
    (rcs : list Receipt) :
  AddBlock r newBlock rcs = (r', None) ->
  exists ps, GetBlockSummary r (ParentID (header newBlock)) = Ok ps /\
    forall id,
      GetBlockSummary r' id
      = if decide (id = ID (header newBlock))
        then Ok (summaryOf newBlock
                   (<[Number (ID (header newBlock)) := ID (header newBlock)]>
                      (IndexRoot ps)))
        else GetBlockSummary r id.
Proof.
  intros Hrun. apply AddBlock_cases in Hrun.
  destruct Hrun as (_ & ps & Hps & Hc & Hd). exists ps. split; [exact Hps |].
  intros id. unfold GetBlockSummary. rewrite Hc.
  destruct (decide (id = ID (header newBlock))) as [-> | Hne].
  - rewrite lookup_insert_eq. reflexivity.
  - rewrite lookup_insert_ne by congruence.
    destruct (summaries (caches r) !! id); [reflexivity |].
    rewrite Hd. unfold loadBlockSummary, Put.
    rewrite !Get_commit_other; [reflexivity | |].
    + apply Forall_rev. eapply keys_of_other_block; [apply blockRecords_keys |].
      simpl. congruence.
    + repeat constructor. discriminate.
Qed.

(** [setBestBlock] touches the property store and the best block only, and
    nothing at all when the put fails. *)
Lemma setBestBlock_cases (r r' : Repository) (b : Block) (res : option Error) :
  setBestBlock r b = (r', res) ->
  data r' = data r /\ caches r' = caches r /\ genesis r' = genesis r /\
  tag r' = tag r /\ tick r' = tick r /\
  unreadable (props r') = unreadable (props r) /\
  match res with
  | Some err =>
      r' = r /\
      putErr (props r) bestBlockIDKey (VBytes32 (ID (header b))) = Some err
  | None =>
      putErr (props r) bestBlockIDKey (VBytes32 (ID (header b))) = None /\
      best r' = Some b /\
      props r' = Put (props r) bestBlockIDKey (VBytes32 (ID (header b)))
  end.
Proof.
  unfold setBestBlock.
  destruct (putErr (props r) bestBlockIDKey (VBytes32 (ID (header b)))) as [err |];
    intros [= <- <-]; repeat split.
Qed.

(** [SetBestBlockID] leaves the data store, the caches and the genesis block
    as they are. *)
Lemma SetBestBlockID_frame (r r' : Repository) (id : Bytes32) (res : option Error) :
  SetBestBlockID r id = (r', res) ->
  data r' = data r /\ caches r' = caches r /\ genesis r' = genesis r /\
  tag r' = tag r /\ unreadable (props r') = unreadable (props r).
Proof.
  unfold SetBestBlockID. destruct (GetBlock r id) as [b | err].
  - destruct (setBestBlock r b) as [r1 [err |]] eqn:Hset;
      apply setBestBlock_cases in Hset;
      destruct Hset as (Hd & Hc & Hg & Ht & _ & Hu & _);
      intros [= <- <-]; repeat split; assumption.
  - intros [= <- <-]. repeat split.
Qed.

Lemma Get_emptyStore (k : Key) : Get emptyStore k = Err errDBNotFound.
Proof.
  unfold Get, emptyStore. simpl.
  destruct (decide (k ∈ [])) as [Hin | _]; [| reflexivity].
  inversion Hin.
Qed.

(** The repository [NewRepository] makes of an empty database stores the
    genesis block and nothing else. *)
Lemma NewRepository_empty (genesis : Block) (r : Repository) :
  NewRepository emptyStore emptyStore genesis = Ok r ->
  let gid := ID (header genesis) in
  chain.genesis r = genesis /\ Number gid = 0 /\
  forall id,
    GetBlockSummary r id
    = if decide (id = gid) then Ok (summaryOf genesis (<[0 := gid]> ∅))
      else Err errDBNotFound.
Proof.
  intros Hnew gid. unfold NewRepository in Hnew. fold gid in Hnew.
  destruct (Z.eqb_spec (Number gid) 0) as [Hz | Hnz]; [| discriminate Hnew].
  cbn [negb] in Hnew.
  destruct (negb (Z.of_nat (length (Transactions genesis)) =? 0)); [discriminate |].
  cbv zeta in Hnew. cbn [props] in Hnew.
  rewrite Get_emptyStore in Hnew. cbn [db_IsNotFound negb] in Hnew.
  unfold indexBlock in Hnew. fold gid in Hnew. rewrite Hz in Hnew.
  cbn [mbind result_bind] in Hnew.
  unfold saveBlock in Hnew. cbn [caches] in Hnew.
  destruct (saveBlockBatch newCaches genesis [] (<[0 := gid]> ∅))
    as [c [puts | err]] eqn:Hb; [| discriminate Hnew].
  apply saveBlockBatch_spec in Hb. destruct Hb as [-> Hc]. fold gid in Hc.
  destruct (setBestBlock _ genesis) as [r2 [err |]] eqn:Hset; [discriminate Hnew |].
  apply setBestBlock_cases in Hset. destruct Hset as (Hd & Hcs & Hg & _).
  inversion Hnew; subst r2; clear Hnew.
  split; [exact Hg |]. split; [exact Hz |].
  intros id. unfold GetBlockSummary. rewrite Hd, Hcs. simpl. rewrite Hc.
  destruct (decide (id = gid)) as [-> | Hne].
  - rewrite lookup_insert_eq. reflexivity.
  - rewrite lookup_insert_ne by congruence. simpl. rewrite lookup_empty.
    unfold loadBlockSummary.
    rewrite Get_commit_other.
    + reflexivity.
    + apply Forall_rev. eapply keys_of_other_block; [apply blockRecords_keys |].
      simpl. fold gid. congruence.
Qed.

(** Every repository the operations produce satisfies the invariant. *)
Lemma reachable_RepoInv (r : Repository) : reachable r -> RepoInv r.
Proof.
  induction 1 as [genesis r Hnew
                 | r newBlock rcs r' res Hreach IH Hnum Hfresh Hrun
                 | r id r' res Hreach IH Hrun].
  - apply NewRepository_empty in Hnew. destruct Hnew as (Hg & Hz & Hget).
    unfold RepoInv. rewrite Hg. split; [exact Hz |]. split.
    + eexists. rewrite Hget. rewrite decide_True by reflexivity.
      split; reflexivity.
    + intros id s Hs. rewrite Hget in Hs.
      destruct (decide (id = ID (header genesis))) as [-> | Hne]; [| discriminate].
      inversion Hs; subst s. simpl. repeat split; [lia | congruence].
  - destruct res as [err |].
    + apply AddBlock_cases in Hrun. destruct Hrun as (Hg & Hc & Hd).
      eapply RepoInv_ext; [exact Hg | | exact IH].
      apply GetBlockSummary_same; assumption.
    + pose proof (AddBlock_cases _ _ _ _ _ Hrun) as (Hg & _).
      apply GetBlockSummary_AddBlock in Hrun. destruct Hrun as (ps & Hps & Hget).
      destruct IH as (Hn & (gs & Hgs & Hroot) & Hall).
      set (nid := ID (header newBlock)) in *.
      set (gid := ID (header (genesis r))) in *.
      assert (Hng : nid <> gid).
      { intros Heq. apply (Hfresh gs). rewrite Heq. exact Hgs. }
      assert (Hold : forall id s, GetBlockSummary r id = Ok s -> id <> nid).
      { intros id s Hs ->. exact (Hfresh s Hs). }
      unfold RepoInv. rewrite Hg. fold gid. split; [exact Hn |]. split.
      * exists gs. rewrite Hget, decide_False by congruence. split; assumption.
      * intros id s Hs. rewrite Hget in Hs.
        destruct (decide (id = nid)) as [-> | Hne].
        -- inversion Hs; subst s. simpl.
           destruct (Hall _ _ Hps) as (_ & Hpos & _).
           split; [reflexivity |]. split; [fold nid in Hnum; lia |].
           intros _. exists ps. rewrite Hget.
           rewrite decide_False by (eapply Hold; exact Hps).
           repeat split; [exact Hps | exact Hnum].
        -- destruct (Hall id s Hs) as (Hid & Hpos & Hparent).
           repeat split; try assumption.
           intros Hne'. destruct (Hparent Hne') as (ps' & Hps' & Hrest).
           exists ps'. rewrite Hget.
           rewrite decide_False by (eapply Hold; exact Hps').
           split; assumption.
  - apply SetBestBlockID_frame in Hrun. destruct Hrun as (Hd & Hc & Hg & _).
    eapply RepoInv_ext; [exact Hg | | exact IH].
    apply GetBlockSummary_same; [rewrite Hc; reflexivity | exact Hd].
Qed.

End Summaries.

(** ** IfConflict *)

Section Conflict.
Import thor block chain.
Context {N : Numbering}.

Lemma ancestor_present (r : Repository) (a b : Bytes32) :
  ancestor r a b -> exists s, GetBlockSummary r a = Ok s.
Proof. induction 1 as [b s Hs | a b s Hs Hne Hanc IH]; eauto. Qed.

(** Along the chain of parents the block number goes down. *)
Lemma ancestor_number (r : Repository) (a b : Bytes32) :
  RepoInv r -> ancestor r a b -> a = b \/ Number a < Number b.
Proof.
  intros (_ & _ & Hall). induction 1 as [b s Hs | a b s Hs Hne Hanc IH].
  - left. reflexivity.
  - right. destruct (Hall b s Hs) as (_ & _ & Hparent).
    destruct (Hparent Hne) as (ps & _ & _ & Hnum).
    destruct IH as [-> | Hlt]; lia.
Qed.

(** The genesis block has no ancestor but itself. *)
Lemma ancestor_genesis (r : Repository) (a : Bytes32) :
  ancestor r a (ID (header (genesis r))) -> a = ID (header (genesis r)).
Proof. inversion 1; [reflexivity | contradiction]. Qed.

(** The index of a stored block holds, at each number, the block's
    ancestor of that number, and nothing else. *)
Lemma index_ancestors (r : Repository) :
  RepoInv r ->
  forall n, 0 <= n ->
  forall b s, Number b = n -> GetBlockSummary r b = Ok s ->
  forall m a, IndexRoot s !! m = Some a <-> ancestor r a b /\ Number a = m.
Proof.
  intros Hinv. pose proof Hinv as (Hz & (gs & Hgs & Hroot) & Hall).
  set (gid := ID (header (genesis r))) in *.
  assert (Hgen : forall s, GetBlockSummary r gid = Ok s ->
            forall m a, IndexRoot s !! m = Some a <-> ancestor r a gid /\ Number a = m).
  { intros s Hs m a. rewrite Hgs in Hs. inversion Hs; subst s. rewrite Hroot.
    split.
    - intros Hl. apply lookup_insert_Some in Hl.
      destruct Hl as [[<- <-] | [_ Hl]]; [| rewrite lookup_empty in Hl; discriminate].
      split; [eapply anc_refl; exact Hgs | exact Hz].
    - intros [Hanc Hm]. apply ancestor_genesis in Hanc. subst a.
      fold gid in Hm. rewrite Hz in Hm. subst m. apply lookup_insert_eq. }
  intros n Hn. pattern n. apply natlike_ind; [| | exact Hn]; clear n Hn.
  - intros b s Hb Hs. destruct (decide (b = gid)) as [-> | Hne]; [auto |].
    destruct (Hall b s Hs) as (_ & _ & Hparent).
    destruct (Hparent Hne) as (ps & Hps & _ & Hnum).
    destruct (Hall _ _ Hps) as (_ & Hpos & _). lia.
  - intros n Hn IH b s Hb Hs. destruct (decide (b = gid)) as [-> | Hne]; [auto |].
    destruct (Hall b s Hs) as (_ & _ & Hparent).
    destruct (Hparent Hne) as (ps & Hps & Hidx & Hnum).
    assert (Hpn : Number (ParentID (Header s)) = n) by lia.
    specialize (IH _ _ Hpn Hps).
    intros m a. rewrite Hidx. split.
    + intros Hl. apply lookup_insert_Some in Hl.
      destruct Hl as [[<- <-] | [Hm Hl]].
      * split; [eapply anc_refl; exact Hs | reflexivity].
      * apply IH in Hl. destruct Hl as [Hanc Hm'].
        split; [eapply anc_step; eassumption | exact Hm'].
    + intros [Hanc Hm].
      inversion Hanc as [b' s' Hs' | a' b' s' Hs' Hne' Hanc']; subst.
      * apply lookup_insert_eq.
      * rewrite Hs in Hs'. inversion Hs'; subst s'.
        destruct (ancestor_number _ _ _ Hinv Hanc') as [-> | Hlt].
        -- rewrite lookup_insert_ne by lia. apply IH. split; [exact Hanc' | reflexivity].
        -- rewrite lookup_insert_ne by lia. apply IH. split; [exact Hanc' | reflexivity].
Qed.

(** [HasBlock] on the chain of a stored head decides ancestry, without
    error. *)
Lemma HasBlock_ancestor (r : Repository) (high low : Bytes32) (s : BlockSummary) :
  RepoInv r -> GetBlockSummary r high = Ok s ->
  exists ok, HasBlock (NewChain r high) low = (ok, None) /\
             (ok = true <-> ancestor r low high).
Proof.
  intros Hinv Hs. pose proof Hinv as (_ & _ & Hall).
  destruct (Hall _ _ Hs) as (_ & Hpos & _).
  pose proof (index_ancestors r Hinv _ Hpos _ _ eq_refl Hs) as Hidx.
  unfold HasBlock, GetBlockID, NewChain. cbn [repo head]. rewrite Hs.
  cbn [mbind result_bind].
  destruct (IndexRoot s !! Number low) as [found |] eqn:Hl.
  - exists (bool_decide (low = found)). split; [reflexivity |].
    apply Hidx in Hl. destruct Hl as [Hanc Hnum].
    rewrite bool_decide_eq_true. split.
    + intros ->. exact Hanc.
    + intros Hanc'. assert (Hl' : IndexRoot s !! Number low = Some low)
        by (apply Hidx; split; [exact Hanc' | reflexivity]).
      assert (Hf : IndexRoot s !! Number low = Some found)
        by (apply Hidx; split; assumption).
      congruence.
  - exists false. split; [reflexivity |]. split; [discriminate |].
    intros Hanc. assert (Hl' : IndexRoot s !! Number low = Some low)
      by (apply Hidx; split; [exact Hanc | reflexivity]).
    congruence.
Qed.

(** The answer of [IfConflict] on two stored blocks: no error, and no
    conflict exactly when one block is an ancestor of the other. *)
Lemma IfConflict_stored (r : Repository) (b1 b2 : Bytes32) (s1 s2 : BlockSummary) :
  RepoInv r -> GetBlockSummary r b1 = Ok s1 -> GetBlockSummary r b2 = Ok s2 ->
  exists c, IfConflict r b1 b2 = (c, None) /\
            (c = false <-> ancestor r b1 b2 \/ ancestor r b2 b1).
Proof.
  intros Hinv H1 H2. unfold IfConflict. rewrite H1, H2.
  destruct (bool_decide_reflect (b1 = b2)) as [-> | Hne].
  { exists false. split; [reflexivity |]. split; [| reflexivity].
    intros _. left. eapply anc_refl. exact H2. }
  destruct (Z.eqb_spec (Number b1) (Number b2)) as [Heq | Hneq].
  { exists true. split; [reflexivity |]. split; [discriminate |].
    intros [Hanc | Hanc]; apply (ancestor_number _ _ _ Hinv) in Hanc;
      destruct Hanc; [congruence | lia | congruence | lia]. }
  destruct (Z.gtb_spec (Number b1) (Number b2)) as [Hgt | Hle].
  - destruct (HasBlock_ancestor r b1 b2 s1 Hinv H1) as (ok & Hhas & Hok).
    rewrite Hhas. exists (negb ok). split; [reflexivity |].
    rewrite negb_false_iff, Hok. split; [tauto |].
    intros [Hanc | Hanc]; [| exact Hanc].
    apply (ancestor_number _ _ _ Hinv) in Hanc. destruct Hanc; [congruence | lia].
  - destruct (HasBlock_ancestor r b2 b1 s2 Hinv H2) as (ok & Hhas & Hok).
    rewrite Hhas. exists (negb ok). split; [reflexivity |].
    rewrite negb_false_iff, Hok. split; [tauto |].
    intros [Hanc | Hanc]; [exact Hanc |].
    apply (ancestor_number _ _ _ Hinv) in Hanc. destruct Hanc; [congruence | lia].
Qed.

End Conflict.

Section ConflictClaims.
Import thor block chain.
Context {N : Numbering} {S : Persist}.

(** C5: for two blocks stored in a repository, [IfConflict] returns false
    when they are the same block and when one is an ancestor of the other,
    and true when they lie on divergent branches, neither being an ancestor
    of the other; in particular two distinct stored blocks with the same
    number conflict.  No error is returned. *)
Theorem IfConflict_ancestry (r : Repository) (b1 b2 : Bytes32)
    (s1 s2 : BlockSummary) :
  reachable r ->
  GetBlockSummary r b1 = Ok s1 -> GetBlockSummary r b2 = Ok s2 ->
  (b1 = b2 -> IfConflict r b1 b2 = (false, None)) /\
  (ancestor r b1 b2 \/ ancestor r b2 b1 -> IfConflict r b1 b2 = (false, None)) /\
  (~ ancestor r b1 b2 -> ~ ancestor r b2 b1 -> IfConflict r b1 b2 = (true, None)) /\
  (b1 <> b2 -> Number b1 = Number b2 -> IfConflict r b1 b2 = (true, None)).
Proof.
  intros Hreach H1 H2. apply reachable_RepoInv in Hreach.
  destruct (IfConflict_stored r b1 b2 s1 s2 Hreach H1 H2) as (c & Hc & Hiff).
  rewrite Hc.
  assert (Hsame : ancestor r b1 b2 \/ ancestor r b2 b1 -> (c, @None Error) = (false, None)).
  { intros Hanc. apply Hiff in Hanc. rewrite Hanc. reflexivity. }
  assert (Hdiv : ~ ancestor r b1 b2 -> ~ ancestor r b2 b1 ->
                 (c, @None Error) = (true, None)).
  { intros Hn1 Hn2. destruct c; [reflexivity |].
    destruct (proj1 Hiff eq_refl); contradiction. }
  repeat split.
  - intros ->. apply Hsame. left. eapply anc_refl. exact H2.
  - exact Hsame.
  - exact Hdiv.
  - intros Hne Hnum. apply Hdiv; intros Hanc;
      apply (ancestor_number _ _ _ Hreach) in Hanc;
      destruct Hanc; [congruence | lia | congruence | lia].
Qed.

(** C10, as amended: when the summary of [b1] is not found, or the summary
    of [b1] is found and that of [b2] is not, [IfConflict] returns false and
    a nil error; a storage error other than not-found on [b1] is returned
    before [b2] is looked up. *)
Theorem IfConflict_not_found (r : Repository) (b1 b2 : Bytes32) :
  (forall err, GetBlockSummary r b1 = Err err -> IsNotFound err = true ->
     IfConflict r b1 b2 = (false, None)) /\
  (forall s1 err, GetBlockSummary r b1 = Ok s1 ->
     GetBlockSummary r b2 = Err err -> IsNotFound err = true ->
     IfConflict r b1 b2 = (false, None)) /\
  (forall err, GetBlockSummary r b1 = Err err -> IsNotFound err = false ->
     IfConflict r b1 b2 = (false, Some err)).
Proof.
  unfold IfConflict. repeat split.
  - intros err -> ->. reflexivity.
  - intros s1 err -> -> ->. reflexivity.
  - intros err -> ->. reflexivity.
Qed.

End ConflictClaims.

(** The example repositories are reachable. *)
Lemma repo0_reachable : @chain.reachable examples.numbering examples.persist examples.repo0.
Proof. apply (chain.reach_new examples.g). vm_compute. reflexivity. Qed.

Lemma repo3_reachable : @chain.reachable examples.numbering examples.persist examples.repo3.
Proof.
  assert (Hadd : forall r b rcs,
            @chain.AddBlock examples.numbering examples.persist r b rcs
            = (examples.addBlock r b rcs,
               snd (@chain.AddBlock examples.numbering examples.persist r b rcs))).
  { intros r b rcs. unfold examples.addBlock. apply surjective_pairing. }
  eapply chain.reach_add; [| | | apply Hadd].
  - eapply chain.reach_add; [| | | apply Hadd].
    + eapply chain.reach_add; [| | | apply Hadd].
      * exact repo0_reachable.
      * vm_compute. reflexivity.
      * intros s. vm_compute. discriminate.
    + vm_compute. reflexivity.
    + intros s. vm_compute. discriminate.
  - vm_compute. reflexivity.
  - intros s. vm_compute. discriminate.
Qed.

(** [IfConflict] on the fork g -- b1 -- b2, g -- c1: a block and itself, an
    ancestor and its descendant in both orders, siblings, and cousins. *)
Example IfConflict_on_fork :
  let conflict := @chain.IfConflict examples.numbering examples.repo3 in
  conflict examples.b1ID examples.b1ID = (false, None) /\
  conflict examples.gID examples.b2ID = (false, None) /\
  conflict examples.b2ID examples.b1ID = (false, None) /\
  conflict examples.b1ID examples.c1ID = (true, None) /\
  conflict examples.c1ID examples.b2ID = (true, None).
Proof. vm_compute. repeat split; reflexivity. Qed.

(** The witness of [IfConflict_ancestry]: in the fork g -- b1 -- b2, g -- c1,
    the blocks [b1] and [c1] are distinct, have the same number and
    conflict. *)
Lemma IfConflict_ancestry_witness :
  @chain.IfConflict examples.numbering examples.repo3 examples.b1ID examples.c1ID
  = (true, None).
Proof.
  refine (proj2 (proj2 (proj2
            (@IfConflict_ancestry examples.numbering examples.persist
               examples.repo3 examples.b1ID examples.c1ID
               (chain.summaryOf examples.b1
                  (<[1 := examples.b1ID]> (<[0 := examples.gID]> ∅)))
               (chain.summaryOf examples.c1
                  (<[1 := examples.c1ID]> (<[0 := examples.gID]> ∅)))
               repo3_reachable _ _))) _ _).
  - vm_compute. reflexivity.
  - vm_compute. reflexivity.
  - vm_compute. discriminate.
  - vm_compute. reflexivity.
Defined.

(** The witness of [IfConflict_not_found]: [b2] is not stored in the
    repository of g -- b1. *)
Lemma IfConflict_not_found_witness :
  @chain.IfConflict examples.numbering examples.repo1 examples.b2ID examples.b1ID
  = (false, None).
Proof.
  apply (proj1 (@IfConflict_not_found examples.numbering examples.repo1
                  examples.b2ID examples.b1ID) errDBNotFound);
    vm_compute; reflexivity.
Defined.

(** C10 as stated fails when reading [b1]'s summary fails with a storage
    error: [b2]'s summary is not found, yet [IfConflict] returns that error
    instead of a nil error. *)
Lemma IfConflict_not_found_counterexample :
  chain.GetBlockSummary examples.reopened examples.b2ID = Err errDBNotFound /\
  chain.IsNotFound errDBNotFound = true /\
  @chain.IfConflict examples.numbering examples.reopened examples.b1ID examples.b2ID
  = (false, Some chain.errRead).
Proof. vm_compute. repeat split; reflexivity. Qed.

(** ** The adoption loop *)

Section AdoptLoop.
Import thor block node.
Context {K : Packer}.

(** The loop offers every candidate to [flow.Adopt], whatever the earlier
    calls returned and whatever the timer did. *)
Lemma adoptLoop_calls (elapsed : nat -> bool) (executables : list Transaction) :
  forall i st,
    map fst (adoptCalls (adoptLoop elapsed i executables st))
    = map fst (adoptCalls st) ++ executables.
Proof.
  induction executables as [| t rest IH]; intros i st; simpl.
  - rewrite app_nil_r. reflexivity.
  - destruct (Adopt (flow st) t) as [flow' err].
    destruct (IsGasLimitReached err); [| destruct (IsTxNotAdoptableNow err)];
      rewrite IH; simpl; rewrite map_app, <- app_assoc; reflexivity.
Qed.

(** Two runs of the loop that differ only in the timer and in what they
    have received from [done] adopt, remove and call alike. *)
Lemma adoptLoop_timer_irrelevant (elapsed1 elapsed2 : nat -> bool)
    (executables : list Transaction) :
  forall i j st1 st2,
    flow st1 = flow st2 -> txsToRemove st1 = txsToRemove st2 ->
    adoptCalls st1 = adoptCalls st2 ->
    let r1 := adoptLoop elapsed1 i executables st1 in
    let r2 := adoptLoop elapsed2 j executables st2 in
    flow r1 = flow r2 /\ txsToRemove r1 = txsToRemove r2 /\
    adoptCalls r1 = adoptCalls r2.
Proof.
  induction executables as [| t rest IH]; intros i j st1 st2 Hf Hr Hc; simpl.
  - auto.
  - rewrite Hf, Hr, Hc. destruct (Adopt (flow st2) t) as [flow' err].
    destruct (IsGasLimitReached err); [| destruct (IsTxNotAdoptableNow err)];
      apply IH; reflexivity.
Qed.

(** [packTxSetAndBlockSummary] returns the same whatever the timer does. *)
Lemma packTxSetAndBlockSummary_timer_irrelevant {A : Type}
    (seal : Flow -> result A) (elapsed1 elapsed2 : nat -> bool)
    (executables : list Transaction) (f : Flow) :
  packTxSetAndBlockSummary seal elapsed1 executables f
  = packTxSetAndBlockSummary seal elapsed2 executables f.
Proof.
  unfold packTxSetAndBlockSummary.
  destruct (adoptLoop_timer_irrelevant elapsed1 elapsed2 executables 0%nat 0%nat
              {| flow := f; txsToRemove := []; doneReceived := false; adoptCalls := [] |}
              {| flow := f; txsToRemove := []; doneReceived := false; adoptCalls := [] |}
              eq_refl eq_refl eq_refl) as (Hf & Hr & Hc).
  rewrite Hf, Hr, Hc. reflexivity.
Qed.

End AdoptLoop.

(** C6 (the code departs from it): with 50000 gas left, [flow.Adopt] reports
    the gas-limit-reached condition for the first candidate, and the loop goes
    on: it offers the second candidate to [flow.Adopt], which adopts it. *)
Theorem adoptLoop_goes_on_after_gas_limit :
  let st := @node.adoptLoop examples.packer examples.neverElapsed 0
              [examples.bigTx; examples.smallTx] examples.start in
  node.adoptCalls st
  = [(examples.bigTx, Some examples.errGasLimitReached); (examples.smallTx, None)] /\
  @node.IsGasLimitReached examples.packer (Some examples.errGasLimitReached) = true /\
  node.adopted st = [examples.smallTx] /\
  node.flow st = ((29000, [examples.smallTx]) : @node.Flow examples.packer).
Proof. vm_compute. repeat split; reflexivity. Qed.

(** C7 (the code departs from it): the timer has fired before the first
    iteration, the loop receives from [done] and goes on: both candidates are
    offered to [flow.Adopt] and adopted, as without any timeout. *)
Theorem adoptLoop_goes_on_after_timeout :
  let st := @node.adoptLoop examples.packer examples.elapsedAtOnce 0
              [examples.smallTx; examples.t1] examples.start in
  node.doneReceived st = true /\
  node.adopted st = [examples.smallTx; examples.t1] /\
  node.adoptCalls st
  = node.adoptCalls (@node.adoptLoop examples.packer examples.neverElapsed 0
                       [examples.smallTx; examples.t1] examples.start).
Proof. vm_compute. repeat split; reflexivity. Qed.

(** ** The endorsement case of the packer loop *)

Section PackerLoop.
Import thor block node.
Context {P : Params}.

(** Once the quorum is reached and the block is packed, a failure of
    [stage.Commit] is only logged and the loop goes on to commit the block;
    the process stops, in a panic, exactly when [commitBlock] fails. *)
Lemma onEndorsement_commit_failures (st : LoopState) (env : EndorsementEnv)
    (fl : FlowInfo) (newBlock : Bytes32) :
  loopFlow st = Some fl -> activated st = true ->
  ParentHeaderID fl = bestID env ->
  When fl <= now env <= uint64 (When fl + BlockInterval) ->
  validateErr env = None ->
  CommitteeSize <= uint64 (numOfEndorsements env) ->
  packResult env = Ok newBlock ->
  (forall err prevTrunk curTrunk,
     stageCommitErr env = Some err ->
     commitBlockResult env = Ok (prevTrunk, curTrunk) ->
     exists effects,
       onEndorsement st env = Continue reset effects /\
       errLog "commit state" err ∈ effects /\
       CommitBlock newBlock ∈ effects) /\
  (forall err, commitBlockResult env = Err err ->
     exists effects, onEndorsement st env = Panic "commit block" err effects) /\
  (forall msg err effects, onEndorsement st env = Panic msg err effects ->
     commitBlockResult env = Err err).
Proof.
  intros Hfl Hact Hbest [Hlo Hhi] Hval Hq Hpack.
  unfold onEndorsement. rewrite Hfl, Hact, Hbest, Hval, Hpack. cbn [negb].
  rewrite bool_decide_eq_true_2 by reflexivity. cbn [negb].
  rewrite (proj2 (Z.ltb_ge _ _)) by lia.
  replace (now env >? uint64 (When fl + BlockInterval)) with false
    by (symmetry; rewrite Z.gtb_ltb; apply Z.ltb_ge; lia).
  rewrite (proj2 (Z.ltb_ge _ _)) by lia.
  repeat split.
  - intros err prevTrunk curTrunk -> ->. eexists. split; [reflexivity |].
    split.
    + destruct (negb (bool_decide (prevTrunk = curTrunk)));
        rewrite !elem_of_app; repeat rewrite elem_of_cons; tauto.
    + destruct (negb (bool_decide (prevTrunk = curTrunk)));
        rewrite !elem_of_app; repeat rewrite elem_of_cons; tauto.
  - intros err ->. eexists. reflexivity.
  - intros msg err effects.
    destruct (commitBlockResult env) as [[prevTrunk curTrunk] | err'].
    + discriminate.
    + intros Hp. inversion Hp. reflexivity.
Qed.

End PackerLoop.

(** C8 (the code departs from it): the quorum is reached, the block is
    packed and [stage.Commit] returns an error; the loop does not stop.  It
    logs the error, commits the block, broadcasts the header and waits for
    the next event, where the retired [pack] returned the error. *)
Theorem onEndorsement_goes_on_after_commit_state_failure :
  node.stageCommitErr examples.commitStateFails = Some (errOther "disk full") /\
  @node.onEndorsement examples.params examples.activeState examples.commitStateFails
  = node.Continue node.reset
      [node.debugLog "<== ed"; node.debugLog "Added ed";
       node.debugLog "Packing new header"; node.debugLog "Committing new block";
       node.errLog "commit state" (errOther "disk full");
       node.CommitBlock examples.b1ID;
       node.ProcessFork examples.gID examples.b1ID;
       node.display examples.b1ID; node.debugLog "hd ==>";
       node.BroadcastBlockHeader examples.b1ID;
       node.BandwidthUpdate examples.b1ID].
Proof. vm_compute. split; reflexivity. Qed.

(** * Further properties *)

(** ** The committee threshold and the outcomes of IsCommittee *)

Section CommitteeMore.
Import thor binary consensus.
Context {P : Params} {C : Crypto}.

(** X1. The bound [TestThreshold] checks, in integers: the threshold, as a share
    of MaxUint32, is at most CommitteeSize * CommitteeThresholdFactor /
    MaxBlockProposers; and the threshold is a [uint64].  Overflow of the
    products can only lower the threshold. *)
Theorem getCommitteeThreshold_ratio :
  0 < MaxBlockProposers -> 0 <= CommitteeSize -> 0 <= CommitteeThresholdFactor ->
  0 <= getCommitteeThreshold < 2 ^ 64 /\
  getCommitteeThreshold * MaxBlockProposers
  <= MaxUint32 * CommitteeSize * CommitteeThresholdFactor.
Proof.
  intros Hn Hc Hf. unfold getCommitteeThreshold, uint64, wrap.
  rewrite (Z.mod_small MaxUint32) by (unfold MaxUint32; lia).
  assert (Hq : 0 <= MaxUint32 / MaxBlockProposers)
    by (apply Z.div_pos; [unfold MaxUint32 |]; lia).
  assert (Hqn : MaxUint32 / MaxBlockProposers * MaxBlockProposers <= MaxUint32).
  { rewrite Z.mul_comm. apply Z.mul_div_le. lia. }
  set (q := MaxUint32 / MaxBlockProposers) in *.
  assert (H1 : 0 <= (q * CommitteeSize) mod 2 ^ 64 <= q * CommitteeSize).
  { split; [apply Z.mod_pos_bound; lia | apply Z.mod_le; nia]. }
  set (a := (q * CommitteeSize) mod 2 ^ 64) in *.
  assert (H2 : 0 <= (a * CommitteeThresholdFactor) mod 2 ^ 64
               <= a * CommitteeThresholdFactor).
  { split; [apply Z.mod_pos_bound; lia | apply Z.mod_le; nia]. }
  split; [apply Z.mod_pos_bound; lia |].
  set (t := (a * CommitteeThresholdFactor) mod 2 ^ 64) in *.
  assert (Ht : t <= q * CommitteeSize * CommitteeThresholdFactor) by nia.
  assert (Hcf : 0 <= CommitteeSize * CommitteeThresholdFactor) by nia.
  apply Z.le_trans with (q * CommitteeSize * CommitteeThresholdFactor * MaxBlockProposers).
  - apply Z.mul_le_mono_nonneg_r; lia.
  - replace (q * CommitteeSize * CommitteeThresholdFactor * MaxBlockProposers)
      with (q * MaxBlockProposers * (CommitteeSize * CommitteeThresholdFactor)) by ring.
    replace (MaxUint32 * CommitteeSize * CommitteeThresholdFactor)
      with (MaxUint32 * (CommitteeSize * CommitteeThresholdFactor)) by ring.
    apply Z.mul_le_mono_nonneg_r; lia.
Qed.

(** X2. [IsCommittee] returns one of three outcomes: the proof the VRF computed
    for the seed, nothing at all (the VRF computed a proof, which is not
    elected), or the error of the VRF with no proof.  It never returns a proof
    together with an error, and never a proof the VRF did not compute. *)
Theorem IsCommittee_outcomes (sk : PrivateKey) (seed : Bytes32) :
  match IsCommittee sk seed with
  | (Some proof, None) => Prove sk (Bytes seed) = Ok proof
  | (None, None) => exists proof, Prove sk (Bytes seed) = Ok proof
  | (None, Some err) => Prove sk (Bytes seed) = Err err
  | (Some _, Some _) => False
  end.
Proof.
  unfold IsCommittee.
  destruct (Prove sk (Bytes seed)) as [proof | err]; [| reflexivity].
  rewrite (BigEndian_Uint64_Bytes _ (Blake2b_range _)).
  destruct (_ <=? _); [reflexivity | eauto].
Qed.

End CommitteeMore.

(** X3. Election is monotone in the threshold: with the same VRF and hash, a
    seed elected under constants that give some threshold stays elected,
    with the same proof, under constants that give a threshold at least as
    large. *)
Theorem IsCommittee_monotone (P1 P2 : thor.Params) (C : consensus.Crypto)
    (sk : consensus.PrivateKey) (seed : thor.Bytes32) (proof : consensus.Proof) :
  @consensus.getCommitteeThreshold P1 <= @consensus.getCommitteeThreshold P2 ->
  @consensus.IsCommittee P1 C sk seed = (Some proof, None) ->
  @consensus.IsCommittee P2 C sk seed = (Some proof, None).
Proof.
  unfold consensus.IsCommittee. intros Hle.
  destruct (consensus.Prove sk (thor.Bytes seed)) as [p | err]; [| discriminate].
  rewrite (BigEndian_Uint64_Bytes _ (consensus.Blake2b_range _)).
  destruct (Z.leb_spec (consensus.Blake2b (consensus.ProofBytes p) / 2 ^ 192)
              (@consensus.getCommitteeThreshold P1)) as [H1 | H1]; [| discriminate].
  intros Heq. rewrite (proj2 (Z.leb_le _ _)) by lia. exact Heq.
Qed.

(** The witness of [getCommitteeThreshold_ratio], for 101 proposers, a
    committee of two and factor two. *)
Lemma getCommitteeThreshold_ratio_witness :
  @consensus.getCommitteeThreshold examples.params * 101
  <= thor.MaxUint32 * 2 * 2.
Proof.
  refine (proj2 (@getCommitteeThreshold_ratio examples.params _ _ _));
    vm_compute; congruence.
Defined.

(** The witness of [IsCommittee_monotone]: a seed elected for a committee of
    two is elected for a committee of three. *)
Lemma IsCommittee_monotone_witness :
  @consensus.IsCommittee examples.widerParams (examples.crypto (100 * 2 ^ 192)) 7 5
  = (Some (thor.Bytes 5), None).
Proof.
  refine (@IsCommittee_monotone examples.params examples.widerParams
            (examples.crypto (100 * 2 ^ 192)) 7 5 (thor.Bytes 5) _ _).
  - vm_compute. discriminate.
  - vm_compute. reflexivity.
Defined.

(** ** The repository: what the caches hold after a batch *)

Section BatchCaches.
Import thor block chain.
Context {N : Numbering} {S : Persist}.

Lemma SetIndex_inj (key key' : txKey) (i j : Z) :
  0 <= i < 2 ^ 64 -> 0 <= j < 2 ^ 64 -> SetIndex key i = SetIndex key' j -> i = j.
Proof.
  intros Hi Hj Heq. apply (f_equal key_index) in Heq. simpl in Heq.
  unfold uint64, wrap in Heq. rewrite !Z.mod_small in Heq by lia. exact Heq.
Qed.

(** The loop over the transactions leaves the other caches alone, and the
    transaction cache too, outside the keys it writes. *)
Lemma saveTransactions_frame (l : list Transaction) :
  forall key i st st' e,
    saveTransactions key i l st = (st', e) ->
    receipts (cached st') = receipts (cached st) /\
    bss (cached st') = bss (cached st) /\
    forall k, (forall j, (j < length l)%nat -> k <> SetIndex key (i + Z.of_nat j)) ->
              txs (cached st') !! k = txs (cached st) !! k.
Proof.
  induction l as [| t l IH]; intros key i st st' e Hrun; simpl in Hrun.
  - inversion Hrun; subst. auto.
  - unfold save in Hrun.
    destruct (saveErr (recordKey (SetIndex key i))) as [err |].
    + inversion Hrun; subst. auto.
    + apply IH in Hrun. destruct Hrun as (Hr & Hb & Hframe). simpl in Hr, Hb.
      repeat split; [exact Hr | exact Hb |].
      intros k Hk. rewrite Hframe.
      * simpl. apply lookup_insert_ne. intros Heq.
        apply (Hk O); [simpl; lia |]. rewrite Z.add_0_r. congruence.
      * intros j Hj. intros Heq. apply (Hk (Datatypes.S j)); [simpl; lia |].
        rewrite Heq. unfold SetIndex. simpl. do 2 f_equal. lia.
Qed.

Lemma saveReceipts_frame (l : list Receipt) :
  forall key i st st' e,
    saveReceipts key i l st = (st', e) ->
    txs (cached st') = txs (cached st) /\
    bss (cached st') = bss (cached st) /\
    forall k, (forall j, (j < length l)%nat -> k <> SetIndex key (i + Z.of_nat j)) ->
              receipts (cached st') !! k = receipts (cached st) !! k.
Proof.
  induction l as [| t l IH]; intros key i st st' e Hrun; simpl in Hrun.
  - inversion Hrun; subst. auto.
  - unfold save in Hrun.
    destruct (saveErr (recordKey (SetIndex key i))) as [err |].
    + inversion Hrun; subst. auto.
    + apply IH in Hrun. destruct Hrun as (Hr & Hb & Hframe). simpl in Hr, Hb.
      repeat split; [exact Hr | exact Hb |].
      intros k Hk. rewrite Hframe.
      * simpl. apply lookup_insert_ne. intros Heq.
        apply (Hk O); [simpl; lia |]. rewrite Z.add_0_r. congruence.
      * intros j Hj. intros Heq. apply (Hk (Datatypes.S j)); [simpl; lia |].
        rewrite Heq. unfold SetIndex. simpl. do 2 f_equal. lia.
Qed.

(** When the loop ends without error, the cache holds every transaction
    under its index, as long as the indices fit 64 bits. *)
Lemma saveTransactions_hits (l : list Transaction) :
  forall key i st st',
    saveTransactions key i l st = (st', None) ->
    0 <= i -> i + Z.of_nat (length l) <= 2 ^ 64 ->
    forall (j : nat) t, l !! j = Some t ->
      txs (cached st') !! SetIndex key (i + Z.of_nat j) = Some t.
Proof.
  induction l as [| t0 l IH]; intros key i st st' Hrun Hi Hlen j t Hj.
  - rewrite lookup_nil in Hj. discriminate.
  - simpl in Hrun, Hlen. unfold save in Hrun.
    destruct (saveErr (recordKey (SetIndex key i))) as [err |].
    { inversion Hrun. }
    destruct j as [| j]; simpl in Hj.
    + inversion Hj; subst t0.
      apply saveTransactions_frame in Hrun. destruct Hrun as (_ & _ & Hframe).
      rewrite Hframe.
      * simpl. rewrite Z.add_0_r. apply lookup_insert_eq.
      * intros j' Hj' Heq. simpl in Heq. rewrite Z.add_0_r in Heq.
        apply SetIndex_inj in Heq; lia.
    + specialize (IH _ _ _ _ Hrun ltac:(lia) ltac:(lia) j t Hj).
      replace (i + Z.of_nat (Datatypes.S j)) with (i + 1 + Z.of_nat j) by lia.
      exact IH.
Qed.

Lemma saveReceipts_hits (l : list Receipt) :
  forall key i st st',
    saveReceipts key i l st = (st', None) ->
    0 <= i -> i + Z.of_nat (length l) <= 2 ^ 64 ->
    forall (j : nat) t, l !! j = Some t ->
      receipts (cached st') !! SetIndex key (i + Z.of_nat j) = Some t.
Proof.
  induction l as [| t0 l IH]; intros key i st st' Hrun Hi Hlen j t Hj.
  - rewrite lookup_nil in Hj. discriminate.
  - simpl in Hrun, Hlen. unfold save in Hrun.
    destruct (saveErr (recordKey (SetIndex key i))) as [err |].
    { inversion Hrun. }
    destruct j as [| j]; simpl in Hj.
    + inversion Hj; subst t0.
      apply saveReceipts_frame in Hrun. destruct Hrun as (_ & _ & Hframe).
      rewrite Hframe.
      * simpl. rewrite Z.add_0_r. apply lookup_insert_eq.
      * intros j' Hj' Heq. simpl in Heq. rewrite Z.add_0_r in Heq.
        apply SetIndex_inj in Heq; lia.
    + specialize (IH _ _ _ _ Hrun ltac:(lia) ltac:(lia) j t Hj).
      replace (i + Z.of_nat (Datatypes.S j)) with (i + 1 + Z.of_nat j) by lia.
      exact IH.
Qed.

Lemma SetIndex_other_block (key k : txKey) (i : Z) :
  key_id k <> key_id key -> k <> SetIndex key i.
Proof. intros Hne ->. apply Hne. reflexivity. Qed.

(** What the body of the batch does to the caches: it touches only entries
    of its own block, and when it succeeds the caches hold the block's backer
    signatures, transactions and receipts. *)
Lemma saveBlockBatch_caches (c c' : Caches) (blk : Block) (rcs : list Receipt)
    (root : gmap Z Z) (res : result (list (Key * Value))) :
  saveBlockBatch c blk rcs root = (c', res) ->
  let id := ID (header blk) in
  (forall id', id' <> id -> bss c' !! id' = bss c !! id') /\
  (forall k, key_id k <> id ->
     txs c' !! k = txs c !! k /\ receipts c' !! k = receipts c !! k) /\
  match res with
  | Err _ => True
  | Ok _ =>
      bss c' !! id = Some (BackerSignatures blk) /\
      (Z.of_nat (length (Transactions blk)) <= 2 ^ 64 ->
       forall (j : nat) t, Transactions blk !! j = Some t ->
         txs c' !! SetIndex (makeTxKey id txInfix) (Z.of_nat j) = Some t) /\
      (Z.of_nat (length rcs) <= 2 ^ 64 -> Transactions blk <> [] ->
       forall (j : nat) rc, rcs !! j = Some rc ->
         receipts c' !! SetIndex (makeTxKey id receiptInfix) (Z.of_nat j) = Some rc)
  end.
Proof.
  intros Hrun id. revert Hrun. unfold saveBlockBatch. fold id.
  set (st0 := {| putter := []; cached := c; summary_txs := [] |}).
  destruct (0 <? Z.of_nat (length (Transactions blk))) eqn:Hn.
  - destruct (saveTransactions (makeTxKey id txInfix) 0 (Transactions blk) st0)
      as [st1 e1] eqn:Htx.
    pose proof (saveTransactions_frame _ _ _ _ _ _ Htx) as (Hr1 & Hb1 & Hf1).
    simpl in Hr1, Hb1, Hf1.
    assert (Hf1' : forall k, key_id k <> id -> txs (cached st1) !! k = txs c !! k).
    { intros k Hk. apply Hf1. intros j _. apply SetIndex_other_block. exact Hk. }
    destruct e1 as [err |].
    { intros Hrun. inversion Hrun; subst. repeat split; auto.
      - rewrite Hb1. reflexivity.
      - rewrite Hr1. reflexivity. }
    destruct (saveReceipts (makeTxKey id receiptInfix) 0 rcs st1) as [st2 e2] eqn:Hrc.
    pose proof (saveReceipts_frame _ _ _ _ _ _ Hrc) as (Ht2 & Hb2 & Hf2).
    assert (Hf2' : forall k, key_id k <> id ->
                     receipts (cached st2) !! k = receipts c !! k).
    { intros k Hk. rewrite Hf2, Hr1; [reflexivity |].
      intros j _. apply SetIndex_other_block. exact Hk. }
    assert (Hbase : forall k, key_id k <> id ->
              txs (cached st2) !! k = txs c !! k /\
              receipts (cached st2) !! k = receipts c !! k).
    { intros k Hk. rewrite Ht2. auto. }
    destruct e2 as [err |].
    { intros Hrun. inversion Hrun; subst. repeat split; try apply Hbase; auto.
      rewrite Hb2, Hb1. reflexivity. }
    unfold save.
    destruct (saveErr (bssKey id)) as [err |].
    { intros Hrun. inversion Hrun; subst. repeat split; try apply Hbase; auto.
      rewrite Hb2, Hb1. reflexivity. }
    destruct (saveErr (summaryKey id)) as [err |]; intros Hrun; inversion Hrun; subst;
      simpl.
    + repeat split; try apply Hbase; auto.
      intros id' Hne. rewrite lookup_insert_ne by congruence.
      rewrite Hb2, Hb1. reflexivity.
    + repeat split; try apply Hbase; auto.
      * intros id' Hne. rewrite lookup_insert_ne by congruence.
        rewrite Hb2, Hb1. reflexivity.
      * apply lookup_insert_eq.
      * intros Hlen j t Hj. rewrite Ht2.
        pose proof (saveTransactions_hits _ _ _ _ _ Htx ltac:(lia) ltac:(lia) j t Hj) as Hhit.
        rewrite Z.add_0_l in Hhit. exact Hhit.
      * intros Hlen _ j rc Hj.
        pose proof (saveReceipts_hits _ _ _ _ _ Hrc ltac:(lia) ltac:(lia) j rc Hj) as Hhit.
        rewrite Z.add_0_l in Hhit. exact Hhit.
  - assert (Hnil : Transactions blk = []).
    { destruct (Transactions blk); [reflexivity |].
      simpl in Hn. apply Z.ltb_ge in Hn. lia. }
    unfold save.
    destruct (saveErr (bssKey id)) as [err |].
    { intros Hrun. inversion Hrun; subst. repeat split; auto. }
    destruct (saveErr (summaryKey id)) as [err |]; intros Hrun; inversion Hrun; subst;
      simpl.
    + repeat split; auto. intros id' Hne. apply lookup_insert_ne. congruence.
    + repeat split; auto.
      * intros id' Hne. apply lookup_insert_ne. congruence.
      * apply lookup_insert_eq.
      * intros _ j t Hj. rewrite Hnil, lookup_nil in Hj. discriminate.
      * intros _ Hne. contradiction.
Qed.

(** [AddBlock] and the caches: whatever it returns, the caches it leaves are
    those of the batch body (or the old ones when the parent is missing). *)
Lemma AddBlock_caches (r r' : Repository) (newBlock : Block) (rcs : list Receipt)
    (res : option Error) :
  AddBlock r newBlock rcs = (r', res) ->
  (r' = r /\ res <> None) \/
  exists ps bres,
    GetBlockSummary r (ParentID (header newBlock)) = Ok ps /\
    saveBlockBatch (caches r) newBlock rcs
      (<[Number (ID (header newBlock)) := ID (header newBlock)]> (IndexRoot ps))
    = (caches r', bres) /\
    (res = None -> exists puts, bres = Ok puts).
Proof.
  unfold AddBlock.
  destruct (GetBlockSummary r (ParentID (header newBlock))) as [ps | err] eqn:Hps.
  2:{ destruct (IsNotFound err); intros Hrun; inversion Hrun; left;
      split; congruence. }
  unfold indexBlock, saveBlock.
  destruct (saveBlockBatch (caches r) newBlock rcs _) as [c [puts | err]] eqn:Hb.
  - simpl data. destruct (isBranchHead _ _); intros Hrun; inversion Hrun; subst;
      right; exists ps, (Ok puts); simpl; eauto.
  - intros Hrun. inversion Hrun; subst. right. exists ps, (Err err).
    simpl. split; [reflexivity |]. split; [exact Hb | discriminate].
Qed.

End BatchCaches.

(** ** The repository: reading blocks back *)

Section ReadBack.
Import thor block chain.
Context {N : Numbering} {S : Persist}.

Lemma getEach_hits {A : Type} (get : txKey -> result A) (key : txKey) (xs : list A) :
  forall (i : Z) (ids : list Bytes32),
    length ids = length xs ->
    (forall (j : nat) x, xs !! j = Some x -> get (SetIndex key (i + Z.of_nat j)) = Ok x) ->
    getEach get key i ids = Ok xs.
Proof.
  induction xs as [| x xs IH]; intros i ids Hlen Hget.
  - destruct ids; [reflexivity | discriminate].
  - destruct ids as [| id ids]; [discriminate |]. simpl.
    pose proof (Hget O x eq_refl) as H0. rewrite Z.add_0_r in H0. rewrite H0.
    cbn [mbind result_bind].
    rewrite (IH (i + 1) ids).
    + reflexivity.
    + simpl in Hlen. lia.
    + intros j y Hj. specialize (Hget (Datatypes.S j) y Hj).
      replace (i + 1 + Z.of_nat j) with (i + Z.of_nat (Datatypes.S j)) by lia.
      exact Hget.
Qed.

Lemma getEach_ext {A : Type} (get1 get2 : txKey -> result A) (key : txKey) :
  (forall i, get1 (SetIndex key i) = get2 (SetIndex key i)) ->
  forall ids i, getEach get1 key i ids = getEach get2 key i ids.
Proof.
  intros Hext. induction ids as [| id ids IH]; intros i; simpl; [reflexivity |].
  rewrite Hext. destruct (get2 (SetIndex key i)); [| reflexivity].
  cbn [mbind result_bind]. rewrite IH. reflexivity.
Qed.

Lemma AddBlock_reads (r r' : Repository) (newBlock : Block) (rcs : list Receipt) :
  AddBlock r newBlock rcs = (r', None) ->
  Z.of_nat (length (Transactions newBlock)) <= 2 ^ 64 ->
  GetBlockTransactions r' (ID (header newBlock)) = Ok (Transactions newBlock) /\
  GetBlockBackerSignatures r' (ID (header newBlock)) = Ok (BackerSignatures newBlock) /\
  exists b, GetBlock r' (ID (header newBlock)) = Ok b /\ sameContent b newBlock.
Proof.
  intros Hrun Hlen. set (id := ID (header newBlock)).
  pose proof (AddBlock_caches _ _ _ _ _ Hrun) as [[_ Hbad] | (ps & bres & Hps & Hb & Hok)];
    [congruence |].
  destruct (Hok eq_refl) as [puts ->].
  pose proof (saveBlockBatch_caches _ _ _ _ _ _ Hb) as (_ & _ & Hbss & Htx & _).
  fold id in Hbss, Htx.
  destruct (GetBlockSummary_AddBlock _ _ _ _ Hrun) as (ps' & Hps' & Hget).
  rewrite Hps in Hps'. inversion Hps'; subst ps'. clear Hps'.
  specialize (Hget id). rewrite decide_True in Hget by reflexivity.
  assert (Htxs : GetBlockTransactions r' id = Ok (Transactions newBlock)).
  { unfold GetBlockTransactions. rewrite Hget. cbn [mbind result_bind].
    unfold summaryOf. cbn [Txs]. rewrite length_map.
    destruct (0 <? Z.of_nat (length (Transactions newBlock))) eqn:Hn.
    - apply getEach_hits; [apply length_map |].
      intros j t Hj. rewrite Z.add_0_l. unfold getTransaction.
      rewrite (Htx Hlen j t Hj). reflexivity.
    - destruct (Transactions newBlock); [reflexivity |].
      simpl in Hn. apply Z.ltb_ge in Hn. lia. }
  assert (Hsigs : GetBlockBackerSignatures r' id = Ok (BackerSignatures newBlock)).
  { unfold GetBlockBackerSignatures. rewrite Hbss. reflexivity. }
  split; [exact Htxs |]. split; [exact Hsigs |].
  unfold GetBlock. rewrite Hget, Htxs, Hsigs. cbn [mbind result_bind].
  eexists. split; [reflexivity |]. repeat split.
Qed.

(** X4. After a successful [AddBlock] the block reads back: its transactions and
    backer signatures are returned in order, and [GetBlock] composes a block
    of the header, the transactions and the backer signatures that were
    added, provided the transaction indices fit 64 bits. *)
Theorem AddBlock_GetBlock (r r' : Repository) (newBlock : Block) (rcs : list Receipt) :
  AddBlock r newBlock rcs = (r', None) ->
  Z.of_nat (length (Transactions newBlock)) <= 2 ^ 64 ->
  GetBlockTransactions r' (ID (header newBlock)) = Ok (Transactions newBlock) /\
  GetBlockBackerSignatures r' (ID (header newBlock)) = Ok (BackerSignatures newBlock) /\
  exists b, GetBlock r' (ID (header newBlock)) = Ok b /\ sameContent b newBlock.
Proof. apply AddBlock_reads. Qed.

(** X7. The two calls that commit a block compose: after a successful
    [AddBlock], [GetBlock] of the block's id returns a block of the header,
    the transactions and the backer signatures that were added, and
    [SetBestBlockID] with that id can fail only with the error of the put
    into the property store, leaving the repository as it was and signalling
    nothing.  When the put succeeds, [SetBestBlockID] succeeds, signals the
    new best block once, [BestBlock] is that block, the property store holds
    its id, and the stored blocks read as before. *)
Theorem AddBlock_then_SetBestBlockID (r r1 : Repository) (newBlock : Block)
    (rcs : list Receipt) :
  AddBlock r newBlock rcs = (r1, None) ->
  Z.of_nat (length (Transactions newBlock)) <= 2 ^ 64 ->
  let id := ID (header newBlock) in
  exists b,
    GetBlock r1 id = Ok b /\ sameContent b newBlock /\
    match putErr (props r1) bestBlockIDKey (VBytes32 id) with
    | Some err => SetBestBlockID r1 id = (r1, Some err)
    | None =>
        exists r2,
          SetBestBlockID r1 id = (r2, None) /\
          BestBlock r2 = Some b /\
          tick r2 = Datatypes.S (tick r1) /\
          data r2 = data r1 /\
          props r2 = Put (props r1) bestBlockIDKey (VBytes32 id) /\
          forall id', GetBlock r2 id' = GetBlock r1 id'
    end.
Proof.
  intros Hrun Hlen id.
  destruct (AddBlock_reads _ _ _ _ Hrun Hlen) as (_ & _ & b & Hget & Hsame).
  fold id in Hget. exists b. split; [exact Hget |]. split; [exact Hsame |].
  assert (Hid : ID (header b) = id) by (destruct Hsame as [-> _]; reflexivity).
  unfold SetBestBlockID, setBestBlock. rewrite Hget, Hid.
  destruct (putErr (props r1) bestBlockIDKey (VBytes32 id)) as [err |].
  - reflexivity.
  - eexists. split; [reflexivity |]. repeat split.
Qed.

(** X8. [GetBlockBackerSignatures] never fails with a not-found error: a block
    without a record of backer signatures has none. *)
Theorem GetBlockBackerSignatures_never_not_found (r : Repository) (id : Bytes32)
    (err : Error) :
  GetBlockBackerSignatures r id = Err err -> IsNotFound err = false.
Proof.
  unfold GetBlockBackerSignatures.
  destruct (bss (caches r) !! id); [discriminate |].
  destruct (loadBackerSignatures (data r) id) as [l | e]; [discriminate |].
  destruct (IsNotFound e) eqn:He; [discriminate |].
  intros [= <-]. exact He.
Qed.


(** X5. The receipts of an added block read back when there is one receipt per
    transaction; for a block without transactions no receipt is stored and
    [GetBlockReceipts] returns none, whatever receipts [AddBlock] was
    given. *)
Theorem AddBlock_GetBlockReceipts (r r' : Repository) (newBlock : Block)
    (rcs : list Receipt) :
  AddBlock r newBlock rcs = (r', None) ->
  (length rcs = length (Transactions newBlock) ->
   Z.of_nat (length rcs) <= 2 ^ 64 ->
   GetBlockReceipts r' (ID (header newBlock)) = Ok rcs) /\
  (Transactions newBlock = [] ->
   GetBlockReceipts r' (ID (header newBlock)) = Ok []).
Proof.
  intros Hrun. set (id := ID (header newBlock)).
  pose proof (AddBlock_caches _ _ _ _ _ Hrun) as [[_ Hbad] | (ps & bres & Hps & Hb & Hok)];
    [congruence |].
  destruct (Hok eq_refl) as [puts ->].
  pose proof (saveBlockBatch_caches _ _ _ _ _ _ Hb) as (_ & _ & _ & _ & Hrc).
  fold id in Hrc.
  destruct (GetBlockSummary_AddBlock _ _ _ _ Hrun) as (ps' & Hps' & Hget).
  rewrite Hps in Hps'. inversion Hps'; subst ps'. clear Hps'.
  specialize (Hget id). rewrite decide_True in Hget by reflexivity.
  unfold GetBlockReceipts. rewrite Hget. cbn [mbind result_bind].
  unfold summaryOf. cbn [Txs]. rewrite length_map. split.
  - intros Hlen Hfit.
    destruct (0 <? Z.of_nat (length (Transactions newBlock))) eqn:Hn.
    + apply getEach_hits; [rewrite length_map; congruence |].
      intros j rc Hj. rewrite Z.add_0_l. unfold getReceipt.
      rewrite (Hrc Hfit) with (rc := rc); [reflexivity | | exact Hj].
      intros Hnil. rewrite Hnil in Hn. discriminate Hn.
    + destruct (Transactions newBlock); [| simpl in Hn; apply Z.ltb_ge in Hn; lia].
      destruct rcs; [reflexivity | discriminate].
  - intros ->. reflexivity.
Qed.

Lemma AddBlock_data_frame (r r' : Repository) (newBlock : Block) (rcs : list Receipt)
    (res : option Error) (k : Key) :
  AddBlock r newBlock rcs = (r', res) ->
  keyBlock k <> Some (ID (header newBlock)) ->
  Get (data r') k = Get (data r) k.
Proof.
  intros Hrun Hk. apply AddBlock_cases in Hrun. destruct Hrun as [_ Hrun].
  destruct res as [err |].
  - destruct Hrun as [_ ->]. reflexivity.
  - destruct Hrun as (ps & _ & _ & ->). unfold Put.
    rewrite !Get_commit_other; [reflexivity | |].
    + apply Forall_rev. eapply keys_of_other_block; [apply blockRecords_keys | exact Hk].
    + repeat constructor. simpl. intros <-. apply Hk. reflexivity.
Qed.

Lemma AddBlock_frame (r r' : Repository) (newBlock : Block)
    (rcs : list Receipt) (res : option Error) (id : Bytes32) :
  AddBlock r newBlock rcs = (r', res) ->
  id <> ID (header newBlock) ->
  GetBlockSummary r' id = GetBlockSummary r id /\
  GetBlockTransactions r' id = GetBlockTransactions r id /\
  GetBlockReceipts r' id = GetBlockReceipts r id /\
  GetBlockBackerSignatures r' id = GetBlockBackerSignatures r id /\
  GetBlock r' id = GetBlock r id.
Proof.
  intros Hrun Hne.
  assert (Hdata : forall k, keyBlock k = Some id -> Get (data r') k = Get (data r) k).
  { intros k Hk. eapply AddBlock_data_frame; [exact Hrun |]. congruence. }
  assert (Hcaches :
    summaries (caches r') !! id = summaries (caches r) !! id /\
    bss (caches r') !! id = bss (caches r) !! id /\
    forall k, key_id k = id ->
      txs (caches r') !! k = txs (caches r) !! k /\
      receipts (caches r') !! k = receipts (caches r) !! k).
  { destruct (AddBlock_caches _ _ _ _ _ Hrun)
      as [[-> _] | (ps & bres & _ & Hb & _)]; [auto |].
    pose proof (saveBlockBatch_caches _ _ _ _ _ _ Hb) as (Hbss & Htx & _).
    pose proof (saveBlockBatch_spec _ _ _ _ _ _ Hb) as Hsum.
    repeat split.
    - destruct bres as [puts | err].
      + destruct Hsum as [_ ->]. apply lookup_insert_ne. congruence.
      + rewrite Hsum. reflexivity.
    - apply Hbss. exact Hne.
    - apply Htx. congruence.
    - apply Htx. congruence. }
  destruct Hcaches as (Hsum & Hbss & Htx).
  assert (H1 : GetBlockSummary r' id = GetBlockSummary r id).
  { unfold GetBlockSummary, loadBlockSummary. rewrite Hsum, Hdata; reflexivity. }
  assert (H2 : forall k, key_id k = id -> getTransaction r' k = getTransaction r k).
  { intros k Hk. unfold getTransaction, loadTransaction.
    rewrite (proj1 (Htx k Hk)), Hdata; [reflexivity | simpl; congruence]. }
  assert (H3 : forall k, key_id k = id -> getReceipt r' k = getReceipt r k).
  { intros k Hk. unfold getReceipt, loadReceipt.
    rewrite (proj2 (Htx k Hk)), Hdata; [reflexivity | simpl; congruence]. }
  assert (H4 : GetBlockTransactions r' id = GetBlockTransactions r id).
  { unfold GetBlockTransactions. rewrite H1.
    destruct (GetBlockSummary r id) as [s |]; [| reflexivity].
    cbn [mbind result_bind]. destruct (0 <? _); [| reflexivity].
    apply getEach_ext. intros i. apply H2. reflexivity. }
  assert (H5 : GetBlockReceipts r' id = GetBlockReceipts r id).
  { unfold GetBlockReceipts. rewrite H1.
    destruct (GetBlockSummary r id) as [s |]; [| reflexivity].
    cbn [mbind result_bind]. destruct (0 <? _); [| reflexivity].
    apply getEach_ext. intros i. apply H3. reflexivity. }
  assert (H6 : GetBlockBackerSignatures r' id = GetBlockBackerSignatures r id).
  { unfold GetBlockBackerSignatures, loadBackerSignatures.
    rewrite Hbss, Hdata; reflexivity. }
  repeat split; try assumption.
  unfold GetBlock. rewrite H1, H4, H6. reflexivity.
Qed.



End ReadBack.

(** The witness of [AddBlock_GetBlock]: [b1] added to the genesis
    repository. *)
Lemma AddBlock_GetBlock_witness :
  chain.GetBlockTransactions examples.repo1 examples.b1ID = Ok [examples.t1].
Proof.
  refine (proj1 (@AddBlock_GetBlock examples.numbering examples.persist
                   examples.repo0 examples.repo1 examples.b1 [77] _ _)).
  - vm_compute. reflexivity.
  - vm_compute. discriminate.
Defined.

(** The witness of [AddBlock_GetBlockReceipts]: the receipt of [b1]'s
    transaction. *)
Lemma AddBlock_GetBlockReceipts_witness :
  chain.GetBlockReceipts examples.repo1 examples.b1ID = Ok [77].
Proof.
  refine (proj1 (@AddBlock_GetBlockReceipts examples.numbering examples.persist
                   examples.repo0 examples.repo1 examples.b1 [77] _) _ _).
  - vm_compute. reflexivity.
  - reflexivity.
  - vm_compute. discriminate.
Defined.


(** The witness of [AddBlock_then_SetBestBlockID]: [b1] is added to the
    genesis repository and made the best block. *)
Lemma AddBlock_then_SetBestBlockID_witness :
  exists r2 b,
    @chain.SetBestBlockID examples.persist examples.repo1 examples.b1ID = (r2, None) /\
    chain.BestBlock r2 = Some b /\ chain.sameContent b examples.b1.
Proof.
  destruct (@AddBlock_then_SetBestBlockID examples.numbering examples.persist
              examples.repo0 examples.repo1 examples.b1 [77])
    as (b & _ & Hsame & Hset).
  - vm_compute. reflexivity.
  - vm_compute. discriminate.
  - cbv [chain.putErr examples.persist] in Hset.
    destruct Hset as (r2 & Hset & Hbest & _).
    exists r2, b. split; [exact Hset |]. split; [exact Hbest | exact Hsame].
Defined.

(** The witness of [GetBlockBackerSignatures_never_not_found]: the record of
    [b1]'s backer signatures cannot be read after a restart. *)
Lemma GetBlockBackerSignatures_never_not_found_witness :
  chain.IsNotFound chain.errRead = false.
Proof.
  refine (@GetBlockBackerSignatures_never_not_found
            (chain.cold (chain.set_data examples.repo1
                           (examples.damaged (chain.data examples.repo1)
                              (chain.bssKey examples.b1ID))))
            examples.b1ID chain.errRead _).
  vm_compute. reflexivity.
Defined.

(** ** The repository: forks *)

Section Forks.
Import thor block chain.
Context {N : Numbering} {S : Persist}.

(** In a repository built from an empty database a summary is stored or
    not found: no other error comes up. *)
Lemma reachable_not_found (r : Repository) :
  reachable r ->
  forall id err, GetBlockSummary r id = Err err -> err = errDBNotFound.
Proof.
  induction 1 as [genesis r Hnew
                 | r newBlock rcs r' res Hreach IH Hnum Hfresh Hrun
                 | r id0 r' res Hreach IH Hrun]; intros id err Herr.
  - apply NewRepository_empty in Hnew. destruct Hnew as (_ & _ & Hget).
    rewrite Hget in Herr. destruct (decide _); congruence.
  - destruct res as [e |].
    + apply AddBlock_cases in Hrun. destruct Hrun as (_ & Hc & Hd).
      rewrite (GetBlockSummary_same _ _ Hc Hd) in Herr. exact (IH _ _ Herr).
    + apply GetBlockSummary_AddBlock in Hrun. destruct Hrun as (ps & _ & Hget).
      rewrite Hget in Herr. destruct (decide _); [discriminate | exact (IH _ _ Herr)].
  - apply SetBestBlockID_frame in Hrun. destruct Hrun as (Hd & Hc & _).
    apply (IH id err). rewrite <- Herr. symmetry.
    apply GetBlockSummary_same; [rewrite Hc; reflexivity | exact Hd].
Qed.

Lemma ancestor_trans (r : Repository) (a b c : Bytes32) :
  ancestor r a b -> ancestor r b c -> ancestor r a c.
Proof.
  intros Hab Hbc. induction Hbc as [c s Hs | b c s Hs Hne Hbc IH].
  - exact Hab.
  - eapply anc_step; eauto.
Qed.

(** Two ancestors of one block lie on one chain. *)
Lemma ancestor_comparable (r : Repository) (a b c : Bytes32) :
  ancestor r a c -> ancestor r b c -> ancestor r a b \/ ancestor r b a.
Proof.
  intros Hac Hbc. induction Hbc as [c s Hs | b c s Hs Hne Hbc IH].
  - left. exact Hac.
  - inversion Hac as [c' s' Hs' | a' c' s' Hs' Hne' Hac']; subst.
    + right. eapply anc_step; [exact Hs | exact Hne | exact Hbc].
    + rewrite Hs in Hs'. inversion Hs'; subst s'. apply IH. exact Hac'.
Qed.

(** Every stored block descends from the genesis block. *)
Lemma genesis_ancestor (r : Repository) :
  RepoInv r ->
  forall n, 0 <= n ->
  forall b s, Number b = n -> GetBlockSummary r b = Ok s ->
  ancestor r (ID (header (genesis r))) b.
Proof.
  intros (Hz & (gs & Hgs & Hroot) & Hall).
  set (gid := ID (header (genesis r))) in *.
  intros n Hn. pattern n. apply natlike_ind; [| | exact Hn]; clear n Hn.
  - intros b s Hb Hs. destruct (decide (b = gid)) as [-> | Hne].
    + eapply anc_refl. exact Hs.
    + destruct (Hall b s Hs) as (_ & _ & Hparent).
      destruct (Hparent Hne) as (ps & Hps & _ & Hnum).
      destruct (Hall _ _ Hps) as (_ & Hpos & _). lia.
  - intros n Hn IH b s Hb Hs. destruct (decide (b = gid)) as [-> | Hne].
    + eapply anc_refl. exact Hs.
    + destruct (Hall b s Hs) as (_ & _ & Hparent).
      destruct (Hparent Hne) as (ps & Hps & _ & Hnum).
      eapply anc_step; [exact Hs | exact Hne |].
      eapply IH; [| exact Hps]. lia.
Qed.

(** X9. [IfConflict] is symmetric on stored blocks. *)
Theorem IfConflict_symmetric (r : Repository) (b1 b2 : Bytes32)
    (s1 s2 : BlockSummary) :
  reachable r ->
  GetBlockSummary r b1 = Ok s1 -> GetBlockSummary r b2 = Ok s2 ->
  IfConflict r b1 b2 = IfConflict r b2 b1.
Proof.
  intros Hreach H1 H2. apply reachable_RepoInv in Hreach.
  destruct (IfConflict_stored r b1 b2 s1 s2 Hreach H1 H2) as (c & -> & Hc).
  destruct (IfConflict_stored r b2 b1 s2 s1 Hreach H2 H1) as (c' & -> & Hc').
  f_equal. destruct c, c'; try reflexivity.
  - assert (true = false) by (apply Hc; apply or_comm; apply Hc'; reflexivity).
    discriminate.
  - assert (true = false) by (apply Hc'; apply or_comm; apply Hc; reflexivity).
    discriminate.
Qed.

(** X10. The genesis block conflicts with no stored block: every stored block
    descends from it. *)
Theorem IfConflict_genesis (r : Repository) (b : Bytes32) (s : BlockSummary) :
  reachable r -> GetBlockSummary r b = Ok s ->
  ancestor r (ID (header (genesis r))) b /\
  IfConflict r (ID (header (genesis r))) b = (false, None) /\
  IfConflict r b (ID (header (genesis r))) = (false, None).
Proof.
  intros Hreach Hs. pose proof (reachable_RepoInv _ Hreach) as Hinv.
  pose proof Hinv as (_ & (gs & Hgs & _) & Hall).
  destruct (Hall _ _ Hs) as (_ & Hpos & _).
  pose proof (genesis_ancestor r Hinv _ Hpos _ _ eq_refl Hs) as Hanc.
  split; [exact Hanc |]. split.
  - destruct (IfConflict_stored r _ b gs s Hinv Hgs Hs) as (c & -> & Hc).
    f_equal. apply Hc. left. exact Hanc.
  - destruct (IfConflict_stored r b _ s gs Hinv Hs Hgs) as (c & -> & Hc).
    f_equal. apply Hc. right. exact Hanc.
Qed.

(** X11. A conflict is inherited by descendants: when [a] and [b] conflict, every
    stored descendant of [a] conflicts with [b] too. *)
Theorem IfConflict_descendant (r : Repository) (a a' b : Bytes32)
    (sa sb : BlockSummary) :
  reachable r ->
  GetBlockSummary r a = Ok sa -> GetBlockSummary r b = Ok sb ->
  IfConflict r a b = (true, None) ->
  ancestor r a a' ->
  IfConflict r a' b = (true, None).
Proof.
  intros Hreach Ha Hb Hab Hanc. apply reachable_RepoInv in Hreach.
  destruct (IfConflict_stored r a b sa sb Hreach Ha Hb) as (c & Hc & Hiff).
  rewrite Hab in Hc. inversion Hc; subst c. clear Hc.
  assert (Ha' : exists sa', GetBlockSummary r a' = Ok sa').
  { inversion Hanc; subst; eauto. }
  destruct Ha' as [sa' Ha'].
  destruct (IfConflict_stored r a' b sa' sb Hreach Ha' Hb) as (c' & -> & Hiff').
  f_equal. destruct c'; [reflexivity |]. exfalso.
  assert (Hno : ~ (ancestor r a b \/ ancestor r b a)).
  { intros H. apply Hiff in H. discriminate. }
  apply Hno. destruct (proj1 Hiff' eq_refl) as [H | H].
  - left. eapply ancestor_trans; eassumption.
  - apply or_comm. eapply ancestor_comparable; eassumption.
Qed.

End Forks.

(** The witness of [IfConflict_symmetric]: the siblings [b1] and [c1]. *)
Lemma IfConflict_symmetric_witness :
  @chain.IfConflict examples.numbering examples.repo3 examples.b1ID examples.c1ID
  = @chain.IfConflict examples.numbering examples.repo3 examples.c1ID examples.b1ID.
Proof.
  refine (@IfConflict_symmetric examples.numbering examples.persist
            examples.repo3 examples.b1ID examples.c1ID
            (chain.summaryOf examples.b1
               (<[1 := examples.b1ID]> (<[0 := examples.gID]> ∅)))
            (chain.summaryOf examples.c1
               (<[1 := examples.c1ID]> (<[0 := examples.gID]> ∅)))
            repo3_reachable _ _); vm_compute; reflexivity.
Defined.

(** The witness of [IfConflict_genesis]: the block [b2], two above genesis. *)
Lemma IfConflict_genesis_witness :
  @chain.IfConflict examples.numbering examples.repo3 examples.gID examples.b2ID
  = (false, None).
Proof.
  refine (proj1 (proj2 (@IfConflict_genesis examples.numbering examples.persist
            examples.repo3 examples.b2ID
            (chain.summaryOf examples.b2
               (<[2 := examples.b2ID]> (<[1 := examples.b1ID]> (<[0 := examples.gID]> ∅))))
            repo3_reachable _))); vm_compute; reflexivity.
Defined.

(** The witness of [IfConflict_descendant]: [c1] conflicts with [b1], hence
    with [b1]'s child [b2]. *)
Lemma IfConflict_descendant_witness :
  @chain.IfConflict examples.numbering examples.repo3 examples.b2ID examples.c1ID
  = (true, None).
Proof.
  refine (@IfConflict_descendant examples.numbering examples.persist
            examples.repo3 examples.b1ID examples.b2ID examples.c1ID
            (chain.summaryOf examples.b1
               (<[1 := examples.b1ID]> (<[0 := examples.gID]> ∅)))
            (chain.summaryOf examples.c1
               (<[1 := examples.c1ID]> (<[0 := examples.gID]> ∅)))
            repo3_reachable _ _ _ _).
  - vm_compute. reflexivity.
  - vm_compute. reflexivity.
  - vm_compute. reflexivity.
  - eapply chain.anc_step.
    + vm_compute. reflexivity.
    + vm_compute. discriminate.
    + eapply chain.anc_refl. vm_compute. reflexivity.
Defined.

(** ** The repository: the caches and the store *)

Section Lockstep.
Import thor block chain.
Context {N : Numbering} {S : Persist}.

Lemma lookupKV_None (k : Key) (l : list (Key * Value)) :
  lookupKV k l = None -> forall v, ~ In (k, v) l.
Proof.
  induction l as [| [k' v'] l IH]; simpl; intros Hl v; [tauto |].
  destruct (decide (k' = k)) as [-> | Hne]; [discriminate |].
  intros [Heq | Hin]; [congruence | exact (IH Hl v Hin)].
Qed.

(** The transaction cache and the batch move in lockstep: after the loop, a
    key the batch holds is cached with the value the batch holds for it, and
    any other key is cached as before. *)
Lemma saveTransactions_lockstep (l : list Transaction) :
  forall key i st st',
    saveTransactions key i l st = (st', None) ->
    forall k,
      match lookupKV (recordKey k) (rev (txRecords key i l)) with
      | Some v => exists t, v = VTransaction t /\ txs (cached st') !! k = Some t
      | None => txs (cached st') !! k = txs (cached st) !! k
      end.
Proof.
  induction l as [| t l IH]; intros key i st st' Hrun k.
  - inversion Hrun; subst. reflexivity.
  - simpl in Hrun. unfold save in Hrun.
    destruct (saveErr (recordKey (SetIndex key i))) as [err |]; [inversion Hrun |].
    specialize (IH _ _ _ _ Hrun k). simpl txRecords. simpl rev.
    rewrite lookupKV_app.
    destruct (lookupKV (recordKey k) (rev (txRecords (SetIndex key i) (i + 1) l)));
      [exact IH |].
    simpl in IH. simpl.
    destruct (decide (recordKey (SetIndex key i) = recordKey k)) as [Heq | Hne].
    + injection Heq as <-. exists t. split; [reflexivity |].
      rewrite IH. apply lookup_insert_eq.
    + rewrite IH. apply lookup_insert_ne. congruence.
Qed.

Lemma txRecords_In (l : list Transaction) :
  forall key i (j : nat) t, l !! j = Some t ->
    In (recordKey (SetIndex key (i + Z.of_nat j)), VTransaction t) (txRecords key i l).
Proof.
  induction l as [| t0 l IH]; intros key i j t Hj.
  - rewrite lookup_nil in Hj. discriminate.
  - destruct j as [| j]; simpl in Hj.
    + inversion Hj; subst. left. rewrite Z.add_0_r. reflexivity.
    + right. specialize (IH (SetIndex key i) (i + 1) j t Hj).
      replace (i + Z.of_nat (Datatypes.S j)) with (i + 1 + Z.of_nat j) by lia.
      exact IH.
Qed.

Lemma receiptRecords_no_tx (l : list Receipt) (k : txKey) :
  forall key i, key_infix k <> key_infix key ->
    Forall (fun kv => kv.1 <> recordKey k) (receiptRecords key i l).
Proof.
  induction l as [| rc l IH]; intros key i Hne; simpl; constructor.
  - simpl. intros [= <-]. apply Hne. reflexivity.
  - apply IH. exact Hne.
Qed.

(** A batch that succeeded holds the block's summary and backer signatures,
    and for every transaction index a transaction that is also the one the
    cache holds under that index. *)
Lemma saveBlockBatch_lockstep (c c' : Caches) (blk : Block) (rcs : list Receipt)
    (root : gmap Z Z) (puts : list (Key * Value)) :
  saveBlockBatch c blk rcs root = (c', Ok puts) ->
  let id := ID (header blk) in
  lookupKV (summaryKey id) puts = Some (VSummary (summaryOf blk root)) /\
  lookupKV (bssKey id) puts = Some (VBackerSignatures (BackerSignatures blk)) /\
  forall j : nat, (j < length (Transactions blk))%nat ->
    exists t,
      txs c' !! SetIndex (makeTxKey id txInfix) (Z.of_nat j) = Some t /\
      lookupKV (recordKey (SetIndex (makeTxKey id txInfix) (Z.of_nat j))) puts
      = Some (VTransaction t).
Proof.
  intros Hrun id.
  pose proof (saveBlockBatch_spec _ _ _ _ _ _ Hrun) as [-> _].
  unfold blockRecords. fold id. rewrite rev_app_distr. simpl rev. simpl app.
  split; [cbn [lookupKV]; rewrite decide_True by reflexivity; reflexivity |].
  split.
  { cbn [lookupKV]. rewrite decide_False by discriminate.
    rewrite decide_True by reflexivity. reflexivity. }
  intros j Hj. revert Hrun. unfold saveBlockBatch. fold id.
  set (st0 := {| putter := []; cached := c; summary_txs := [] |}).
  destruct (0 <? Z.of_nat (length (Transactions blk))) eqn:Hn.
  2:{ apply Z.ltb_ge in Hn. lia. }
  destruct (saveTransactions (makeTxKey id txInfix) 0 (Transactions blk) st0)
    as [st1 [err |]] eqn:Htx; [discriminate |].
  destruct (saveReceipts (makeTxKey id receiptInfix) 0 rcs st1) as [st2 [err |]] eqn:Hrc;
    [discriminate |].
  pose proof (saveReceipts_frame _ _ _ _ _ _ Hrc) as (Ht2 & _ & _).
  unfold save.
  destruct (saveErr (bssKey id)) as [err |]; [discriminate |].
  destruct (saveErr (summaryKey id)) as [err |]; [discriminate |].
  intros Hrun. injection Hrun as <-. simpl txs. rewrite Ht2.
  set (k := SetIndex (makeTxKey id txInfix) (Z.of_nat j)).
  cbn [lookupKV]. rewrite !decide_False by discriminate.
  rewrite rev_app_distr, lookupKV_app.
  rewrite (lookupKV_absent (recordKey k)
             (rev (receiptRecords (makeTxKey id receiptInfix) 0 rcs))).
  2:{ apply Forall_rev. apply receiptRecords_no_tx. discriminate. }
  pose proof (saveTransactions_lockstep _ _ _ _ _ Htx k) as Hlock.
  destruct (lookupKV (recordKey k) (rev (txRecords (makeTxKey id txInfix) 0
                                           (Transactions blk)))) as [v |] eqn:Hl.
  - destruct Hlock as (t & -> & Hc). exists t. split; [exact Hc | reflexivity].
  - exfalso. destruct (lookup_lt_is_Some_2 (Transactions blk) j Hj) as [t Ht].
    apply (lookupKV_None _ _ Hl (VTransaction t)). apply in_rev.
    rewrite rev_involutive.
    pose proof (txRecords_In _ (makeTxKey id txInfix) 0 j t Ht) as Hin.
    rewrite Z.add_0_l in Hin. exact Hin.
Qed.

End Lockstep.

Section Coherence.
Import thor block chain.
Context {N : Numbering} {S : Persist}.

(** The getters read block [id] through the records of [id] in the data
    store and the cache entries of [id], and through nothing else. *)
Lemma getters_frame (r r' : Repository) (id : Bytes32) :
  (forall k, keyBlock k = Some id -> (forall x, k <> branchHeadKey x) ->
     Get (data r') k = Get (data r) k) ->
  summaries (caches r') !! id = summaries (caches r) !! id ->
  bss (caches r') !! id = bss (caches r) !! id ->
  (forall k, key_id k = id -> txs (caches r') !! k = txs (caches r) !! k) ->
  GetBlockSummary r' id = GetBlockSummary r id /\
  GetBlockBackerSignatures r' id = GetBlockBackerSignatures r id /\
  forall k, key_id k = id -> getTransaction r' k = getTransaction r k.
Proof.
  intros Hdata Hsum Hbss Htx. split; [| split].
  - unfold GetBlockSummary, loadBlockSummary. rewrite Hsum, Hdata;
      [reflexivity | reflexivity | discriminate].
  - unfold GetBlockBackerSignatures, loadBackerSignatures. rewrite Hbss, Hdata;
      [reflexivity | reflexivity | discriminate].
  - intros k Hk. unfold getTransaction, loadTransaction. rewrite (Htx k Hk), Hdata;
      [reflexivity | simpl; congruence | discriminate].
Qed.

(** Coherence on a block carries over to a repository that reads the block
    through the same records and the same cache entries. *)
Lemma coherentAt_frame (r r' : Repository) (id : Bytes32) :
  (forall k, keyBlock k = Some id -> (forall x, k <> branchHeadKey x) ->
     Get (data r') k = Get (data r) k) ->
  summaries (caches r') !! id = summaries (caches r) !! id ->
  bss (caches r') !! id = bss (caches r) !! id ->
  (forall k, key_id k = id -> txs (caches r') !! k = txs (caches r) !! k) ->
  coherentAt r id -> coherentAt r' id.
Proof.
  intros Hdata Hsum Hbss Htx [Hs Hrest].
  destruct (getters_frame r r' id Hdata Hsum Hbss Htx) as (Hw1 & Hw2 & Hw3).
  destruct (getters_frame (cold r) (cold r') id Hdata eq_refl eq_refl
              (fun _ _ => eq_refl)) as (Hc1 & Hc2 & Hc3).
  split.
  - rewrite Hc1, Hw1. exact Hs.
  - intros s Hstored. rewrite Hw1 in Hstored.
    destruct (Hrest s Hstored) as [Hb Ht]. split.
    + rewrite Hc2, Hw2. exact Hb.
    + intros j Hj. rewrite Hc3, Hw3 by reflexivity. apply Ht. exact Hj.
Qed.

(** A block that is not stored is coherent as soon as its summary is read
    the same with and without the caches. *)
Lemma coherentAt_absent (r : Repository) (id : Bytes32) :
  GetBlockSummary (cold r) id = GetBlockSummary r id ->
  (forall s, GetBlockSummary r id <> Ok s) ->
  coherentAt r id.
Proof. intros Hs Hfresh. split; [exact Hs |]. intros s Hstored. destruct (Hfresh s Hstored). Qed.

Lemma Get_readable (st : Store) (k : Key) (puts : list (Key * Value)) (v : Value) :
  unreadable st = [] -> lookupKV k puts = Some v -> Get (commit st puts) k = Ok v.
Proof.
  intros Hr Hl. apply Get_commit_here; [| exact Hl]. rewrite Hr. apply not_elem_of_nil.
Qed.

(** What [saveBlock] does when the batch succeeds. *)
Lemma saveBlock_ok (r r1 : Repository) (blk : Block) (rcs : list Receipt)
    (root : gmap Z Z) :
  saveBlock r blk rcs root = (r1, None) ->
  exists c puts,
    saveBlockBatch (caches r) blk rcs root = (c, Ok puts) /\
    r1 = set_data (set_caches r c) (commit (data r) puts).
Proof.
  unfold saveBlock.
  destruct (saveBlockBatch (caches r) blk rcs root) as [c [puts | err]];
    intros Hrun; inversion Hrun; subst. eauto.
Qed.

(** [saveBlock] keeps the caches and the store coherent. *)
Lemma saveBlock_Coherent (r r1 : Repository) (blk : Block) (rcs : list Receipt)
    (root : gmap Z Z) :
  saveBlock r blk rcs root = (r1, None) -> Coherent r -> Coherent r1.
Proof.
  intros Hrun (Hud & Hup & Hcoh).
  destruct (saveBlock_ok _ _ _ _ _ Hrun) as (c & puts & Hb & ->).
  set (id := ID (header blk)).
  split; [exact Hud |]. split; [exact Hup |].
  intros id'. destruct (decide (id' = id)) as [-> | Hne].
  - pose proof (saveBlockBatch_lockstep _ _ _ _ _ _ Hb) as (Hsum & Hbss & Htx).
    fold id in Hsum, Hbss, Htx.
    pose proof (saveBlockBatch_spec _ _ _ _ _ _ Hb) as [_ Hsc]. fold id in Hsc.
    pose proof (saveBlockBatch_caches _ _ _ _ _ _ Hb) as (_ & _ & Hbc & _).
    fold id in Hbc.
    assert (Hwarm : GetBlockSummary (set_data (set_caches r c) (commit (data r) puts)) id
                    = Ok (summaryOf blk root)).
    { unfold GetBlockSummary. simpl. rewrite Hsc, lookup_insert_eq. reflexivity. }
    split.
    + rewrite Hwarm. unfold GetBlockSummary, loadBlockSummary. simpl.
      rewrite lookup_empty, (Get_readable _ _ _ _ Hud Hsum). reflexivity.
    + intros s Hs. rewrite Hwarm in Hs. inversion Hs; subst s. clear Hs. split.
      * exists (BackerSignatures blk).
        unfold GetBlockBackerSignatures, loadBackerSignatures. simpl.
        rewrite lookup_empty, Hbc, (Get_readable _ _ _ _ Hud Hbss).
        split; reflexivity.
      * intros j Hj. unfold summaryOf in Hj. simpl in Hj. rewrite length_map in Hj.
        destruct (Htx j Hj) as (t & Hc & Hl). exists t.
        unfold getTransaction, loadTransaction. simpl.
        rewrite lookup_empty, Hc, (Get_readable _ _ _ _ Hud Hl).
        split; reflexivity.
  - pose proof (saveBlockBatch_spec _ _ _ _ _ _ Hb) as [Hputs Hsc]. fold id in Hsc.
    pose proof (saveBlockBatch_caches _ _ _ _ _ _ Hb) as (Hbf & Htf & _).
    fold id in Hbf, Htf.
    apply (coherentAt_frame r); [| | | | apply Hcoh].
    + intros k Hk _. simpl. apply Get_commit_other. rewrite Hputs.
      apply Forall_rev. eapply keys_of_other_block; [apply blockRecords_keys |].
      fold id. congruence.
    + simpl. rewrite Hsc. apply lookup_insert_ne. congruence.
    + simpl. apply Hbf. exact Hne.
    + intros k Hk. simpl. apply Htf. congruence.
Qed.

(** A batch that failed leaves entries of its block in the caches; the
    caches stay coherent when that block is not stored. *)
Lemma saveBlock_failed_Coherent (r r1 : Repository) (blk : Block) (rcs : list Receipt)
    (root : gmap Z Z) (err : Error) :
  saveBlock r blk rcs root = (r1, Some err) ->
  (forall s, GetBlockSummary r (ID (header blk)) <> Ok s) ->
  Coherent r -> Coherent r1.
Proof.
  unfold saveBlock. intros Hrun Hfresh (Hud & Hup & Hcoh).
  destruct (saveBlockBatch (caches r) blk rcs root) as [c [puts | e]] eqn:Hb;
    inversion Hrun; subst. clear Hrun.
  set (id := ID (header blk)) in *.
  pose proof (saveBlockBatch_spec _ _ _ _ _ _ Hb) as Hsc. simpl in Hsc.
  pose proof (saveBlockBatch_caches _ _ _ _ _ _ Hb) as (Hbf & Htf & _).
  fold id in Hbf, Htf.
  split; [exact Hud |]. split; [exact Hup |].
  assert (Hsame : forall id', GetBlockSummary (set_caches r c) id' = GetBlockSummary r id').
  { intros id'. unfold GetBlockSummary. simpl. rewrite Hsc. reflexivity. }
  intros id'. destruct (decide (id' = id)) as [-> | Hne].
  - apply coherentAt_absent.
    + rewrite Hsame. apply (Hcoh id).
    + intros s. rewrite Hsame. apply Hfresh.
  - apply (coherentAt_frame r); [| | | | apply Hcoh].
    + intros k _ _. reflexivity.
    + simpl. rewrite Hsc. reflexivity.
    + simpl. apply Hbf. exact Hne.
    + intros k Hk. simpl. apply Htf. congruence.
Qed.

(** A put under a branch-head key or into the property store, and a new
    best block, are not seen by the getters. *)
Lemma Coherent_same_blocks (r r' : Repository) :
  (forall k, (forall x, k <> branchHeadKey x) -> Get (data r') k = Get (data r) k) ->
  unreadable (data r') = unreadable (data r) ->
  unreadable (props r') = unreadable (props r) ->
  caches r' = caches r ->
  Coherent r -> Coherent r'.
Proof.
  intros Hdata Hud' Hup' Hc (Hud & Hup & Hcoh).
  split; [congruence |]. split; [congruence |].
  intros id. apply (coherentAt_frame r); [| | | | apply Hcoh].
  - intros k _ Hk. apply Hdata. exact Hk.
  - rewrite Hc. reflexivity.
  - rewrite Hc. reflexivity.
  - intros k _. rewrite Hc. reflexivity.
Qed.

End Coherence.

(** ** The repository: invariants of every reachable repository *)

Section Reachable.
Import thor block chain.
Context {N : Numbering} {S : Persist}.

(** [saveBlock] writes to the data store and the caches only. *)
Lemma saveBlock_fields (r r1 : Repository) (blk : Block) (rcs : list Receipt)
    (root : gmap Z Z) (e : option Error) :
  saveBlock r blk rcs root = (r1, e) ->
  props r1 = props r /\ genesis r1 = genesis r /\ best r1 = best r /\ tag r1 = tag r.
Proof.
  unfold saveBlock.
  destruct (saveBlockBatch (caches r) blk rcs root) as [c [puts | err]];
    intros Hrun; inversion Hrun; subst; repeat split.
Qed.

(** The steps of [AddBlock]: the parent is missing or unreadable, or the
    batch of [saveBlock] failed, or it succeeded and the branch-head record
    was put. *)
Lemma AddBlock_inv (r r' : Repository) (newBlock : Block) (rcs : list Receipt)
    (res : option Error) :
  AddBlock r newBlock rcs = (r', res) ->
  let id := ID (header newBlock) in
  (r' = r /\ res <> None) \/
  exists ps r1,
    GetBlockSummary r (ParentID (header newBlock)) = Ok ps /\
    ((exists err, saveBlock r newBlock rcs (<[Number id := id]> (IndexRoot ps))
                  = (r1, Some err) /\ r' = r1 /\ res = Some err) \/
     (exists v, saveBlock r newBlock rcs (<[Number id := id]> (IndexRoot ps))
                = (r1, None) /\
                r' = set_data r1 (Put (data r1) (branchHeadKey id) v) /\ res = None)).
Proof.
  intros Hrun id. unfold AddBlock in Hrun. fold id in Hrun.
  destruct (GetBlockSummary r (ParentID (header newBlock))) as [ps | err] eqn:Hps.
  2:{ left. destruct (IsNotFound err); inversion Hrun; split; congruence. }
  right. exists ps. unfold indexBlock in Hrun. fold id in Hrun.
  destruct (saveBlock r newBlock rcs (<[Number id := id]> (IndexRoot ps)))
    as [r1 [err |]] eqn:Hsave.
  - exists r1. split; [reflexivity |]. left. exists err. inversion Hrun. auto.
  - exists r1. split; [reflexivity |]. right. unfold saveBranchHead in Hrun.
    destruct (isBranchHead (data r1) (ParentID (header newBlock)));
      inversion Hrun; eexists; repeat split.
Qed.

(** What [NewRepository] does on an empty database. *)
Lemma NewRepository_empty_inv (g : Block) (r : Repository) :
  NewRepository emptyStore emptyStore g = Ok r ->
  let gid := ID (header g) in
  Number gid = 0 /\ Transactions g = [] /\
  exists r1,
    saveBlock {| data := emptyStore; props := emptyStore; genesis := g;
                 best := None; tag := byteAt gid 31; tick := O;
                 caches := newCaches |} g [] (<[Number gid := gid]> ∅)
    = (r1, None) /\
    setBestBlock r1 g = (r, None).
Proof.
  intros Hnew gid. unfold NewRepository in Hnew. fold gid in Hnew.
  destruct (Z.eqb_spec (Number gid) 0) as [Hz | Hnz]; [| discriminate Hnew].
  cbn [negb] in Hnew.
  destruct (Z.eqb_spec (Z.of_nat (length (Transactions g))) 0) as [Hl | Hl];
    [| discriminate Hnew].
  cbn [negb] in Hnew. cbv zeta in Hnew. cbn [props] in Hnew.
  rewrite Get_emptyStore in Hnew. cbn [db_IsNotFound negb] in Hnew.
  unfold indexBlock in Hnew. cbn [mbind result_bind] in Hnew. fold gid in Hnew.
  split; [exact Hz |]. split; [destruct (Transactions g); [reflexivity | discriminate] |].
  destruct (saveBlock _ g [] (<[Number gid := gid]> ∅)) as [r1 [err |]] eqn:Hsave;
    [discriminate |].
  exists r1. split; [reflexivity |].
  destruct (setBestBlock r1 g) as [r2 [err |]]; [discriminate |].
  inversion Hnew. reflexivity.
Qed.

(** The caches of every reachable repository agree with its store. *)
Lemma reachable_Coherent (r : Repository) : reachable r -> Coherent r.
Proof.
  induction 1 as [g r Hnew
                 | r newBlock rcs r' res Hreach IH Hnum Hfresh Hrun
                 | r id r' res Hreach IH Hrun].
  - apply NewRepository_empty_inv in Hnew.
    destruct Hnew as (_ & _ & r1 & Hsave & Hset).
    apply setBestBlock_cases in Hset. destruct Hset as (Hd & Hc & _ & _ & _ & Hu & _).
    apply saveBlock_Coherent in Hsave.
    + apply (Coherent_same_blocks r1); try assumption.
      * intros k _. rewrite Hd. reflexivity.
      * rewrite Hd. reflexivity.
    + split; [reflexivity |]. split; [reflexivity |].
      intros id. apply coherentAt_absent; [reflexivity |].
      intros s. unfold GetBlockSummary, loadBlockSummary.
      cbn [caches summaries newCaches data]. rewrite lookup_empty, Get_emptyStore.
      discriminate.
  - destruct (AddBlock_inv _ _ _ _ _ Hrun)
      as [[-> _] | (ps & r1 & _ & [(err & Hsave & -> & _) | (v & Hsave & -> & _)])].
    + exact IH.
    + eapply saveBlock_failed_Coherent; [exact Hsave | exact Hfresh | exact IH].
    + apply saveBlock_Coherent in Hsave; [| exact IH].
      apply (Coherent_same_blocks r1); try reflexivity; [| exact Hsave].
      intros k Hk. simpl. apply Get_commit_other. repeat constructor.
      simpl. intros Heq. exact (Hk _ (eq_sym Heq)).
  - apply SetBestBlockID_frame in Hrun. destruct Hrun as (Hd & Hc & _ & _ & Hu).
    apply (Coherent_same_blocks r); try assumption.
    + intros k _. rewrite Hd. reflexivity.
    + rewrite Hd. reflexivity.
Qed.

(** From coherence on a block to its getters. *)
Lemma coherent_getters (r : Repository) (id : Bytes32) :
  coherentAt r id ->
  GetBlockSummary (cold r) id = GetBlockSummary r id /\
  GetBlockTransactions (cold r) id = GetBlockTransactions r id /\
  GetBlock (cold r) id = GetBlock r id.
Proof.
  intros [Hs Hrest].
  assert (Ht : GetBlockTransactions (cold r) id = GetBlockTransactions r id).
  { unfold GetBlockTransactions. rewrite Hs.
    destruct (GetBlockSummary r id) as [s | err] eqn:Hget; [| reflexivity].
    cbn [mbind result_bind]. destruct (0 <? _); [| reflexivity].
    destruct (Hrest s eq_refl) as [_ Htx0]. clear Hrest Hget Hs.
    assert (Htx : forall j : nat, (j < length (Txs s))%nat ->
              getTransaction (cold r) (SetIndex (makeTxKey id txInfix) (Z.of_nat j))
              = getTransaction r (SetIndex (makeTxKey id txInfix) (Z.of_nat j))).
    { intros j Hj. destruct (Htx0 j Hj) as (t & -> & ->). reflexivity. }
    clear Htx0.
    assert (Hgen : forall ids (i : nat),
              (forall j : nat, (j < length ids)%nat ->
                 getTransaction (cold r)
                   (SetIndex (makeTxKey id txInfix) (Z.of_nat (i + j)))
                 = getTransaction r
                     (SetIndex (makeTxKey id txInfix) (Z.of_nat (i + j)))) ->
              getEach (getTransaction (cold r)) (makeTxKey id txInfix) (Z.of_nat i) ids
              = getEach (getTransaction r) (makeTxKey id txInfix) (Z.of_nat i) ids).
    { induction ids as [| x ids IHids]; intros i Hall; simpl; [reflexivity |].
      pose proof (Hall O ltac:(simpl; lia)) as H0. rewrite Nat.add_0_r in H0.
      rewrite H0. destruct (getTransaction r _); [| reflexivity].
      cbn [mbind result_bind].
      replace (Z.of_nat i + 1) with (Z.of_nat (Datatypes.S i)) by lia.
      rewrite IHids; [reflexivity |].
      intros j Hj. replace (Datatypes.S i + j)%nat with (i + Datatypes.S j)%nat by lia.
      apply Hall. simpl. lia. }
    apply (Hgen (Txs s) O). intros j Hj. apply Htx. exact Hj. }
  split; [exact Hs |]. split; [exact Ht |].
  unfold GetBlock. rewrite Hs, Ht.
  destruct (GetBlockSummary r id) as [s | err] eqn:Hget; [| reflexivity].
  destruct (Hrest s eq_refl) as [(l & -> & ->) _]. reflexivity.
Qed.

(** The getters read the data store and the caches only. *)
Lemma getters_same (r r' : Repository) (id : Bytes32) :
  data r' = data r -> caches r' = caches r ->
  GetBlockSummary r' id = GetBlockSummary r id /\
  GetBlockTransactions r' id = GetBlockTransactions r id /\
  GetBlockReceipts r' id = GetBlockReceipts r id /\
  GetBlockBackerSignatures r' id = GetBlockBackerSignatures r id /\
  GetBlock r' id = GetBlock r id.
Proof.
  intros Hd Hc.
  unfold GetBlock, GetBlockTransactions, GetBlockReceipts, GetBlockBackerSignatures,
    GetBlockSummary.
  replace (getTransaction r') with (getTransaction r).
  2:{ unfold getTransaction. rewrite Hd, Hc. reflexivity. }
  replace (getReceipt r') with (getReceipt r).
  2:{ unfold getReceipt. rewrite Hd, Hc. reflexivity. }
  rewrite Hd, Hc. repeat split.
Qed.

(** The block [GetBlock] returns carries the header of the stored summary. *)
Lemma GetBlock_header (r : Repository) (id : Bytes32) (b : Block) :
  GetBlock r id = Ok b ->
  exists s, GetBlockSummary r id = Ok s /\ header b = Header s.
Proof.
  unfold GetBlock. destruct (GetBlockSummary r id) as [s | err]; [| discriminate].
  cbn [mbind result_bind].
  destruct (GetBlockTransactions r id); [| discriminate].
  cbn [mbind result_bind].
  destruct (GetBlockBackerSignatures r id); [| discriminate].
  cbn [mbind result_bind]. intros [= <-]. exists s. split; reflexivity.
Qed.

(** In every reachable repository the genesis block has no transactions,
    the chain tag is the last byte of its id, and the best block is a
    stored block whose id the property store holds. *)
Lemma reachable_best (r : Repository) :
  reachable r ->
  Transactions (genesis r) = [] /\
  tag r = byteAt (ID (header (genesis r))) 31 /\
  exists b b',
    best r = Some b /\
    Get (props r) bestBlockIDKey = Ok (VBytes32 (ID (header b))) /\
    GetBlock r (ID (header b)) = Ok b' /\ sameContent b' b.
Proof.
  induction 1 as [g r Hnew
                 | r newBlock rcs r' res Hreach IH Hnum Hfresh Hrun
                 | r id r' res Hreach IH Hrun].
  - pose proof (NewRepository_empty g r Hnew) as (_ & _ & Hsum).
    apply NewRepository_empty_inv in Hnew.
    destruct Hnew as (Hz & Hnil & r1 & Hsave & Hset).
    pose proof (saveBlock_fields _ _ _ _ _ _ Hsave) as (Hp & Hg & _ & Ht).
    simpl in Hp, Hg, Ht.
    destruct (saveBlock_ok _ _ _ _ _ Hsave) as (c & puts & Hb & Hr1).
    pose proof (saveBlockBatch_caches _ _ _ _ _ _ Hb) as (_ & _ & Hbss & _).
    apply setBestBlock_cases in Hset.
    destruct Hset as (_ & Hc' & Hg' & Ht' & _ & _ & _ & Hbest & Hprops).
    rewrite Hg', Ht', Hg, Ht.
    split; [exact Hnil |]. split; [reflexivity |].
    exists g. eexists. split; [exact Hbest |]. split.
    { rewrite Hprops, Hp. unfold Put.
      apply Get_readable; [reflexivity |]. cbn [lookupKV].
      rewrite decide_True by reflexivity. reflexivity. }
    assert (Hs : GetBlockSummary r (ID (header g))
                 = Ok (summaryOf g (<[0 := ID (header g)]> ∅))).
    { rewrite Hsum, decide_True by reflexivity. reflexivity. }
    assert (Htxs : GetBlockTransactions r (ID (header g)) = Ok []).
    { unfold GetBlockTransactions. rewrite Hs. cbn [mbind result_bind].
      unfold summaryOf. cbn [Txs]. rewrite Hnil. reflexivity. }
    assert (Hsigs : GetBlockBackerSignatures r (ID (header g))
                    = Ok (BackerSignatures g)).
    { unfold GetBlockBackerSignatures. rewrite Hc', Hr1.
      cbn [caches set_data set_caches]. rewrite Hbss. reflexivity. }
    unfold GetBlock. rewrite Hs, Htxs, Hsigs. cbn [mbind result_bind].
    split; [reflexivity |]. repeat split. cbn. symmetry. exact Hnil.
  - destruct IH as (Hnil & Htag & b & b' & Hbest & Hprops & Hget & Hsame).
    assert (Hfields : props r' = props r /\ genesis r' = genesis r /\
                      best r' = best r /\ tag r' = tag r).
    { destruct (AddBlock_inv _ _ _ _ _ Hrun)
        as [[-> _] | (ps & r1 & _ & [(err & Hsave & -> & _) | (v & Hsave & -> & _)])];
        [repeat split | |];
        apply saveBlock_fields in Hsave; exact Hsave. }
    destruct Hfields as (Hp & Hg & Hb & Ht).
    rewrite Hp, Hg, Hb, Ht. split; [exact Hnil |]. split; [exact Htag |].
    exists b, b'. split; [exact Hbest |]. split; [exact Hprops |]. split; [| exact Hsame].
    rewrite <- Hget.
    apply (AddBlock_frame _ _ _ _ _ _ Hrun).
    intros Heq. destruct (GetBlock_header _ _ _ Hget) as (s & Hs & _).
    rewrite Heq in Hs. exact (Hfresh s Hs).
  - destruct IH as (Hnil & Htag & b0 & b0' & Hbest & Hprops & Hget & Hsame).
    unfold SetBestBlockID in Hrun.
    destruct (GetBlock r id) as [b | err] eqn:Hgb.
    2:{ inversion Hrun; subst. split; [exact Hnil |]. split; [exact Htag |].
        exists b0, b0'. auto. }
    destruct (setBestBlock r b) as [r1 [err |]] eqn:Hset;
      apply setBestBlock_cases in Hset.
    { destruct Hset as (_ & _ & _ & _ & _ & _ & -> & _). inversion Hrun; subst.
      split; [exact Hnil |]. split; [exact Htag |]. exists b0, b0'. auto. }
    destruct Hset as (Hd & Hc & Hg & Ht & _ & _ & _ & Hb & Hp).
    inversion Hrun; subst. clear Hrun. cbn [genesis tag best props Broadcast].
    rewrite Hg, Ht. split; [exact Hnil |]. split; [exact Htag |].
    exists b, b. split; [exact Hb |].
    pose proof (reachable_Coherent _ Hreach) as (_ & Hup & _).
    split.
    { rewrite Hp. unfold Put.
      apply Get_readable; [exact Hup |]. cbn [lookupKV].
      rewrite decide_True by reflexivity. reflexivity. }
    split; [| repeat split].
    destruct (GetBlock_header _ _ _ Hgb) as (s & Hs & Hh).
    pose proof (reachable_RepoInv _ Hreach) as (_ & _ & Hall).
    destruct (Hall _ _ Hs) as (Hid & _). rewrite Hh, Hid.
    rewrite <- Hgb. apply getters_same; [exact Hd | exact Hc].
Qed.

End Reachable.

Section Reopen.
Import thor block chain.
Context {N : Numbering} {S : Persist}.

(** What [NewRepository] reads when it opens the database of a reachable
    repository: the stored best id, the genesis id in the index of the best
    block, and the best block. *)
Lemma reopen_reads (r : Repository) (g' : Block) :
  reachable r ->
  let repo := {| data := data r; props := props r; genesis := g'; best := None;
                 tag := byteAt (ID (header g')) 31; tick := O;
                 caches := newCaches |} in
  exists b b',
    best r = Some b /\ sameContent b' b /\
    Get (props repo) bestBlockIDKey = Ok (VBytes32 (ID (header b))) /\
    GetBlockID (NewChain repo (ID (header b))) 0 = Ok (ID (header (genesis r))) /\
    GetBlock repo (ID (header b)) = Ok b' /\
    forall id,
      GetBlockSummary repo id = GetBlockSummary r id /\
      GetBlockTransactions repo id = GetBlockTransactions r id /\
      GetBlock repo id = GetBlock r id.
Proof.
  intros Hreach repo.
  pose proof (reachable_RepoInv _ Hreach) as Hinv.
  pose proof (reachable_Coherent _ Hreach) as (_ & _ & Hcoh).
  destruct (reachable_best _ Hreach) as (_ & _ & b & b' & Hbest & Hprops & Hget & Hsame).
  assert (Hreads : forall id,
            GetBlockSummary repo id = GetBlockSummary r id /\
            GetBlockTransactions repo id = GetBlockTransactions r id /\
            GetBlock repo id = GetBlock r id).
  { intros id.
    destruct (getters_same (cold r) repo id eq_refl eq_refl) as (H1 & H2 & _ & _ & H5).
    destruct (coherent_getters r id (Hcoh id)) as (C1 & C2 & C3).
    rewrite H1, H2, H5. auto. }
  exists b, b'. split; [exact Hbest |]. split; [exact Hsame |].
  split; [exact Hprops |]. split; [| split; [| exact Hreads]].
  - destruct (GetBlock_header _ _ _ Hget) as (s & Hs & _).
    unfold GetBlockID, NewChain. cbn [chain.repo head].
    rewrite (proj1 (Hreads _)), Hs. cbn [mbind result_bind].
    pose proof Hinv as (Hz & _ & Hall).
    destruct (Hall _ _ Hs) as (_ & Hpos & _).
    pose proof (genesis_ancestor r Hinv _ Hpos _ _ eq_refl Hs) as Hanc.
    pose proof (index_ancestors r Hinv _ Hpos _ _ eq_refl Hs 0
                  (ID (header (genesis r)))) as Hidx.
    rewrite (proj2 Hidx (conj Hanc Hz)). reflexivity.
  - rewrite (proj2 (proj2 (Hreads _))). exact Hget.
Qed.

(** X15. The best block of a reachable repository is a stored block, and the
    property store holds its id: [BestBlock] answers, the id under the
    best-block key is that block's id, and [GetBlock] composes the block's
    header, transactions and backer signatures for it. *)
Theorem BestBlock_stored (r : Repository) :
  reachable r ->
  exists b b',
    BestBlock r = Some b /\
    Get (props r) bestBlockIDKey = Ok (VBytes32 (ID (header b))) /\
    GetBlock r (ID (header b)) = Ok b' /\ sameContent b' b.
Proof. intros Hreach. apply reachable_best. exact Hreach. Qed.

(** X16. Opening the database of a reachable repository again with the same
    genesis block succeeds: [NewRepository] finds the best block that was
    set, with the same chain tag and genesis block, and every block reads
    from the store alone as it read with the caches. *)
Theorem NewRepository_reopens (r : Repository) :
  reachable r ->
  exists r2 b b2,
    NewRepository (data r) (props r) (genesis r) = Ok r2 /\
    BestBlock r = Some b /\ BestBlock r2 = Some b2 /\ sameContent b2 b /\
    ChainTag r2 = ChainTag r /\ GenesisBlock r2 = GenesisBlock r /\
    forall id,
      GetBlockSummary r2 id = GetBlockSummary r id /\
      GetBlockTransactions r2 id = GetBlockTransactions r id /\
      GetBlock r2 id = GetBlock r id.
Proof.
  intros Hreach.
  destruct (reopen_reads r (genesis r) Hreach)
    as (b & b' & Hbest & Hsame & Hprops & Hgen & Hget & Hreads).
  destruct (reachable_best _ Hreach) as (Hnil & Htag & _).
  pose proof (reachable_RepoInv _ Hreach) as (Hz & _).
  unfold NewRepository. rewrite Hz, Hnil. cbn [length Z.of_nat Z.eqb negb].
  cbv zeta. rewrite Hprops, Hgen.
  rewrite bool_decide_eq_true_2 by reflexivity. cbn [negb]. rewrite Hget.
  eexists. exists b, b'. split; [reflexivity |]. split; [exact Hbest |].
  split; [reflexivity |]. split; [exact Hsame |].
  split; [unfold ChainTag; cbn [tag]; congruence |]. split; [reflexivity |].
  intros id.
  destruct (Hreads id) as (H1 & H2 & H3).
  rewrite <- H1, <- H2, <- H3.
  match goal with
  | |- GetBlockSummary ?a _ = GetBlockSummary ?b _ /\ _ =>
      destruct (getters_same b a id eq_refl eq_refl) as (G1 & G2 & _ & _ & G5)
  end.
  split; [exact G1 |]. split; [exact G2 | exact G5].
Qed.

(** X17. Opening the database of a reachable repository with another genesis
    block is refused with the genesis-mismatch error. *)
Theorem NewRepository_genesis_mismatch (r : Repository) (g' : Block) :
  reachable r ->
  Number (ID (header g')) = 0 ->
  Transactions g' = [] ->
  ID (header g') <> ID (header (genesis r)) ->
  NewRepository (data r) (props r) g' = Err (errOther "genesis mismatch").
Proof.
  intros Hreach Hz Hnil Hne.
  destruct (reopen_reads r g' Hreach)
    as (b & b' & Hbest & Hsame & Hprops & Hgen & Hget & Hreads).
  unfold NewRepository. rewrite Hz, Hnil. cbn [length Z.of_nat Z.eqb negb].
  cbv zeta. rewrite Hprops, Hgen.
  rewrite bool_decide_eq_false_2 by congruence. reflexivity.
Qed.

Lemma getEach_total {A : Type} (get : txKey -> result A) (key : txKey) :
  forall (ids : list Bytes32) (i : nat),
    (forall j : nat, (j < length ids)%nat ->
       exists x, get (SetIndex key (Z.of_nat (i + j))) = Ok x) ->
    exists xs, getEach get key (Z.of_nat i) ids = Ok xs /\ length xs = length ids.
Proof.
  induction ids as [| id ids IH]; intros i Hall; simpl.
  - exists []. split; reflexivity.
  - destruct (Hall O ltac:(simpl; lia)) as [x Hx]. rewrite Nat.add_0_r in Hx.
    rewrite Hx. cbn [mbind result_bind].
    replace (Z.of_nat i + 1) with (Z.of_nat (Datatypes.S i)) by lia.
    destruct (IH (Datatypes.S i)) as (xs & -> & Hlen).
    { intros j Hj. replace (Datatypes.S i + j)%nat with (i + Datatypes.S j)%nat by lia.
      apply Hall. simpl. lia. }
    cbn [mbind result_bind]. exists (x :: xs). split; [reflexivity |].
    simpl. rewrite Hlen. reflexivity.
Qed.

(** X25. No summary dangles: in a reachable repository every block whose
    summary is stored can be read in full, so [GetBlock] returns a block with
    the summary's header and as many transactions as the summary lists.
    [SetBestBlockID] with such an id can fail only with the error of the put
    into the property store, leaving the repository as it was; when the put
    succeeds it makes that block the best block. *)
Theorem stored_block_reads (r : Repository) (id : Bytes32) (s : BlockSummary) :
  reachable r ->
  GetBlockSummary r id = Ok s ->
  exists b,
    GetBlock r id = Ok b /\ header b = Header s /\
    length (Transactions b) = length (Txs s) /\
    match putErr (props r) bestBlockIDKey (VBytes32 id) with
    | Some err => SetBestBlockID r id = (r, Some err)
    | None => exists r', SetBestBlockID r id = (r', None) /\ BestBlock r' = Some b
    end.
Proof.
  intros Hreach Hs.
  pose proof (reachable_Coherent _ Hreach) as (_ & _ & Hcoh).
  pose proof (reachable_RepoInv _ Hreach) as (_ & _ & Hall).
  destruct (Hall _ _ Hs) as (Hid & _).
  destruct (Hcoh id) as [_ Hrest].
  destruct (Hrest s Hs) as [(l & Hbss & _) Htx].
  assert (Htxs : exists txs, GetBlockTransactions r id = Ok txs /\
                             length txs = length (Txs s)).
  { unfold GetBlockTransactions. rewrite Hs. cbn [mbind result_bind].
    destruct (0 <? Z.of_nat (length (Txs s))) eqn:Hn.
    - apply (getEach_total (getTransaction r) (makeTxKey id txInfix) (Txs s) O).
      intros j Hj. destruct (Htx j Hj) as (t & Ht & _). exists t. exact Ht.
    - exists []. split; [reflexivity |]. apply Z.ltb_ge in Hn.
      destruct (Txs s); [reflexivity | simpl in Hn; lia]. }
  destruct Htxs as (txs & Htxs & Hlen).
  unfold SetBestBlockID, setBestBlock, GetBlock. rewrite Hs, Htxs, Hbss.
  cbn [mbind result_bind]. eexists. split; [reflexivity |].
  split; [reflexivity |]. split; [exact Hlen |].
  cbn [header Compose]. rewrite Hid.
  destruct (putErr (props r) bestBlockIDKey (VBytes32 id)) as [err |].
  - reflexivity.
  - eexists. split; reflexivity.
Qed.

Lemma saveTransactions_saved (l : list Transaction) :
  forall key i st st',
    saveTransactions key i l st = (st', None) ->
    Forall (fun kv => saveErr kv.1 = None) (txRecords key i l).
Proof.
  induction l as [| t l IH]; intros key i st st' Hrun; simpl; [constructor |].
  simpl in Hrun. unfold save in Hrun.
  destruct (saveErr (recordKey (SetIndex key i))) as [err |] eqn:Hk; [inversion Hrun |].
  constructor; [exact Hk | exact (IH _ _ _ _ Hrun)].
Qed.

Lemma saveReceipts_saved (l : list Receipt) :
  forall key i st st',
    saveReceipts key i l st = (st', None) ->
    Forall (fun kv => saveErr kv.1 = None) (receiptRecords key i l).
Proof.
  induction l as [| t l IH]; intros key i st st' Hrun; simpl; [constructor |].
  simpl in Hrun. unfold save in Hrun.
  destruct (saveErr (recordKey (SetIndex key i))) as [err |] eqn:Hk; [inversion Hrun |].
  constructor; [exact Hk | exact (IH _ _ _ _ Hrun)].
Qed.

(** A batch succeeds only when every record of the block could be saved. *)
Lemma saveBlockBatch_saved (c c' : Caches) (blk : Block) (rcs : list Receipt)
    (root : gmap Z Z) (puts : list (Key * Value)) :
  saveBlockBatch c blk rcs root = (c', Ok puts) ->
  Forall (fun kv => saveErr kv.1 = None) (blockRecords blk rcs root).
Proof.
  unfold saveBlockBatch, blockRecords. set (id := ID (header blk)).
  set (st0 := {| putter := []; cached := c; summary_txs := [] |}).
  assert (Htail : forall st1,
            match save (putter st1) (bssKey id) (VBackerSignatures (BackerSignatures blk)) with
            | Err err => (cached st1, Err err)
            | Ok p2 =>
                match save p2 (summaryKey id)
                        (VSummary {| Header := header blk; IndexRoot := root;
                                     Txs := summary_txs st1;
                                     Size := uint64 (block.Size blk) |}) with
                | Err err => (add_bss (cached st1) id (BackerSignatures blk), Err err)
                | Ok p3 =>
                    (add_summary (add_bss (cached st1) id (BackerSignatures blk)) id
                       {| Header := header blk; IndexRoot := root;
                          Txs := summary_txs st1; Size := uint64 (block.Size blk) |},
                     Ok p3)
                end
            end = (c', Ok puts) ->
            Forall (fun kv => saveErr kv.1 = None)
              [(bssKey id, VBackerSignatures (BackerSignatures blk));
               (summaryKey id, VSummary (summaryOf blk root))]).
  { intros st1. unfold save.
    destruct (saveErr (bssKey id)) eqn:Hb; [discriminate |].
    destruct (saveErr (summaryKey id)) eqn:Hs; [discriminate |].
    intros _. repeat constructor; assumption. }
  destruct (0 <? Z.of_nat (length (Transactions blk))).
  - destruct (saveTransactions (makeTxKey id txInfix) 0 (Transactions blk) st0)
      as [st1 [err |]] eqn:Htx; [discriminate |].
    destruct (saveReceipts (makeTxKey id receiptInfix) 0 rcs st1) as [st2 [err |]] eqn:Hrc;
      [discriminate |].
    intros Hrun. apply Forall_app. split; [apply Forall_app; split |].
    + exact (saveTransactions_saved _ _ _ _ _ Htx).
    + exact (saveReceipts_saved _ _ _ _ _ Hrc).
    + exact (Htail st2 Hrun).
  - intros Hrun. apply Forall_app. split; [constructor |]. exact (Htail st0 Hrun).
Qed.

(** X26. [AddBlock] does not refuse a block that is already stored: adding the
    block a second time succeeds, commits its batch and its branch-head
    record once more, and changes no answer of the getters. *)
Theorem AddBlock_twice (r r1 : Repository) (newBlock : Block) (rcs : list Receipt) :
  AddBlock r newBlock rcs = (r1, None) ->
  ParentID (header newBlock) <> ID (header newBlock) ->
  Z.of_nat (length (Transactions newBlock)) <= 2 ^ 64 ->
  exists r2,
    AddBlock r1 newBlock rcs = (r2, None) /\
    length (commits (data r2)) = Datatypes.S (Datatypes.S (length (commits (data r1)))) /\
    forall id,
      GetBlockSummary r2 id = GetBlockSummary r1 id /\
      GetBlockTransactions r2 id = GetBlockTransactions r1 id /\
      GetBlockBackerSignatures r2 id = GetBlockBackerSignatures r1 id /\
      GetBlock r2 id = GetBlock r1 id.
Proof.
  intros Hrun Hparent Hlen. set (id := ID (header newBlock)) in *.
  destruct (AddBlock_caches _ _ _ _ _ Hrun) as [[_ Hbad] | (ps & bres & Hps & Hb & Hok)];
    [congruence |].
  destruct (Hok eq_refl) as [puts ->]. clear Hok.
  pose proof (saveBlockBatch_saved _ _ _ _ _ _ Hb) as Hall.
  destruct (GetBlockSummary_AddBlock _ _ _ _ Hrun) as (ps' & Hps' & Hget1).
  rewrite Hps in Hps'. inversion Hps'; subst ps'. clear Hps'.
  assert (Hps1 : GetBlockSummary r1 (ParentID (header newBlock)) = Ok ps).
  { rewrite Hget1, decide_False by exact Hparent. exact Hps. }
  assert (Hrun2 : exists r2, AddBlock r1 newBlock rcs = (r2, None)).
  { destruct (AddBlock r1 newBlock rcs) as [r2 res] eqn:Hrun2. exists r2.
    f_equal. revert Hrun2.
    unfold AddBlock. rewrite Hps1. unfold indexBlock, saveBlock.
    destruct (saveBlockBatch_ok (caches r1) _ _ _ Hall) as [c2 Hb2].
    rewrite Hb2. destruct (isBranchHead _ _); intros [= _ <-]; reflexivity. }
  destruct Hrun2 as [r2 Hrun2]. exists r2. split; [exact Hrun2 |].
  split.
  { pose proof (AddBlock_cases _ _ _ _ _ Hrun2) as (_ & ps2 & _ & _ & ->).
    reflexivity. }
  destruct (GetBlockSummary_AddBlock _ _ _ _ Hrun2) as (ps2 & Hps2 & Hget2).
  rewrite Hps1 in Hps2. inversion Hps2; subst ps2. clear Hps2.
  intros id'. destruct (decide (id' = id)) as [-> | Hne].
  - destruct (AddBlock_reads _ _ _ _ Hrun Hlen) as (Ht1 & Hs1 & _).
    destruct (AddBlock_reads _ _ _ _ Hrun2 Hlen) as (Ht2 & Hs2 & _).
    fold id in Ht1, Hs1, Ht2, Hs2.
    assert (Hsum : GetBlockSummary r2 id = GetBlockSummary r1 id).
    { rewrite Hget1, Hget2. unfold id. rewrite !decide_True by reflexivity.
      reflexivity. }
    split; [exact Hsum |]. split; [congruence |]. split; [congruence |].
    unfold GetBlock. rewrite Hsum, Ht1, Ht2, Hs1, Hs2. reflexivity.
  - destruct (AddBlock_frame _ _ _ _ _ _ Hrun2 Hne) as (F1 & F2 & _ & F4 & F5). auto.
Qed.

(** X18. The caches are not rolled back with the batch: when saving the summary
    fails and saving any other record succeeds, [AddBlock]
    returns that error and leaves the data store and the stored summaries as
    they were, yet [GetBlockBackerSignatures] now answers with the backer
    signatures of the block that was not added. *)
Theorem AddBlock_failed_batch_keeps_cache (r : Repository) (newBlock : Block)
    (rcs : list Receipt) (ps : BlockSummary) (err : Error) :
  let id := ID (header newBlock) in
  GetBlockSummary r (ParentID (header newBlock)) = Ok ps ->
  (forall k, (forall x, k <> summaryKey x) -> saveErr k = None) ->
  saveErr (summaryKey id) = Some err ->
  exists r',
    AddBlock r newBlock rcs = (r', Some err) /\
    data r' = data r /\
    (forall id', GetBlockSummary r' id' = GetBlockSummary r id') /\
    GetBlockBackerSignatures r' id = Ok (BackerSignatures newBlock).
Proof.
  intros id Hps Hother Hsum.
  unfold AddBlock. rewrite Hps. unfold indexBlock, saveBlock. fold id.
  set (root := <[Number id := id]> (IndexRoot ps)).
  destruct (saveBlockBatch (caches r) newBlock rcs root) as [c res] eqn:Hb.
  pose proof (saveBlockBatch_spec _ _ _ _ _ _ Hb) as Hspec.
  assert (Hres : res = Err err /\ bss c !! id = Some (BackerSignatures newBlock)).
  { revert Hb. unfold saveBlockBatch. fold id.
    assert (Hall : forall l : list (Key * Value),
              Forall (fun kv => forall x, kv.1 <> summaryKey x) l ->
              Forall (fun kv => saveErr kv.1 = None) l).
    { intros l Hl. eapply Forall_impl; [exact Hl |].
      intros kv Hkv. apply Hother. apply Hkv. }
    destruct (0 <? Z.of_nat (length (Transactions newBlock))).
    - destruct (saveTransactions_ok (Transactions newBlock) (makeTxKey id txInfix) 0
                  {| putter := []; cached := caches r; summary_txs := [] |})
        as [st1 ->].
      { apply Hall. clear. generalize (makeTxKey id txInfix) 0.
        induction (Transactions newBlock) as [| t l IH]; intros key i; simpl;
          constructor; [discriminate | apply IH]. }
      destruct (saveReceipts_ok rcs (makeTxKey id receiptInfix) 0 st1) as [st2 ->].
      { apply Hall. clear. generalize (makeTxKey id receiptInfix) 0.
        induction rcs as [| t l IH]; intros key i; simpl;
          constructor; [discriminate | apply IH]. }
      unfold save. rewrite (Hother (bssKey id)) by (intros x; discriminate). rewrite Hsum.
      intros [= <- <-]. split; [reflexivity |]. apply lookup_insert_eq.
    - unfold save. rewrite (Hother (bssKey id)) by (intros x; discriminate). rewrite Hsum.
      intros [= <- <-]. split; [reflexivity |]. apply lookup_insert_eq. }
  destruct Hres as [-> Hbss]. simpl in Hspec.
  eexists. split; [reflexivity |]. split; [reflexivity |]. split.
  - intros id'. apply GetBlockSummary_same; [exact Hspec | reflexivity].
  - unfold GetBlockBackerSignatures. cbn [caches set_caches]. rewrite Hbss. reflexivity.
Qed.

End Reopen.

Lemma repo4_reachable : @chain.reachable examples.numbering examples.persist examples.repo4.
Proof.
  apply (chain.reach_best examples.repo3 examples.b2ID examples.repo4
           (snd (@chain.SetBestBlockID examples.persist examples.repo3 examples.b2ID))
           repo3_reachable).
  unfold examples.repo4. apply surjective_pairing.
Qed.

(** The witness of [BestBlock_stored]: [b2] was made the best block. *)
Lemma BestBlock_stored_witness :
  exists b,
    chain.BestBlock examples.repo4 = Some b /\
    chain.Get (chain.props examples.repo4) chain.bestBlockIDKey
    = Ok (chain.VBytes32 (block.ID (block.header b))).
Proof.
  destruct (@BestBlock_stored examples.numbering examples.persist examples.repo4
              repo4_reachable) as (b & b' & Hb & Hp & _).
  exists b. split; [exact Hb | exact Hp].
Defined.

(** The witness of [NewRepository_reopens]: the database of the fork, with
    [b2] as the best block, is opened again. *)
Lemma NewRepository_reopens_witness :
  exists r2,
    @chain.NewRepository examples.numbering examples.persist
      (chain.data examples.repo4) (chain.props examples.repo4) examples.g = Ok r2 /\
    chain.GetBlock r2 examples.b1ID = chain.GetBlock examples.repo4 examples.b1ID.
Proof.
  destruct (@NewRepository_reopens examples.numbering examples.persist examples.repo4
              repo4_reachable) as (r2 & b & b2 & Hnew & _ & _ & _ & _ & _ & Hreads).
  exists r2. split; [exact Hnew | apply Hreads].
Defined.

(** The witness of [NewRepository_genesis_mismatch]: the same database and
    another genesis block. *)
Lemma NewRepository_genesis_mismatch_witness :
  @chain.NewRepository examples.numbering examples.persist
    (chain.data examples.repo4) (chain.props examples.repo4) examples.otherGenesis
  = Err (errOther "genesis mismatch").
Proof.
  refine (@NewRepository_genesis_mismatch examples.numbering examples.persist
            examples.repo4 examples.otherGenesis repo4_reachable _ _ _).
  - vm_compute. reflexivity.
  - reflexivity.
  - vm_compute. discriminate.
Defined.

(** The witness of [AddBlock_failed_batch_keeps_cache]: [b1] is added on a
    store that cannot save summaries. *)
Lemma AddBlock_failed_batch_keeps_cache_witness :
  exists r',
    @chain.AddBlock examples.numbering examples.summarySaveFails
      examples.repo0 examples.b1 [77] = (r', Some (errOther "encode failed")) /\
    chain.GetBlockBackerSignatures examples.repo0 examples.b1ID = Ok [] /\
    chain.GetBlockBackerSignatures r' examples.b1ID = Ok [1; 2].
Proof.
  destruct (@AddBlock_failed_batch_keeps_cache examples.numbering
              examples.summarySaveFails examples.repo0 examples.b1 [77]
              (chain.summaryOf examples.g (<[0 := examples.gID]> ∅))
              (errOther "encode failed"))
    as (r' & Hrun & _ & _ & Hbss).
  - vm_compute. reflexivity.
  - intros k Hk. destruct k; try reflexivity. destruct (Hk id eq_refl).
  - reflexivity.
  - exists r'. split; [exact Hrun |]. split; [vm_compute; reflexivity | exact Hbss].
Defined.

(** The witness of [stored_block_reads]: the fork block [c1]. *)
Lemma stored_block_reads_witness :
  exists b r',
    chain.GetBlock examples.repo4 examples.c1ID = Ok b /\
    @chain.SetBestBlockID examples.persist examples.repo4 examples.c1ID = (r', None).
Proof.
  destruct (@stored_block_reads examples.numbering examples.persist examples.repo4
              examples.c1ID
              (chain.summaryOf examples.c1
                 (<[1 := examples.c1ID]> (<[0 := examples.gID]> ∅)))
              repo4_reachable)
    as (b & Hget & _ & _ & Hset).
  - vm_compute. reflexivity.
  - cbv [chain.putErr examples.persist] in Hset. destruct Hset as (r' & Hset & _).
    exists b, r'. split; [exact Hget | exact Hset].
Defined.

(** The witness of [AddBlock_twice]: [b1] is added to [repo1] again. *)
Lemma AddBlock_twice_witness :
  exists r2,
    @chain.AddBlock examples.numbering examples.persist examples.repo1 examples.b1 [77]
    = (r2, None) /\
    chain.GetBlock r2 examples.b1ID = chain.GetBlock examples.repo1 examples.b1ID.
Proof.
  destruct (@AddBlock_twice examples.numbering examples.persist
              examples.repo0 examples.repo1 examples.b1 [77])
    as (r2 & Hrun & _ & Hsame).
  - vm_compute. reflexivity.
  - vm_compute. discriminate.
  - vm_compute. discriminate.
  - exists r2. split; [exact Hrun | apply Hsame].
Defined.

(** ** The repository: branches *)

Section Branches.
Import thor block chain.
Context {N : Numbering} {S : Persist} {B : BranchHeads}.

Lemma ancestor_stored (r : Repository) (a b : Bytes32) :
  ancestor r a b -> exists s, GetBlockSummary r b = Ok s.
Proof. inversion 1; eauto. Qed.

Lemma branchesByID_spec (r : Repository) (id : Bytes32) :
  reachable r ->
  forall heads acc,
  exists hs,
    branchesByID r id heads acc = (acc ++ map (NewChain r) hs, None) /\
    sublist hs heads /\
    forall h, h ∈ hs <-> h ∈ heads /\ ancestor r id h.
Proof.
  intros Hreach. pose proof (reachable_RepoInv _ Hreach) as Hinv.
  induction heads as [| h0 rest IH]; intros acc.
  - exists []. simpl. rewrite app_nil_r.
    split; [reflexivity |]. split; [constructor |].
    intros h. split; [intros Hin; inversion Hin | intros [Hin _]; inversion Hin].
  - simpl.
    assert (Hhas : exists ok, HasBlock (NewChain r h0) id = (ok, None) /\
                              (ok = true <-> ancestor r id h0)).
    { destruct (GetBlockSummary r h0) as [s | err] eqn:Hs.
      - exact (HasBlock_ancestor r h0 id s Hinv Hs).
      - exists false. split.
        + unfold HasBlock, GetBlockID, NewChain. cbn [repo head]. rewrite Hs.
          cbn [mbind result_bind].
          rewrite (reachable_not_found _ Hreach _ _ Hs). reflexivity.
        + split; [discriminate |]. intros Hanc.
          apply ancestor_stored in Hanc. destruct Hanc as [s Hs']. congruence. }
    destruct Hhas as (ok & -> & Hok). destruct ok.
    + destruct (IH (acc ++ [NewChain r h0])) as (hs & -> & Hsub & Hmem).
      exists (h0 :: hs). split; [| split].
      * simpl. rewrite <- app_assoc. reflexivity.
      * apply sublist_skip. exact Hsub.
      * intros h. rewrite !elem_of_cons, Hmem. split.
        -- intros [-> | [Hin Hanc]]; [split; [auto | apply Hok; reflexivity] | auto].
        -- intros [[-> | Hin] Hanc]; auto.
    + destruct (IH acc) as (hs & -> & Hsub & Hmem).
      exists hs. split; [reflexivity |]. split; [apply sublist_cons; exact Hsub |].
      intros h. rewrite elem_of_cons, Hmem. split.
      * intros [Hin Hanc]. auto.
      * intros [[-> | Hin] Hanc]; [| auto].
        apply Hok in Hanc. discriminate.
Qed.

(** X12. [GetBranchesByID] returns, in the order of the branch-head table and
    without error, the chains of exactly those heads on whose chain the block
    lies; for a block that is not stored it returns no branch. *)
Theorem GetBranchesByID_ancestors (r : Repository) (id : Bytes32) :
  reachable r ->
  exists hs,
    GetBranchesByID r id = (map (NewChain r) hs, None) /\
    sublist hs (loadBranchHeads (data r) (Number id)) /\
    (forall h, h ∈ hs <->
       h ∈ loadBranchHeads (data r) (Number id) /\ ancestor r id h) /\
    ((forall s, GetBlockSummary r id <> Ok s) -> hs = []).
Proof.
  intros Hreach. unfold GetBranchesByID.
  destruct (branchesByID_spec r id Hreach (loadBranchHeads (data r) (Number id)) [])
    as (hs & Hrun & Hsub & Hmem).
  exists hs. split; [exact Hrun |]. split; [exact Hsub |]. split; [exact Hmem |].
  intros Hmissing. destruct hs as [| h hs]; [reflexivity |]. exfalso.
  assert (Hanc : ancestor r id h) by (apply Hmem; left).
  apply ancestor_present in Hanc. destruct Hanc as [s Hs].
  exact (Hmissing s Hs).
Qed.

Lemma branchesByTimestamp_spec (r : Repository) (ts : Z) :
  forall heads acc,
    match branchesByTimestamp r ts heads acc with
    | (cs, None) =>
        exists hs, cs = acc ++ map (NewChain r) hs /\ sublist hs heads /\
          (forall h, h ∈ heads -> exists s, GetBlockSummary r h = Ok s) /\
          (forall h, h ∈ hs <->
             h ∈ heads /\ exists s, GetBlockSummary r h = Ok s /\
                                    ts < Timestamp (Header s))
    | (cs, Some err) =>
        cs = [] /\ exists h, h ∈ heads /\ GetBlockSummary r h = Err err
    end.
Proof.
  induction heads as [| h0 rest IH]; intros acc; simpl.
  - exists []. rewrite app_nil_r.
    split; [reflexivity |]. split; [constructor |].
    split; [intros h Hin; inversion Hin |].
    intros h. split; [intros Hin; inversion Hin | intros [Hin _]; inversion Hin].
  - destruct (GetBlockSummary r h0) as [s | err] eqn:Hs.
    2:{ split; [reflexivity |]. exists h0. split; [left | exact Hs]. }
    destruct (Z.leb_spec (Timestamp (Header s)) ts) as [Hle | Hgt].
    + specialize (IH acc).
      destruct (branchesByTimestamp r ts rest acc) as [cs [err |]].
      * destruct IH as (-> & h & Hin & Herr). split; [reflexivity |].
        exists h. split; [right; exact Hin | exact Herr].
      * destruct IH as (hs & -> & Hsub & Hall & Hmem).
        exists hs. split; [reflexivity |]. split; [apply sublist_cons; exact Hsub |].
        split.
        -- intros h Hin. apply elem_of_cons in Hin. destruct Hin as [-> | Hin]; eauto.
        -- intros h. rewrite elem_of_cons, Hmem. split.
           ++ intros [Hin Hs']. auto.
           ++ intros [[-> | Hin] (s' & Hs' & Hts)]; [| eauto].
              rewrite Hs in Hs'. inversion Hs'; subst s'. lia.
    + specialize (IH (acc ++ [NewChain r h0])).
      destruct (branchesByTimestamp r ts rest (acc ++ [NewChain r h0])) as [cs [err |]].
      * destruct IH as (-> & h & Hin & Herr). split; [reflexivity |].
        exists h. split; [right; exact Hin | exact Herr].
      * destruct IH as (hs & -> & Hsub & Hall & Hmem).
        exists (h0 :: hs). split; [simpl; rewrite <- app_assoc; reflexivity |].
        split; [apply sublist_skip; exact Hsub |]. split.
        -- intros h Hin. apply elem_of_cons in Hin. destruct Hin as [-> | Hin]; eauto.
        -- intros h. rewrite !elem_of_cons, Hmem. split.
           ++ intros [-> | [Hin Hs']]; [split; [auto | eauto] | auto].
           ++ intros [[-> | Hin] Hs']; auto.
Qed.

(** X13. [GetBranchesByTimestamp] either returns, in the order of the branch-head
    table, the chains of exactly those heads whose timestamp is later than
    [ts], every head of the table having a summary; or, when the summary of
    a head cannot be read, that error and no branch at all. *)
Theorem GetBranchesByTimestamp_newer `{Params} (r : Repository) (ts : Z) :
  let heads := loadBranchHeads (data r) (minBlockNumber r ts) in
  match GetBranchesByTimestamp r ts with
  | (cs, None) =>
      exists hs, cs = map (NewChain r) hs /\ sublist hs heads /\
        (forall h, h ∈ heads -> exists s, GetBlockSummary r h = Ok s) /\
        (forall h, h ∈ hs <->
           h ∈ heads /\ exists s, GetBlockSummary r h = Ok s /\
                                  ts < Timestamp (Header s))
  | (cs, Some err) =>
      cs = [] /\ exists h, h ∈ heads /\ GetBlockSummary r h = Err err
  end.
Proof.
  intros heads. unfold GetBranchesByTimestamp. fold heads.
  exact (branchesByTimestamp_spec r ts heads []).
Qed.

(** X14. For a timestamp not before genesis, the branch heads are loaded from
    the block number that many whole block intervals after genesis (as long
    as it fits a [uint32]); for a timestamp before genesis the [uint64]
    difference wraps around instead of stopping at zero. *)
Theorem minBlockNumber_rounds `{Params} (r : Repository) (ts : Z) :
  let g := Timestamp (header (genesis r)) in
  0 < BlockInterval -> 0 <= g < 2 ^ 64 -> 0 <= ts < 2 ^ 64 ->
  (g <= ts -> (ts - g) / BlockInterval < 2 ^ 32 ->
   minBlockNumber r ts = (ts - g) / BlockInterval) /\
  (ts < g ->
   minBlockNumber r ts = ((2 ^ 64 - (g - ts)) / BlockInterval) mod 2 ^ 32).
Proof.
  intros g Hb Hg Hts. unfold minBlockNumber, uint64, wrap. fold g. split.
  - intros Hle Hfit. rewrite (Z.mod_small (ts - g)) by lia.
    apply Z.mod_small. split; [apply Z.div_pos; lia | exact Hfit].
  - intros Hlt. do 2 f_equal.
    replace (ts - g) with ((2 ^ 64 - (g - ts)) + (-1) * 2 ^ 64) by lia.
    rewrite Z.mod_add by lia. apply Z.mod_small. lia.
Qed.

End Branches.

(** The witness of [GetBranchesByID_ancestors]: of the tips [b2] and [c1]
    and an unknown id, only [b2] has [b1] on its chain. *)
Lemma GetBranchesByID_ancestors_witness :
  exists hs,
    @chain.GetBranchesByID examples.numbering examples.branchHeads
      examples.repo3 examples.b1ID
    = (map (chain.NewChain examples.repo3) hs, None).
Proof.
  destruct (@GetBranchesByID_ancestors examples.numbering examples.persist
              examples.branchHeads examples.repo3 examples.b1ID repo3_reachable)
    as (hs & Hrun & _).
  exists hs. exact Hrun.
Defined.

(** The witness of [minBlockNumber_rounds]: 25 block intervals after the
    genesis of the example repository. *)
Lemma minBlockNumber_rounds_witness :
  @chain.minBlockNumber examples.params examples.repo3 1257 = 25.
Proof.
  refine (proj1 (@minBlockNumber_rounds examples.params examples.repo3 1257 _ _ _) _ _);
    vm_compute; try split; congruence.
Defined.

(** ** The adoption loop and the pool *)

Section Pool.
Import thor block node.
Context {K : Packer}.

Lemma adoptLoop_marks (elapsed : nat -> bool) (executables : list Transaction) :
  forall i st,
    txsToRemove st = map fst (List.filter marked (adoptCalls st)) ->
    txsToRemove (adoptLoop elapsed i executables st)
    = map fst (List.filter marked (adoptCalls (adoptLoop elapsed i executables st))).
Proof.
  induction executables as [| t rest IH]; intros i st Hst; simpl; [exact Hst |].
  destruct (Adopt (flow st) t) as [flow' err] eqn:Had.
  destruct (IsGasLimitReached err) eqn:Hg; [| destruct (IsTxNotAdoptableNow err) eqn:Hn];
    apply IH; simpl; rewrite List.filter_app, map_app; simpl;
    unfold marked at 2; simpl; rewrite ?Hg, ?Hn; simpl;
    rewrite <- Hst, ?app_nil_r; reflexivity.
Qed.

(** X19. [packTxSetAndBlockSummary] removes from the pool, in pool order, exactly
    the candidates for which [flow.Adopt] returned neither gas-limit-reached
    nor not-adoptable-now, whether or not sealing the summary succeeds; so
    every adopted transaction leaves the pool, and a transaction that hit the
    gas limit or is not adoptable now stays. *)
Theorem packTxSetAndBlockSummary_removes {A : Type} (seal : Flow -> result A)
    (elapsed : nat -> bool) (executables : list Transaction) (f : Flow) :
  let p := packTxSetAndBlockSummary seal elapsed executables f in
  removedFromPool p
  = map (fun t => (tx_Hash t, tx_ID t)) (map fst (List.filter marked (packedCalls p))) /\
  (IsGasLimitReached None = false -> IsTxNotAdoptableNow None = false ->
   forall t, (t, None) ∈ packedCalls p -> (tx_Hash t, tx_ID t) ∈ removedFromPool p) /\
  (forall h i, (h, i) ∈ removedFromPool p ->
     exists t err, (t, err) ∈ packedCalls p /\ tx_Hash t = h /\ tx_ID t = i /\
       IsGasLimitReached err = false /\ IsTxNotAdoptableNow err = false).
Proof.
  intros p. unfold p, packTxSetAndBlockSummary. cbn [removedFromPool packedCalls].
  set (st := adoptLoop elapsed 0 executables _).
  assert (Hm : txsToRemove st = map fst (List.filter marked (adoptCalls st))).
  { apply adoptLoop_marks. reflexivity. }
  split; [rewrite Hm; reflexivity |]. split.
  - intros Hg Hn t Hin. rewrite Hm.
    apply list_elem_of_In, (in_map (fun t => (tx_Hash t, tx_ID t))).
    change t with (fst (t, @None Error)). apply in_map.
    apply List.filter_In. split.
    + apply list_elem_of_In. exact Hin.
    + unfold marked. simpl. rewrite Hg, Hn. reflexivity.
  - intros h i Hin. rewrite Hm in Hin.
    apply list_elem_of_In, in_map_iff in Hin. destruct Hin as (t & Heq & Hin).
    apply in_map_iff in Hin. destruct Hin as ([t0 err] & Ht & Hin).
    simpl in Ht. subst t0. injection Heq as <- <-.
    apply List.filter_In in Hin. destruct Hin as [Hin Hmark].
    exists t, err. split; [apply list_elem_of_In; exact Hin |].
    unfold marked in Hmark. simpl in Hmark.
    destruct (IsGasLimitReached err), (IsTxNotAdoptableNow err);
      try discriminate; auto.
Qed.

End Pool.

(** ** The cases of the packer loop *)

Section PackerLoop.
Import thor block node.
Context {P : Params}.

(** Case analysis on the membership [H] of a value in an explicit list;
    the entries built with another constructor are dropped. *)
Ltac members H :=
  repeat first
    [ apply elem_of_nil in H; contradiction
    | apply elem_of_app in H; destruct H as [H | H]
    | apply elem_of_cons in H; destruct H as [H | H]; [try discriminate H |] ].

(** X20. The ticker case broadcasts a block summary only in the scheduled round of
    a flow that is built on the current best block and was not yet activated;
    it then holds that flow activated with the summary as the local copy, so
    that every later tick is a no-op (one summary per activated flow) and an
    incoming summary is ignored for as long as the own one validates. *)
Theorem onTick_broadcasts_once (st st' : PackerState) (env : TickEnv)
    (sent : list Sent) (bs : Bytes32) :
  onTick st env = (st', sent) ->
  BroadcastBlockSummary bs ∈ sent ->
  exists fl,
    (loopFlow (loop st) = Some fl /\ activated (loop st) = false \/
     loopFlow (loop st) = None /\ scheduleResult env = Ok fl) /\
    ParentHeaderID fl = tickBestID env /\
    When fl <= tickNow env <= uint64 (When fl + BlockInterval) /\
    (exists ts, packSummaryResult env = Ok (bs, ts)) /\
    st' = {| loop := {| loopFlow := Some fl; activated := true |}; lbs := Some bs |} /\
    (forall env', onTick st' env' = (st', [])) /\
    (forall senv, validateSummary senv bs = None -> onBlockSummary st' senv = (st', [])).
Proof.
  unfold onTick. intros Hrun Hin.
  assert (Hgo : forall fl,
    (loopFlow (loop st) = Some fl /\ activated (loop st) = false \/
     loopFlow (loop st) = None /\ scheduleResult env = Ok fl) ->
    (if negb (bool_decide (ParentHeaderID fl = tickBestID env)) then
       (withLoop st None (activated (loop st)),
        [sentDebug "re-schedule packer due to new best block"])
     else if tickNow env <? When fl then (withLoop st (Some fl) (activated (loop st)), [])
     else if tickNow env >? uint64 (When fl + BlockInterval)
     then (withLoop st None false, [])
     else
       match packSummaryResult env with
       | Err err => (withLoop st None false, [sentErr "packTxSetAndBlockSummary" err])
       | Ok (bs, ts) =>
           let st1 := {| loop := {| loopFlow := Some fl; activated := true |};
                         lbs := Some bs |} in
           let e1 := [sentDebug "bs ==>"; BroadcastBlockSummary bs]
                     ++ match ts with
                        | Some t => [sentDebug "ts ==>"; BroadcastTxSet t]
                        | None => []
                        end in
           match tickIsCommittee env with
           | (_, Some err) => (st1, e1 ++ [sentErr "IsCommittee" err])
           | (false, None) => (st1, e1)
           | (true, None) =>
               match tickSignErr env with
               | Some err => (st1, e1 ++ [sentErr "Signing endorsement" err])
               | None =>
                   if tickAddOk env
                   then (st1, e1 ++ [sentDebug "Added ed"; sentDebug "ed ==>";
                                     BroadcastEndorsement bs])
                   else (st1, e1 ++ [sentDebug "Failed to add ed"])
               end
           end
       end) = (st', sent) ->
    exists fl,
    (loopFlow (loop st) = Some fl /\ activated (loop st) = false \/
     loopFlow (loop st) = None /\ scheduleResult env = Ok fl) /\
    ParentHeaderID fl = tickBestID env /\
    When fl <= tickNow env <= uint64 (When fl + BlockInterval) /\
    (exists ts, packSummaryResult env = Ok (bs, ts)) /\
    st' = {| loop := {| loopFlow := Some fl; activated := true |}; lbs := Some bs |} /\
    (forall env', onTick st' env' = (st', [])) /\
    (forall senv, validateSummary senv bs = None -> onBlockSummary st' senv = (st', []))).
  { intros fl Hfl Hbody. exists fl. split; [exact Hfl |].
    destruct (bool_decide (ParentHeaderID fl = tickBestID env)) eqn:Hpar; simpl in Hbody;
      [| injection Hbody as <- <-; members Hin].
    apply bool_decide_eq_true in Hpar.
    destruct (tickNow env <? When fl) eqn:Hlt;
      [injection Hbody as <- <-; members Hin |].
    destruct (tickNow env >? uint64 (When fl + BlockInterval)) eqn:Hgt;
      [injection Hbody as <- <-; members Hin |].
    apply Z.ltb_ge in Hlt. rewrite Z.gtb_ltb in Hgt. apply Z.ltb_ge in Hgt.
    destruct (packSummaryResult env) as [[bs0 ts] | err] eqn:Hpack;
      [| injection Hbody as <- <-; members Hin].
    assert (Hst : st' = {| loop := {| loopFlow := Some fl; activated := true |};
                           lbs := Some bs0 |} /\ bs0 = bs).
    { cbv zeta in Hbody.
      destruct (tickIsCommittee env) as [[|] [e |]];
        [| destruct (tickSignErr env); [| destruct (tickAddOk env)] | |];
        injection Hbody as <- <-; (split; [reflexivity |]);
        destruct ts; members Hin; congruence. }
    destruct Hst as [-> ->].
    split; [exact Hpar |]. split; [lia |]. split; [exists ts; reflexivity |].
    split; [reflexivity |]. split.
    - intros env'. reflexivity.
    - intros senv Hvalid. unfold onBlockSummary. simpl. rewrite Hvalid. reflexivity. }
  destruct (loopFlow (loop st)) as [fl |] eqn:Hflow.
  - destruct (activated (loop st)) eqn:Hact.
    + injection Hrun as <- <-. members Hin.
    + apply (Hgo fl); [left; split; reflexivity | exact Hrun].
  - destruct (scheduleResult env) as [fl | err] eqn:Hsched.
    + destruct (activated (loop st)); (apply (Hgo fl); [right; split; reflexivity | exact Hrun]).
    + destruct (activated (loop st)); injection Hrun as <- <-; members Hin.
Qed.

(** X21. The ticker case broadcasts an endorsement only for the summary it has
    just broadcast itself, and only when the node is a committee member, the
    signature succeeded and the flow accepted the endorsement. *)
Theorem onTick_endorses_own_summary (st st' : PackerState) (env : TickEnv)
    (sent : list Sent) (bs : Bytes32) :
  onTick st env = (st', sent) ->
  BroadcastEndorsement bs ∈ sent ->
  BroadcastBlockSummary bs ∈ sent /\
  (exists ts, packSummaryResult env = Ok (bs, ts)) /\
  tickIsCommittee env = (true, None) /\
  tickSignErr env = None /\
  tickAddOk env = true /\
  lbs st' = Some bs /\
  activated (loop st') = true.
Proof.
  unfold onTick. intros Hrun Hin.
  repeat match type of Hrun with
         | context [match ?x with _ => _ end] => destruct x eqn:?
         end;
    injection Hrun as <- <-; members Hin;
    injection Hin as ->;
    (split; [set_solver |]); (split; [eexists; reflexivity |]); auto.
Qed.

(** X22. The block-summary case never touches the flow or its activation; it
    endorses only the incoming summary, only after that summary validated
    against the best block, only when no stored summary still validates, and
    only as a committee member with a signature; having done so it keeps the
    summary and ignores every later one for as long as the kept one
    validates. *)
Theorem onBlockSummary_endorses_once (st st' : PackerState) (env : SummaryEnv)
    (sent : list Sent) :
  onBlockSummary st env = (st', sent) ->
  loop st' = loop st /\
  (forall bs, BroadcastBlockSummary bs ∉ sent) /\
  (forall bs, BroadcastEndorsement bs ∈ sent ->
     bs = incoming env /\
     validateSummary env bs = None /\
     (forall l, lbs st = Some l -> validateSummary env l <> None) /\
     sumIsCommittee env = (true, None) /\
     sumSignErr env = None /\
     lbs st' = Some bs /\
     (forall env', validateSummary env' bs = None ->
        onBlockSummary st' env' = (st', []))).
Proof.
  unfold onBlockSummary. intros Hrun.
  assert (Hold : (forall l, lbs st = Some l -> validateSummary env l <> None) \/
                 st' = st /\ sent = []).
  { destruct (lbs st) as [l |]; [| left; discriminate].
    destruct (validateSummary env l) eqn:Hl.
    - left. intros l' [= <-]. congruence.
    - right. injection Hrun as <- <-. split; reflexivity. }
  destruct Hold as [Hold | [-> ->]].
  2: { split; [reflexivity |]. split; intros bs Hin; members Hin. }
  assert (Hfresh : match lbs st with
                   | Some l => match validateSummary env l with
                               | None => true
                               | Some _ => false
                               end
                   | None => false
                   end = false).
  { destruct (lbs st) as [l |]; [| reflexivity].
    specialize (Hold l eq_refl). destruct (validateSummary env l); congruence. }
  rewrite Hfresh in Hrun. cbv zeta in Hrun.
  destruct (validateSummary env (incoming env)) eqn:Hv;
    [| destruct (sumIsCommittee env) as [[|] [e |]]; [| destruct (sumSignErr env) | |]];
    injection Hrun as <- <-;
    (split; [reflexivity |]);
    (split; [intros bs Hin; members Hin |]);
    intros bs Hin; members Hin; injection Hin as ->;
    (split; [reflexivity |]); (split; [assumption |]);
    (split; [exact Hold |]);
    (split; [reflexivity |]); (split; [reflexivity |]);
    (split; [reflexivity |]);
    intros env' Hv'; simpl; rewrite Hv'; reflexivity.
Qed.

(** X23. The endorsement case commits a block only for an activated flow built on
    the current best block, inside the flow's round, for an endorsement that
    validated and with at least [CommitteeSize] endorsements collected,
    whether or not the flow accepted this endorsement; the committed block is
    the one [flow.Pack] returned, the flow is reset, and the header is
    broadcast exactly when the commit moved the trunk head. *)
Theorem onEndorsement_commits_with_quorum (st st' : LoopState)
    (env : EndorsementEnv) (effects : list Effect) (id : Bytes32) :
  onEndorsement st env = Continue st' effects ->
  CommitBlock id ∈ effects ->
  exists fl prevTrunk curTrunk,
    loopFlow st = Some fl /\ activated st = true /\
    ParentHeaderID fl = bestID env /\
    When fl <= now env <= uint64 (When fl + BlockInterval) /\
    validateErr env = None /\
    CommitteeSize <= uint64 (numOfEndorsements env) /\
    packResult env = Ok id /\
    commitBlockResult env = Ok (prevTrunk, curTrunk) /\
    st' = reset /\
    (BroadcastBlockHeader id ∈ effects <-> prevTrunk <> curTrunk).
Proof.
  unfold onEndorsement. intros Hrun Hin.
  destruct (loopFlow st) as [fl |]; [| injection Hrun as <- <-; members Hin].
  destruct (activated st); simpl in Hrun; [| injection Hrun as <- <-; members Hin].
  destruct (bool_decide (ParentHeaderID fl = bestID env)) eqn:Hpar; simpl in Hrun;
    [| injection Hrun as <- <-; members Hin].
  apply bool_decide_eq_true in Hpar.
  destruct (now env <? When fl) eqn:Hlt; [injection Hrun as <- <-; members Hin |].
  destruct (now env >? uint64 (When fl + BlockInterval)) eqn:Hgt;
    [injection Hrun as <- <-; members Hin |].
  apply Z.ltb_ge in Hlt. rewrite Z.gtb_ltb in Hgt. apply Z.ltb_ge in Hgt.
  destruct (validateErr env) eqn:Hval; [injection Hrun as <- <-; members Hin |].
  destruct (uint64 (numOfEndorsements env) <? CommitteeSize) eqn:Hq;
    [injection Hrun as <- <-; members Hin |].
  apply Z.ltb_ge in Hq.
  destruct (packResult env) as [newBlock | err] eqn:Hpack;
    [| injection Hrun as <- <-; members Hin].
  destruct (commitBlockResult env) as [[prevTrunk curTrunk] | err] eqn:Hcommit;
    [| discriminate Hrun].
  exists fl, prevTrunk, curTrunk.
  assert (Hid : newBlock = id /\ st' = reset /\
                (BroadcastBlockHeader id ∈ effects <-> prevTrunk <> curTrunk)).
  { destruct (bool_decide (prevTrunk = curTrunk)) eqn:Hfork; simpl in Hrun;
      [apply bool_decide_eq_true in Hfork | apply bool_decide_eq_false in Hfork];
      destruct (stageCommitErr env); injection Hrun as <- <-;
      members Hin; injection Hin as ->;
      (split; [reflexivity |]); (split; [reflexivity |]);
      (split; [intros Hb; members Hb; try assumption | intros Hne; try contradiction]);
      set_solver. }
  destruct Hid as (-> & -> & Hhd).
  repeat (split; [first [reflexivity | assumption | lia] |]). exact Hhd.
Qed.

(** X24. After [flow.Pack] failed the endorsement case drops the flow but leaves
    it marked as activated.  The next tick that schedules a round ahead of
    time then holds a flow that counts as activated although nothing was
    packed for it, and from there on every tick is a no-op: the ticker case
    never broadcasts a block summary for that round. *)
Theorem onTick_stalls_after_pack_failure (st st' : LoopState) (env : EndorsementEnv)
    (effects : list Effect) (err : Error) (l : option Bytes32) (tenv : TickEnv)
    (fl : FlowInfo) :
  onEndorsement st env = Continue st' effects ->
  errLog "PackBlockHeader" err ∈ effects ->
  scheduleResult tenv = Ok fl ->
  ParentHeaderID fl = tickBestID tenv ->
  tickNow tenv < When fl ->
  st' = {| loopFlow := None; activated := true |} /\
  let ps := {| loop := {| loopFlow := Some fl; activated := true |}; lbs := l |} in
  onTick {| loop := st'; lbs := l |} tenv = (ps, []) /\
  forall tenv', onTick ps tenv' = (ps, []).
Proof.
  intros Hrun Hin Hsched Hpar Hearly.
  assert (Hst : st' = {| loopFlow := None; activated := true |}).
  { revert Hrun. unfold onEndorsement.
    destruct (loopFlow st) as [fl0 |]; [| intros [= <- <-]; members Hin].
    destruct (activated st) eqn:Hact; cbn [negb];
      [| intros [= <- <-]; members Hin].
    destruct (bool_decide (ParentHeaderID fl0 = bestID env)); cbn [negb];
      [| intros [= <- <-]; members Hin].
    destruct (now env <? When fl0); [intros [= <- <-]; members Hin |].
    destruct (now env >? uint64 (When fl0 + BlockInterval));
      [intros [= <- <-]; members Hin |].
    destruct (validateErr env); [intros [= <- <-]; members Hin |].
    destruct (uint64 (numOfEndorsements env) <? CommitteeSize);
      [intros [= <- <-]; members Hin |].
    destruct (packResult env) as [newBlock | e].
    - destruct (commitBlockResult env) as [[prevTrunk curTrunk] |]; [| discriminate].
      destruct (bool_decide (prevTrunk = curTrunk)); cbn [negb];
        destruct (stageCommitErr env); intros [= <- <-]; members Hin.
    - intros [= <- <-]. reflexivity. }
  split; [exact Hst |]. subst st'. cbv zeta. split.
  - unfold onTick. cbn [loop loopFlow activated]. rewrite Hsched.
    rewrite bool_decide_eq_true_2 by exact Hpar. cbn [negb].
    rewrite (proj2 (Z.ltb_lt _ _) Hearly). reflexivity.
  - intros tenv'. reflexivity.
Qed.

End PackerLoop.

(** The witness of [packTxSetAndBlockSummary_removes]: of the candidates
    [bigTx] and [smallTx], the adopted [smallTx] leaves the pool. *)
Lemma packTxSetAndBlockSummary_removes_witness :
  (block.tx_Hash examples.smallTx, block.tx_ID examples.smallTx)
  ∈ node.removedFromPool
      (@node.packTxSetAndBlockSummary examples.packer unit (fun _ => Ok tt)
         examples.neverElapsed [examples.bigTx; examples.smallTx]
         (node.flow examples.start)).
Proof.
  refine (proj1 (proj2 (@packTxSetAndBlockSummary_removes examples.packer unit
                          (fun _ => Ok tt) examples.neverElapsed
                          [examples.bigTx; examples.smallTx]
                          (node.flow examples.start)))
                _ _ examples.smallTx _).
  - vm_compute. reflexivity.
  - vm_compute. reflexivity.
  - vm_compute. apply elem_of_cons. right. apply elem_of_cons. left. reflexivity.
Defined.

(** The witness of [onTick_broadcasts_once]: a tick in the leader's round. *)
Lemma onTick_broadcasts_once_witness :
  exists fl,
    node.ParentHeaderID fl = examples.gID /\
    fst (@node.onTick examples.params examples.idleState examples.leaderTick)
    = {| node.loop := {| node.loopFlow := Some fl; node.activated := true |};
         node.lbs := Some examples.b1ID |}.
Proof.
  destruct (@onTick_broadcasts_once examples.params examples.idleState
              (fst (@node.onTick examples.params examples.idleState examples.leaderTick))
              examples.leaderTick
              (snd (@node.onTick examples.params examples.idleState examples.leaderTick))
              examples.b1ID)
    as (fl & _ & Hpar & _ & _ & Hst & _).
  - vm_compute. reflexivity.
  - vm_compute. apply elem_of_cons. right. apply elem_of_cons. left. reflexivity.
  - exists fl. split; [exact Hpar | exact Hst].
Defined.

(** The witness of [onTick_endorses_own_summary]: the same tick, by a
    committee member. *)
Lemma onTick_endorses_own_summary_witness :
  node.BroadcastBlockSummary examples.b1ID
  ∈ snd (@node.onTick examples.params examples.idleState examples.leaderTick).
Proof.
  refine (proj1 (@onTick_endorses_own_summary examples.params examples.idleState
                   (fst (@node.onTick examples.params examples.idleState
                           examples.leaderTick))
                   examples.leaderTick
                   (snd (@node.onTick examples.params examples.idleState
                           examples.leaderTick))
                   examples.b1ID _ _)).
  - vm_compute. reflexivity.
  - vm_compute. do 4 (apply elem_of_cons; right). apply elem_of_cons. left. reflexivity.
Defined.

(** The witness of [onBlockSummary_endorses_once]: a valid summary reaches a
    committee member that holds none. *)
Lemma onBlockSummary_endorses_once_witness :
  node.lbs (fst (node.onBlockSummary examples.idleState examples.validSummary))
  = Some examples.b1ID.
Proof.
  refine (proj1 (proj2 (proj2 (proj2 (proj2 (proj2
            (proj2 (proj2 (@onBlockSummary_endorses_once examples.idleState
                             (fst (node.onBlockSummary examples.idleState
                                     examples.validSummary))
                             examples.validSummary
                             (snd (node.onBlockSummary examples.idleState
                                     examples.validSummary)) _))
               examples.b1ID _))))))).
  - vm_compute. reflexivity.
  - vm_compute. do 2 (apply elem_of_cons; right). apply elem_of_cons. left. reflexivity.
Defined.

(** The witness of [onEndorsement_commits_with_quorum]: the second
    endorsement of a committee of two arrives in the flow's round. *)
Lemma onEndorsement_commits_with_quorum_witness :
  exists fl,
    node.loopFlow examples.activeState = Some fl /\
    node.When fl <= node.now examples.commitStateFails
                 <= thor.uint64 (node.When fl + @thor.BlockInterval examples.params).
Proof.
  destruct (@onEndorsement_commits_with_quorum examples.params examples.activeState
              node.reset examples.commitStateFails
              [node.debugLog "<== ed"; node.debugLog "Added ed";
               node.debugLog "Packing new header"; node.debugLog "Committing new block";
               node.errLog "commit state" (errOther "disk full");
               node.CommitBlock examples.b1ID;
               node.ProcessFork examples.gID examples.b1ID;
               node.display examples.b1ID; node.debugLog "hd ==>";
               node.BroadcastBlockHeader examples.b1ID;
               node.BandwidthUpdate examples.b1ID]
              examples.b1ID)
    as (fl & prevTrunk & curTrunk & Hfl & _ & _ & Hwin & _).
  - vm_compute. reflexivity.
  - do 5 (apply elem_of_cons; right). apply elem_of_cons. left. reflexivity.
  - exists fl. split; [exact Hfl | exact Hwin].
Defined.

(** The witness of [onTick_stalls_after_pack_failure]: packing fails at
    1012, the next round is scheduled for 1030, and the tick of 1013 leaves
    a flow that a later tick does not touch. *)
Lemma onTick_stalls_after_pack_failure_witness :
  @node.onTick examples.params
    {| node.loop := {| node.loopFlow :=
                         Some {| node.ParentHeaderID := examples.gID;
                                 node.When := 1030 |};
                       node.activated := true |};
       node.lbs := None |} examples.leaderTick
  = ({| node.loop := {| node.loopFlow :=
                          Some {| node.ParentHeaderID := examples.gID;
                                  node.When := 1030 |};
                        node.activated := true |};
        node.lbs := None |}, []).
Proof.
  refine (proj2 (proj2 (@onTick_stalls_after_pack_failure examples.params
            examples.activeState {| node.loopFlow := None; node.activated := true |}
            examples.packFails
            [node.debugLog "<== ed"; node.debugLog "Added ed";
             node.debugLog "Packing new header";
             node.errLog "PackBlockHeader" (errOther "sign failed")]
            (errOther "sign failed") None examples.earlyTick
            {| node.ParentHeaderID := examples.gID; node.When := 1030 |}
            _ _ _ _ _)) examples.leaderTick).
  - vm_compute. reflexivity.
  - do 3 (apply elem_of_cons; right). apply elem_of_cons. left. reflexivity.
  - reflexivity.
  - reflexivity.
  - vm_compute. reflexivity.
Defined.
